(** * bpmn-beautifier: flow graph <-> Process Structure Tree

    A shallow embedding of [pst_umwandler.py] (structuring a BPMN flow graph
    into a Process Structure Tree) and of [clean_bpmn_generator.py] (reading
    the textual tree notation and rendering a tree back to BPMN), followed by
    the properties established about them.

    Conventions of the embedding.
    - A Python [str] is a [string]; a character is read as the code point of
      the same number (0..255).
    - [None] is [option]'s [None]; Python truthiness of a string is [truthy].
    - A [dict] is an association list in insertion order (Python 3.7+
      semantics); a [set] is a duplicate-free list, and the order in which
      CPython iterates over a set, which the language leaves unspecified, is
      the parameter [set_iter].
    - Effects are explicit: exceptions and exhausted fuel live in [outcome],
      the renderer's mutable builder object is threaded as a [Builder]. *)

From Stdlib Require Import List String Ascii ZArith Lia Bool Arith Permutation.
From Stdlib Require Import Sorted.
From Stdlib Require Import DecimalString DecimalNat QArith.
Import ListNotations.
Set Warnings "-register-all".
Open Scope string_scope.
Open Scope list_scope.
Open Scope nat_scope.

(** String concatenation and equality, written apart from the list and
    number notations. *)
Infix "+++" := String.append (right associativity, at level 60).
Infix "==" := String.eqb (at level 70, no associativity).

(* ================================================================= *)
(** ** Outcomes: results, exceptions, fuel *)

Inductive outcome (A : Type) : Type :=
| Done (a : A)
| Raised (exn : string)
| OutOfFuel.
Arguments Done {A} a.
Arguments Raised {A} exn.
Arguments OutOfFuel {A}.

Definition bind {A B} (m : outcome A) (k : A -> outcome B) : outcome B :=
  match m with
  | Done a => k a
  | Raised e => Raised e
  | OutOfFuel => OutOfFuel
  end.

Notation "x <- m ;; k" := (bind m (fun x => k))
  (at level 61, m at next level, right associativity).

Fixpoint mapM {A B} (f : A -> outcome B) (l : list A) : outcome (list B) :=
  match l with
  | [] => Done []
  | a :: l' => b <- f a ;; bs <- mapM f l' ;; Done (b :: bs)
  end.

Fixpoint foldM {A S} (f : S -> A -> outcome S) (l : list A) (s : S)
    : outcome S :=
  match l with
  | [] => Done s
  | a :: l' => s' <- f s a ;; foldM f l' s'
  end.

(* ================================================================= *)
(** ** Python strings *)

Definition truthy (s : string) : bool := negb (s == "").

(** [if v:] on an optional string. *)
Definition truthy_opt (v : option string) : bool :=
  match v with
  | Some s => truthy s
  | None => false
  end.

(** [x or y] on an optional string. *)
Definition or_else (v : option string) (d : string) : string :=
  match v with
  | Some s => if truthy s then s else d
  | None => d
  end.

Definition code (c : ascii) : nat := nat_of_ascii c.

(** [str.isspace] on the code points below 256. *)
Definition isspace (c : ascii) : bool :=
  let n := code c in
  ((9 <=? n) && (n <=? 13)) || ((28 <=? n) && (n <=? 32))
  || (n =? 133) || (n =? 160).

(** The word characters of [\w] (alphanumerics and underscore) below 256. *)
Definition isword (c : ascii) : bool :=
  let n := code c in
  ((48 <=? n) && (n <=? 57)) || ((65 <=? n) && (n <=? 90))
  || ((97 <=? n) && (n <=? 122)) || (n =? 95)
  || (n =? 170) || (n =? 178) || (n =? 179) || (n =? 181)
  || ((185 <=? n) && (n <=? 186)) || ((188 <=? n) && (n <=? 190))
  || ((192 <=? n) && (n <=? 214)) || ((216 <=? n) && (n <=? 246))
  || (248 <=? n).

(** [str.lower] on one code point below 256. *)
Definition lower_char (c : ascii) : ascii :=
  let n := code c in
  if ((65 <=? n) && (n <=? 90))
     || ((192 <=? n) && (n <=? 214)) || ((216 <=? n) && (n <=? 222))
  then ascii_of_nat (n + 32) else c.

Fixpoint lower (s : string) : string :=
  match s with
  | EmptyString => EmptyString
  | String c s' => String (lower_char c) (lower s')
  end.

Fixpoint lstrip (s : string) : string :=
  match s with
  | EmptyString => EmptyString
  | String c s' => if isspace c then lstrip s' else s
  end.

(** Removes the trailing characters that satisfy [p]. *)
Fixpoint rstrip_by (p : ascii -> bool) (s : string) : string :=
  match s with
  | EmptyString => EmptyString
  | String c s' =>
      match rstrip_by p s' with
      | EmptyString => if p c then EmptyString else String c EmptyString
      | r => String c r
      end
  end.

Definition strip (s : string) : string := rstrip_by isspace (lstrip s).

(** [sub in s]. *)
Fixpoint contains (sub s : string) : bool :=
  prefix sub s
  || match s with
     | EmptyString => false
     | String _ s' => contains sub s'
     end.

(** [str(i)] for a non-negative integer. *)
Definition str_of_nat (n : nat) : string :=
  NilEmpty.string_of_uint (Nat.to_uint n).

Definition mem (x : string) (l : list string) : bool :=
  existsb (String.eqb x) l.

(* ================================================================= *)
(** ** Tree Model: class [Node] *)

Inductive Node : Type :=
  mkNode { ntype : string; value : option string; children : list Node }.

Definition NULL : Node := mkNode "NULL" None [].
Definition TASK (v : string) : Node := mkNode "TASK" (Some v) [].
Definition EVENT (v : string) : Node := mkNode "EVENT" (Some v) [].
Definition LOOPBACK (v : string) : Node := mkNode "LOOPBACK" (Some v) [].
Definition SEQ (cs : list Node) : Node := mkNode "SEQ" None cs.
Definition LOOP (cs : list Node) : Node := mkNode "LOOP" None cs.

(** [f"{value}"]: a missing value prints as the word None. *)
Definition fmt (v : option string) : string :=
  match v with
  | Some s => s
  | None => "None"
  end.

Fixpoint indent_of (level : nat) : string :=
  match level with
  | O => ""
  | S l => "  " +++ indent_of l
  end.

Definition nl : string := String (ascii_of_nat 10) EmptyString.

(** [Node.__repr__] of [pst_umwandler.py]. *)
Fixpoint repr (level : nat) (n : Node) {struct n} : string :=
  let indent := indent_of level in
  if mem (ntype n) ["TASK"; "EVENT"; "NULL"; "LOOPBACK"] then
    indent +++ ntype n +++ "(" +++ fmt (value n) +++ ")"
  else
    let s := indent +++ ntype n +++ "(" +++ nl in
    let s :=
      (fix each (cs : list Node) (s : string) : string :=
         match cs with
         | [] => s
         | c :: cs' => each cs' (s +++ repr (S level) c +++ "," +++ nl)
         end) (children n) s in
    s +++ indent +++ ")".

(* ================================================================= *)
(** ** Graph Model: what [parse_bpmn] loads *)

(** An XML element of the process: its tag, its [id] and its optional
    [name] attribute. *)
Record Element : Type :=
  mkElement { e_tag : string; e_id : string; e_name : option string }.

(** The document: the process elements in document order and the
    [sequenceFlow]s as ([sourceRef], [targetRef]) in document order. *)
Record Document : Type :=
  mkDocument { d_elements : list Element; d_flows : list (string * string) }.

Section Dict.
Context {V : Type}.
Definition dict := list (string * V).

Fixpoint dict_get (d : dict) (k : string) : option V :=
  match d with
  | [] => None
  | (k', v) :: d' => if k == k' then Some v else dict_get d' k
  end.

(** [d[k] = v]: an existing key keeps its position. *)
Fixpoint dict_set (d : dict) (k : string) (v : V) : dict :=
  match d with
  | [] => [(k, v)]
  | (k', v') :: d' =>
      if k == k' then (k, v) :: d' else (k', v') :: dict_set d' k v
  end.

Definition dict_mem (d : dict) (k : string) : bool :=
  match dict_get d k with Some _ => true | None => false end.

Definition keys (d : dict) : list string := map fst d.

(** [{**a, **b}]. *)
Definition dict_merge (a b : dict) : dict :=
  fold_left (fun d kv => dict_set d (fst kv) (snd kv)) b a.
End Dict.
Arguments dict V : clear implicits.

Definition task_tags : list string :=
  ["task"; "userTask"; "manualTask"; "scriptTask"; "serviceTask";
   "businessRuleTask"; "sendTask"; "receiveTask"; "callActivity";
   "subProcess"].

(** Adds [x] at the end of a set unless it is there. *)
Definition set_add (x : string) (s : list string) : list string :=
  if mem x s then s else s ++ [x].

Definition set_union (a b : list string) : list string :=
  fold_left (fun s x => set_add x s) b a.

Definition set_of (l : list string) : list string := set_union [] l.

Definition set_inter (a b : list string) : list string :=
  filter (fun x => mem x b) a.

(** [set.intersection] applied to a non-empty list of sets. *)
Definition set_intersection (sets : list (list string)) : list string :=
  match sets with
  | [] => []
  | s :: rest => fold_left set_inter rest s
  end.

(** Stable sort by an integer key ([list.sort(key=...)]). *)
Section Sort.
Context {A : Type} (key : A -> Z).
Fixpoint insert_by (x : A) (l : list A) : list A :=
  match l with
  | [] => [x]
  | y :: l' =>
      if (key x <=? key y)%Z then x :: l else y :: insert_by x l'
  end.
Definition sort_by (l : list A) : list A := fold_right insert_by [] l.
End Sort.

Section ParseBpmn.

(** The order in which a set with the given elements is iterated. *)
Variable set_iter : list string -> list string.
Variable doc : Document.

Definition findall (tag : string) : list Element :=
  filter (fun e => e_tag e == tag) (d_elements doc).

Definition by_id (d : dict Element) (es : list Element) : dict Element :=
  fold_left (fun d e => dict_set d (e_id e) e) es d.

Definition tasks : dict Element :=
  fold_left (fun d tag => by_id d (findall tag)) task_tags [].

Definition start_events : dict Element := by_id [] (findall "startEvent").
Definition end_events : dict Element := by_id [] (findall "endEvent").
Definition events : dict Element := dict_merge start_events end_events.

Definition xor_gws : dict Element := by_id [] (findall "exclusiveGateway").
Definition and_gws : dict Element := by_id [] (findall "parallelGateway").
Definition gateways : dict Element := dict_merge xor_gws and_gws.

Definition flows : list (string * string) := d_flows doc.

(** [succ.get(n, [])] and [pred.get(n, [])]. *)
Definition succ (n : string) : list string :=
  map snd (filter (fun uv => fst uv == n) flows).
Definition pred (n : string) : list string :=
  map fst (filter (fun uv => snd uv == n) flows).

Definition is_xor (gw_id : string) : bool := dict_mem xor_gws gw_id.
Definition is_and (gw_id : string) : bool := dict_mem and_gws gw_id.
Definition outdeg (n : string) : nat := List.length (succ n).
Definition indeg (n : string) : nat := List.length (pred n).

Definition label (elem : Element) : string :=
  match e_name elem with
  | Some nm => if truthy nm then e_id elem +++ "|" +++ strip nm else e_id elem
  | None => e_id elem
  end.

Definition label_by_id (nid : string) : string :=
  match dict_get tasks nid with
  | Some e => label e
  | None =>
      match dict_get events nid with
      | Some e => label e
      | None =>
          match dict_get gateways nid with
          | Some e => label e
          | None => nid
          end
      end
  end.

(** The start node ([start_id]); [next(iter(...))] of an empty mapping
    raises [StopIteration]. *)
Definition first_key (d : dict Element) : outcome string :=
  match keys d with
  | k :: _ => Done k
  | [] => Raised "StopIteration"
  end.

Definition start_id : outcome string :=
  match start_events with
  | _ :: _ =>
      let se := find (fun sid => indeg sid =? 0) (keys start_events) in
      match se with
      | Some sid => if truthy sid then Done sid else first_key start_events
      | None => first_key start_events
      end
  | [] =>
      let nodes :=
        set_iter (set_union (set_union (set_of (keys tasks)) (keys events))
                            (keys gateways)) in
      match filter (fun n => indeg n =? 0) nodes with
      | c :: _ => Done c
      | [] =>
          first_key (match tasks with
                     | _ :: _ => tasks
                     | [] => match events with
                             | _ :: _ => events
                             | [] => gateways
                             end
                     end)
      end
  end.

(* --------------------------------------------------------------- *)
(** *** Reachability and join detection *)

(** One round of the [for v in succ.get(u, [])] loop of [bfs_dist]. *)
Definition bfs_visit (u : string)
    (st : list string * dict Z * list string) (v : string)
    : outcome (list string * dict Z * list string) :=
  let '(visited, dist, q) := st in
  if mem v visited then Done st
  else
    match dict_get dist u with
    | None => Raised "KeyError"
    | Some du => Done (visited ++ [v], dict_set dist v (du + 1)%Z, q ++ [v])
    end.

Fixpoint bfs_loop (fuel : nat) (stop : option string)
    (q visited : list string) (dist : dict Z)
    : outcome (list string * dict Z) :=
  match q with
  | [] => Done (visited, dist)
  | u :: q' =>
      match fuel with
      | O => OutOfFuel
      | S fuel' =>
          if match stop with Some s => u == s | None => false end
          then Done (visited, dist)
          else
            st <- foldM (bfs_visit u) (succ u) (visited, dist, q') ;;
            let '(visited', dist', q'') := st in
            bfs_loop fuel' stop q'' visited' dist'
      end
  end.

(** Every node enters the queue at most once, and all but [start] are
    targets of a flow: [1 + len(flows)] iterations are enough
    ([bfs_dist_correct]). *)
Definition bfs_dist (start : string) (stop : option string)
    : outcome (list string * dict Z) :=
  bfs_loop (S (List.length flows)) stop [start] [start] [(start, 0%Z)].

Definition is_candidate (kind n : string) : bool :=
  dict_mem gateways n
  && (((kind == "XOR") && is_xor n) || ((kind == "AND") && is_and n))
  && (1 <? indeg n).

Definition score (dist_maps : list (dict Z)) (n : string) : Z :=
  match map (fun dm => match dict_get dm n with
                       | Some d => d
                       | None => (10 ^ 9)%Z
                       end) dist_maps with
  | [] => 0%Z
  | d :: ds => fold_left Z.max ds d
  end.

Definition find_join (split_id kind : string) : outcome (option string) :=
  let outs := succ split_id in
  if List.length outs <=? 1 then Done None
  else
    results <- mapM (fun o => bfs_dist o None) outs ;;
    let visited_sets := map fst results in
    let dist_maps := map snd results in
    let common := set_iter (set_intersection visited_sets) in
    let cands := filter (is_candidate kind) common in
    match cands with
    | [] => Done None
    | _ :: _ =>
        match sort_by (score dist_maps) cands with
        | c :: _ => Done (Some c)
        | [] => Raised "IndexError"
        end
    end.

(** Returns the first successor of [u] that is on the stack. *)
Definition edge_hits_active_split (u : string)
    (active_split_stack : list string) : option string :=
  match active_split_stack with
  | [] => None
  | _ :: _ => find (fun v => mem v active_split_stack) (succ u)
  end.

(* --------------------------------------------------------------- *)
(** *** Structuring engine *)

(** The return normalisation shared by both builders. *)
Definition normalise (seq_children : list Node) : Node :=
  match seq_children with
  | [] => NULL
  | [c] => c
  | _ => SEQ seq_children
  end.

(** [nxts[0] if len(nxts) == 1 else None]. *)
Definition only (nxts : list string) : option string :=
  match nxts with
  | [n] => Some n
  | _ => None
  end.

(** [succ.get(join, [])] where [join] may be [None]. *)
Definition succ_opt (join : option string) : list string :=
  match join with
  | Some j => succ j
  | None => []
  end.

Definition kind_of (current : string) : string :=
  if is_xor current then "XOR" else if is_and current then "AND" else "XOR".

(** [label(d[k])] for a key known to be in [d]; [label(None)] is the
    text NULL. *)
Definition elem_label (d : dict Element) (k : string) : string :=
  match dict_get d k with
  | Some e => label e
  | None => "NULL"
  end.

(** [if hit:] keeps a hit only when it is a non-empty identifier. *)
Definition truthy_hit (hit : option string) : option string :=
  match hit with
  | Some h => if truthy h then Some h else None
  | None => None
  end.

(** [if l: q.append(l[0])]. *)
Definition append_first (q l : list string) : list string :=
  match l with
  | x :: _ => q ++ [x]
  | [] => q
  end.

(** [build_path_until]: the state of its [while] loop is [current],
    [seen_local] and [seq_children].  One unit of fuel is spent per loop
    iteration and per nested call; the loop test itself is free. *)
Fixpoint build_path_until_loop (fuel : nat) (node_id : string)
    (stop_id : option string) (active_split_stack : list string)
    (current : option string) (seen_local : list string)
    (seq_children : list Node) {struct fuel} : outcome Node :=
  match current with
  | None => Done (normalise seq_children)
  | Some cur =>
      if match stop_id with Some s => cur == s | None => false end
         || mem cur seen_local
      then Done (normalise seq_children)
      else
        match fuel with
        | O => OutOfFuel
        | S fuel' =>
            let seen_local := seen_local ++ [cur] in
            match truthy_hit (edge_hits_active_split cur active_split_stack)
            with
            | Some hit =>
                let condition_branch :=
                  if 1 <? List.length seq_children then SEQ seq_children
                  else match seq_children with
                       | c :: _ => c
                       | [] => NULL
                       end in
                let loop_body :=
                  if node_id == hit then NULL
                  else SEQ [TASK ("Body_of_" +++ label_by_id hit)] in
                Done (LOOP [condition_branch; loop_body])
            | None =>
            if dict_mem tasks cur then
              build_path_until_loop fuel' node_id stop_id active_split_stack
                (only (succ cur)) seen_local
                (seq_children ++ [TASK (elem_label tasks cur)])
            else if dict_mem events cur then
              build_path_until_loop fuel' node_id stop_id active_split_stack
                (only (succ cur)) seen_local
                (seq_children ++ [EVENT (elem_label events cur)])
            else if dict_mem gateways cur then
              if 1 <? outdeg cur then
                let kind := kind_of cur in
                join <- find_join cur kind ;;
                if match join with Some j => j == cur | None => false end
                then Done (normalise seq_children)
                else
                  let stack := active_split_stack ++ [cur] in
                  kids <- mapM (fun o =>
                                  if o == cur then Done NULL
                                  else build_path_until_loop fuel' o join
                                         stack (Some o) [] [])
                               (succ cur) ;;
                  build_path_until_loop fuel' node_id stop_id
                    active_split_stack (hd_error (succ_opt join)) seen_local
                    (seq_children
                       ++ [mkNode kind (Some (elem_label gateways cur)) kids])
              else
                build_path_until_loop fuel' node_id stop_id
                  active_split_stack (only (succ cur)) seen_local seq_children
            else Done (normalise seq_children)
            end
        end
  end.

Definition build_path_until (fuel : nat) (node_id : string)
    (stop_id : option string) (active_split_stack : list string)
    : outcome Node :=
  build_path_until_loop fuel node_id stop_id active_split_stack
    (Some node_id) [] [].

Definition is_join (join : option string) (o : string) : bool :=
  match join with
  | Some j => o == j
  | None => false
  end.

(** The [while q] loop of [build_pst_main]: its state is the queue,
    [seen_backbone], the (always restored) [active_split_stack] and
    [seq_children]. *)
Fixpoint build_pst_main_loop (fuel : nat) (q seen_backbone : list string)
    (active_split_stack : list string) (seq_children : list Node)
    {struct fuel} : outcome Node :=
  match q with
  | [] => Done (normalise seq_children)
  | current :: q =>
      if mem current seen_backbone then
        Done (normalise (seq_children ++ [LOOPBACK (label_by_id current)]))
      else
        match fuel with
        | O => OutOfFuel
        | S fuel' =>
            let seen_backbone := seen_backbone ++ [current] in
            if dict_mem tasks current then
              let seq_children :=
                seq_children ++ [TASK (elem_label tasks current)] in
              let nxts := succ current in
              if List.length nxts =? 1 then
                build_pst_main_loop fuel' (append_first q nxts) seen_backbone
                  active_split_stack seq_children
              else if 1 <? List.length nxts then
                let kind := "XOR" in
                join <- find_join current kind ;;
                let stack := active_split_stack ++ [current] in
                kids <- mapM (fun o =>
                                if truthy_opt join && is_join join o
                                then Done NULL
                                else build_path_until fuel' o join stack)
                             (succ current) ;;
                let seq_children :=
                  seq_children
                    ++ [mkNode kind (Some (elem_label tasks current)) kids] in
                build_pst_main_loop fuel'
                  (if truthy_opt join
                   then append_first q (succ_opt join) else q)
                  seen_backbone active_split_stack seq_children
              else
                build_pst_main_loop fuel' q seen_backbone active_split_stack
                  seq_children
            else if dict_mem events current then
              build_pst_main_loop fuel' (append_first q (succ current))
                seen_backbone active_split_stack
                (seq_children ++ [EVENT (elem_label events current)])
            else if dict_mem gateways current then
              if 1 <? outdeg current then
                let kind := kind_of current in
                join <- find_join current kind ;;
                let stack := active_split_stack ++ [current] in
                match join with
                | None =>
                    kids <- mapM (fun o => build_path_until fuel' o None stack)
                                 (succ current) ;;
                    Done (normalise
                            (seq_children
                               ++ [mkNode kind
                                     (Some (elem_label gateways current))
                                     kids]))
                | Some j =>
                    kids <- mapM (fun o =>
                                    if o == j then Done NULL
                                    else build_path_until fuel' o join stack)
                                 (succ current) ;;
                    build_pst_main_loop fuel' (append_first q (succ j))
                      seen_backbone active_split_stack
                      (seq_children
                         ++ [mkNode kind (Some (elem_label gateways current))
                               kids])
                end
              else
                build_pst_main_loop fuel' (append_first q (succ current))
                  seen_backbone active_split_stack seq_children
            else Done (normalise seq_children)
        end
  end.

Definition build_pst_main (fuel : nat) (start_node : string) : outcome Node :=
  build_pst_main_loop fuel [start_node] [] [] [].

Definition parse_bpmn (fuel : nat) : outcome Node :=
  s <- start_id ;; build_pst_main fuel s.

End ParseBpmn.

(* ================================================================= *)
(** ** Tree notation: [parse_pst_text] *)

(** The longest prefix of word characters, and what follows it. *)
Fixpoint span_word (s : string) : string * string :=
  match s with
  | EmptyString => (EmptyString, EmptyString)
  | String c s' =>
      if isword c then let (w, r) := span_word s' in (String c w, r)
      else (EmptyString, s)
  end.

(** What stands before the last closing parenthesis, if there is one. *)
Fixpoint upto_last_rparen (s : string) : option string :=
  match s with
  | EmptyString => None
  | String c s' =>
      match upto_last_rparen s' with
      | Some r => Some (String c r)
      | None => if Ascii.eqb c ")" then Some EmptyString else None
      end
  end.

(** [re.match] with the pattern of [parse_block] under [re.S]: a group of
    one or more word characters, an opening parenthesis, a group of any
    characters, a closing parenthesis.  Both quantifiers are greedy, so the
    first group is the whole leading run of word characters and the second
    reaches to the last closing parenthesis of [s]. *)
Definition re_match (s : string) : option (string * string) :=
  match span_word s with
  | (EmptyString, _) => None
  | (w, String c rest) =>
      if Ascii.eqb c "(" then
        match upto_last_rparen rest with
        | Some inside => Some (w, inside)
        | None => None
        end
      else None
  | (_, EmptyString) => None
  end.

Definition add_char (buff : string) (c : ascii) : string :=
  buff +++ String c EmptyString.

(** [[ch for ch in children if ch]]: a [Node] object is always truthy. *)
Fixpoint drop_none (l : list (option Node)) : list Node :=
  match l with
  | [] => []
  | Some n :: l' => n :: drop_none l'
  | None :: l' => drop_none l'
  end.

Section ParseBlock.
(** The recursive call, for the pieces between top-level commas. *)
Variable parse_block : string -> outcome (option Node).

(** [if buff.strip(): children.append(parse_block(buff.strip()))]. *)
Definition flush (buff : string) (children : list (option Node))
    : outcome (list (option Node)) :=
  if truthy (strip buff) then
    ch <- parse_block (strip buff) ;; Done (children ++ [ch])
  else Done children.

(** One round of [for c in inside]. *)
Definition scan_char (st : Z * string * list (option Node)) (c : ascii)
    : outcome (Z * string * list (option Node)) :=
  let '(depth, buff, children) := st in
  if Ascii.eqb c "(" then Done ((depth + 1)%Z, add_char buff c, children)
  else if Ascii.eqb c ")" then Done ((depth - 1)%Z, add_char buff c, children)
  else if Ascii.eqb c "," && (depth =? 0)%Z then
    children <- flush buff children ;; Done (depth, EmptyString, children)
  else Done (depth, add_char buff c, children).

Definition parse_children (inside : string) : outcome (list Node) :=
  st <- foldM scan_char (list_ascii_of_string inside)
              (0%Z, EmptyString, []) ;;
  let '(_, buff, children) := st in
  children <- flush buff children ;;
  Done (drop_none children).
End ParseBlock.

Fixpoint parse_block (fuel : nat) (s : string) : outcome (option Node) :=
  match fuel with
  | O => OutOfFuel
  | S fuel' =>
      match re_match s with
      | None => Done None
      | Some (ntype, inside) =>
          let inside := strip inside in
          if mem ntype ["TASK"; "EVENT"; "NULL"] then
            let val := rstrip_by (Ascii.eqb ",") inside in
            Done (Some (mkNode ntype (if truthy val then Some val else None) []))
          else
            children <- parse_children (parse_block fuel') inside ;;
            Done (Some (mkNode ntype None children))
      end
  end.

(** Each nested call reads a strictly shorter text, so [1 + len(text)]
    levels are enough ([parse_pst_text_total]). *)
Definition parse_pst_text (text : string) : outcome (option Node) :=
  let text := strip text in
  parse_block (S (String.length text)) text.

(* ================================================================= *)
(** ** Renderer: class [BPMNBuilder] *)

(** A child of the [process] element: a flow node with its [incoming] and
    [outgoing] sub-elements, or a [sequenceFlow]. *)
Inductive ProcessChild : Type :=
| FlowNode (tag id name : string) (refs : list (string * string))
| SequenceFlow (id : string) (sourceRef targetRef : option string).

(** The numbers kept in [shapes_info] and the waypoints are floats. *)
Record Bounds : Type := mkBounds { bx : Q; by_ : Q; bw : Q; bh : Q }.

(** A child of the [BPMNPlane] element. *)
Inductive PlaneChild : Type :=
| BPMNShape (bpmnElement : string) (isMarkerVisible : bool) (x y w h : Z)
| BPMNEdge (id bpmnElement : string) (from to : Q * Q).

(** The mutable fields of a [BPMNBuilder].  [elements] maps an identifier
    to the position, among the children of [process], of the element object
    it refers to. *)
Record Builder : Type := mkBuilder {
  next_id : nat;
  process : list ProcessChild;
  plane : list PlaneChild;
  elements : dict nat;
  shapes_info : dict Bounds
}.

(** [BPMNBuilder.__init__]. *)
Definition new_builder : Builder := mkBuilder 1 [] [] [] [].

Definition new_id (prefix : string) (b : Builder) : string * Builder :=
  (prefix +++ "_" +++ str_of_nat (next_id b),
   mkBuilder (S (next_id b)) (process b) (plane b) (elements b)
             (shapes_info b)).

(** [ET.SubElement(self.process, tag, {"id": .., "name": ..})] followed by
    [self.elements[elem_id] = elem]. *)
Definition add_element (tag elem_id name : string) (b : Builder) : Builder :=
  mkBuilder (next_id b) (process b ++ [FlowNode tag elem_id name []]) (plane b)
            (dict_set (elements b) elem_id (List.length (process b)))
            (shapes_info b).

Definition add_shape (elem_id : string) (x y w h : Z) (is_marker : bool)
    (b : Builder) : Builder :=
  mkBuilder (next_id b) (process b)
            (plane b ++ [BPMNShape elem_id is_marker x y w h])
            (elements b)
            (dict_set (shapes_info b) elem_id
                      (mkBounds (inject_Z x) (inject_Z y)
                                (inject_Z w) (inject_Z h))).

(** [dict.get] with a key that may be [None]. *)
Definition get_opt {V} (d : dict V) (k : option string) : option V :=
  match k with
  | Some k => dict_get d k
  | None => None
  end.

(** Appends an [incoming] or [outgoing] sub-element to the element object
    at position [i] of [process]. *)
Fixpoint add_ref (i : nat) (which fid : string) (p : list ProcessChild)
    : list ProcessChild :=
  match p, i with
  | [], _ => []
  | FlowNode tag id name refs :: p', O =>
      FlowNode tag id name (refs ++ [(which, fid)]) :: p'
  | c :: p', O => c :: p'
  | c :: p', S i' => c :: add_ref i' which fid p'
  end.

Definition add_flow (src tgt : option string) (b : Builder)
    : string * Builder :=
  let (fid, b) := new_id "Flow" b in
  let p := process b ++ [SequenceFlow fid src tgt] in
  let p := match get_opt (elements b) src with
           | Some i => add_ref i "outgoing" fid p
           | None => p
           end in
  let p := match get_opt (elements b) tgt with
           | Some i => add_ref i "incoming" fid p
           | None => p
           end in
  let b := mkBuilder (next_id b) p (plane b) (elements b) (shapes_info b) in
  match get_opt (shapes_info b) src, get_opt (shapes_info b) tgt with
  | Some s, Some t =>
      let (edge_id, b) := new_id "Edge" b in
      let sx := Qplus (bx s) (bw s) in
      let sy := Qplus (by_ s) (Qdiv (bh s) (inject_Z 2)) in
      let tx := bx t in
      let ty := Qplus (by_ t) (Qdiv (bh t) (inject_Z 2)) in
      (fid,
       mkBuilder (next_id b) (process b)
                 (plane b ++ [BPMNEdge edge_id fid (sx, sy) (tx, ty)])
                 (elements b) (shapes_info b))
  | _, _ => (fid, b)
  end.

(** The tag chosen for an [EVENT] leaf named [name]. *)
Definition event_tag (name : string) : string :=
  if contains "start" (lower name) then "startEvent"
  else if contains "end" (lower name) then "endEvent"
  else "intermediateCatchEvent".

(** [a or b] on optional identifiers. *)
Definition or_opt (a b : option string) : option string :=
  if truthy_opt a then a else b.

Definition Placed : Type := (option string * option string * Z * Z)%type.

(** A leaf: a fresh identifier, one element and its shape. *)
Definition build_leaf (prefix tag name : string) (x y w h : Z) (b : Builder)
    : outcome (Placed * Builder) :=
  let (elem_id, b) := new_id prefix b in
  let b := add_element tag elem_id name b in
  let b := add_shape elem_id x y w h false b in
  Done ((Some elem_id, Some elem_id, x, y), b).

(** [BPMNBuilder.build]. *)
Fixpoint build (node : Node) (x y : Z) (b : Builder) {struct node}
    : outcome (Placed * Builder) :=
  if ntype node == "SEQ" then
    (fix each (cs : list Node) (first_entry prev_exit : option string)
         (x y : Z) (b : Builder) {struct cs} : outcome (Placed * Builder) :=
       match cs with
       | [] => Done ((or_opt first_entry prev_exit, prev_exit, x, y), b)
       | child :: cs' =>
           r <- build child x y b ;;
           let '((entry, exit, x, y), b) := r in
           let b := if truthy_opt prev_exit
                    then snd (add_flow prev_exit entry b) else b in
           let first_entry := match first_entry with
                              | None => entry
                              | Some _ => first_entry
                              end in
           each cs' first_entry exit (x + 200)%Z y b
       end) (children node) None None x y b
  else if ntype node == "TASK" then
    build_leaf "Task" "task" (or_else (value node) "Task") x y 100 80 b
  else if ntype node == "EVENT" then
    let name := or_else (value node) "Event" in
    build_leaf "Event" (event_tag name) name x y 36 36 b
  else if mem (ntype node) ["XOR"; "AND"] then
    let kind := if ntype node == "XOR" then "exclusiveGateway"
                else "parallelGateway" in
    let (split_id, b) := new_id "Split" b in
    let b := add_element kind split_id (ntype node) b in
    let b := add_shape split_id x y 50 50 true b in
    let branch_y :=
      (y - (Z.of_nat (List.length (children node)) - 1) * 100)%Z in
    r <- (fix each (cs : list Node) (branch_y : Z)
              (branch_exits : list (option string)) (b : Builder) {struct cs}
              : outcome (list (option string) * Builder) :=
            match cs with
            | [] => Done (branch_exits, b)
            | ch :: cs' =>
                r <- build ch (x + 250)%Z branch_y b ;;
                let '((entry, exit, _, _), b) := r in
                let b := snd (add_flow (Some split_id) entry b) in
                each cs' (branch_y + 200)%Z (branch_exits ++ [exit]) b
            end) (children node) branch_y [] b ;;
    let (branch_exits, b) := r in
    let (join_id, b) := new_id "Join" b in
    let b := add_element kind join_id "Join" b in
    let b := add_shape join_id (x + 500)%Z y 50 50 true b in
    let b := fold_left (fun b exit_id =>
                          snd (add_flow exit_id (Some join_id) b))
                       branch_exits b in
    Done ((Some split_id, Some join_id, (x + 500)%Z, y), b)
  else if ntype node == "LOOP" then
    match children node with
    | [] => Raised "IndexError"
    | c0 :: rest =>
        r0 <- build c0 x y b ;;
        let '((cond_entry, cond_exit, _, _), b) := r0 in
        match rest with
        | [] => Raised "IndexError"
        | c1 :: _ =>
            r1 <- build c1 (x + 200)%Z (y + 100)%Z b ;;
            let '((body_entry, body_exit, _, _), b) := r1 in
            let b := snd (add_flow cond_exit body_entry b) in
            let b := snd (add_flow body_exit cond_entry b) in
            Done ((cond_entry, cond_exit, (x + 400)%Z, (y + 200)%Z), b)
        end
    end
  else if ntype node == "NULL" then
    build_leaf "Null" "task" (or_else (value node) "None") x y 80 60 b
  else
    build_leaf "Unknown" "task" (or_else (value node) (ntype node)) x y 100 80 b.

(* ================================================================= *)
(** ** Specification-side notions and scenario inputs *)

(** Sets are iterated in insertion order: one admissible choice. *)
Definition insertion_order (l : list string) : list string := l.

(** An element without a [name] attribute. *)
Definition el (tag id : string) : Element := mkElement tag id None.

(** [sub] occurs in [s] when letter case is ignored: a direct comparison,
    character by character. *)
Fixpoint ci_prefix (sub s : string) : bool :=
  match sub, s with
  | EmptyString, _ => true
  | String a sub', String b s' =>
      Ascii.eqb (lower_char a) (lower_char b) && ci_prefix sub' s'
  | String _ _, EmptyString => false
  end.

Fixpoint ci_contains (sub s : string) : bool :=
  ci_prefix sub s
  || match s with
     | EmptyString => false
     | String _ s' => ci_contains sub s'
     end.

(** The element kind the renderer is to give an event leaf. *)
Definition event_kind_of_label (label : option string) : string :=
  match label with
  | None => "intermediateCatchEvent"
  | Some l =>
      if ci_contains "start" l then "startEvent"
      else if ci_contains "end" l then "endEvent"
      else "intermediateCatchEvent"
  end.

(** Some node of the tree carries the tag [k]. *)
Fixpoint has_ntype (k : string) (t : Node) {struct t} : bool :=
  (ntype t == k)
  || (fix any (cs : list Node) : bool :=
        match cs with
        | [] => false
        | c :: cs' => has_ntype k c || any cs'
        end) (children t).

(** The loop scenario: Start -> A -> Gateway(X) -> B -> A. *)
Definition loop_doc : Document :=
  mkDocument
    [el "startEvent" "Start"; el "task" "A"; el "exclusiveGateway" "G";
     el "task" "B"]
    [("Start", "A"); ("A", "G"); ("G", "B"); ("B", "A")].

(** The same with a second way out of the gateway, to an end event. *)
Definition loop_exit_doc : Document :=
  mkDocument
    [el "startEvent" "Start"; el "task" "A"; el "exclusiveGateway" "G";
     el "task" "B"; el "endEvent" "End"]
    [("Start", "A"); ("A", "G"); ("G", "B"); ("G", "End"); ("B", "A")].

(** A start event with two outgoing flows. *)
Definition event_split_doc : Document :=
  mkDocument
    [el "startEvent" "Start"; el "task" "A"; el "task" "B"]
    [("Start", "A"); ("Start", "B")].

(** Two start events: the first has an incoming flow, the second, whose
    [id] attribute is empty, has none. *)
Definition empty_id_doc : Document :=
  mkDocument
    [el "startEvent" "s1"; el "startEvent" ""; el "task" "A"]
    [("", "A"); ("A", "s1")].

(** Every node of the loaded graph. *)
Definition all_nodes (doc : Document) : list string :=
  keys (tasks doc) ++ keys (events doc) ++ keys (gateways doc).

(** The first element of [l] whose key is least. *)
Fixpoint first_min {A} (key : A -> Z) (l : list A) : option A :=
  match l with
  | [] => None
  | a :: l' =>
      match first_min key l' with
      | None => Some a
      | Some m => if (key a <=? key m)%Z then Some a else Some m
      end
  end.

(** The round-trip scenario:
    Start -> A -> Gateway(X) -> {B, C} -> Join(X) -> D -> End. *)
Definition round_trip_doc : Document :=
  mkDocument
    [el "startEvent" "Start"; el "task" "A"; el "exclusiveGateway" "G";
     el "task" "B"; el "task" "C"; el "exclusiveGateway" "J"; el "task" "D";
     el "endEvent" "End"]
    [("Start", "A"); ("A", "G"); ("G", "B"); ("G", "C"); ("B", "J");
     ("C", "J"); ("J", "D"); ("D", "End")].

Definition round_trip_tree : Node :=
  SEQ [EVENT "Start"; TASK "A";
       mkNode "XOR" (Some "G") [TASK "B"; TASK "C"];
       TASK "D"; EVENT "End"].

(** Counting what the renderer put into the [process] element. *)
Definition is_flow_node (tags : list string) (c : ProcessChild) : bool :=
  match c with
  | FlowNode tag _ _ _ => mem tag tags
  | SequenceFlow _ _ _ => false
  end.

Definition is_gateway_named (tag name : string) (c : ProcessChild) : bool :=
  match c with
  | FlowNode tag' _ name' _ => (tag' == tag) && (name' == name)
  | SequenceFlow _ _ _ => false
  end.

Definition is_sequence_flow (c : ProcessChild) : bool :=
  match c with
  | FlowNode _ _ _ _ => false
  | SequenceFlow _ _ _ => true
  end.

Definition count (p : ProcessChild -> bool) (b : Builder) : nat :=
  List.length (filter p (process b)).

Definition task_event_tags : list string :=
  ["task"; "startEvent"; "endEvent"; "intermediateCatchEvent"].

(** A graph on which the branch builder re-enters a split that is being
    expanded: S -> G1 -> {G2, x}, G2 -> {b, c} -> J2 -> G1. *)
Definition reentry_doc : Document :=
  mkDocument
    [el "startEvent" "S"; el "exclusiveGateway" "G1";
     el "exclusiveGateway" "G2"; el "task" "x"; el "task" "b"; el "task" "c";
     el "exclusiveGateway" "J2"]
    [("S", "G1"); ("G1", "G2"); ("G1", "x"); ("G2", "b"); ("G2", "c");
     ("b", "J2"); ("c", "J2"); ("J2", "G1")].

(** Only G1 is on the stack of splits under expansion. *)
Definition only_G1 (stk : list string) : Prop :=
  forall v, In v stk -> v = "G1".







(** The last character of a text. *)
Fixpoint last_char (s : string) : option ascii :=
  match s with
  | EmptyString => None
  | String c EmptyString => Some c
  | String _ s' => last_char s'
  end.

(** Labels that survive the notation: not empty, no parentheses, no white
    space at either end, no comma at the end. *)
Fixpoint no_paren (s : string) : bool :=
  match s with
  | EmptyString => true
  | String c s' =>
      negb (Ascii.eqb c "(") && negb (Ascii.eqb c ")") && no_paren s'
  end.



(** [repr] without the leading indentation. *)
Definition concat_s (l : list string) : string :=
  fold_right String.append "" l.

Definition body (level : nat) (t : Node) : string :=
  if mem (ntype t) ["TASK"; "EVENT"; "NULL"; "LOOPBACK"] then
    ntype t +++ "(" +++ fmt (value t) +++ ")"
  else
    ntype t +++ "(" +++ nl
    +++ concat_s (map (fun c => repr (S level) c +++ "," +++ nl) (children t))
    +++ indent_of level +++ ")".

Fixpoint all_chars (p : ascii -> bool) (s : string) : bool :=
  match s with
  | EmptyString => true
  | String c s' => p c && all_chars p s'
  end.

(** Structural induction on trees, with the children at hand. *)
Fixpoint Node_induction (P : Node -> Prop)
    (step : forall nt v cs, Forall P cs -> P (mkNode nt v cs)) (t : Node)
    {struct t} : P t :=
  match t with
  | mkNode nt v cs =>
      step nt v cs
        ((fix all (cs : list Node) : Forall P cs :=
            match cs with
            | [] => Forall_nil P
            | c :: cs' => Forall_cons c (Node_induction P step c) (all cs')
            end) cs)
  end.

(** The [for c in inside] loop of [parse_block] on a text. *)
Definition scan (pb : string -> outcome (option Node)) (s : string)
    (st : Z * string * list (option Node))
    : outcome (Z * string * list (option Node)) :=
  foldM (scan_char pb) (list_ascii_of_string s) st.

Definition not_space (c : ascii) : bool := negb (isspace c).


(* ----------------------------------------------------------------- *)
(** *** Reachability, distances and joins, as the specification means
        them *)

(** A sequence flow from [u] to [v]. *)
Definition edge (doc : Document) (u v : string) : Prop :=
  In (u, v) (d_flows doc).

(** A path of [n] flows. *)
Inductive walk (doc : Document) (u : string) : string -> nat -> Prop :=
| walk_here : walk doc u u 0
| walk_step (v w : string) (n : nat) :
    walk doc u v n -> edge doc v w -> walk doc u w (S n).

Definition reach (doc : Document) (u v : string) : Prop :=
  exists n, walk doc u v n.

Definition shortest (doc : Document) (u v : string) (d : nat) : Prop :=
  walk doc u v d /\ forall d', walk doc u v d' -> d <= d'.

(** [n] is a gateway element of the kind named [kind]. *)
Definition gateway_of_kind (doc : Document) (kind n : string) : Prop :=
  exists e,
    In e (d_elements doc) /\ e_id e = n
    /\ ((kind = "XOR" /\ e_tag e = "exclusiveGateway")
        \/ (kind = "AND" /\ e_tag e = "parallelGateway")).

(** A join candidate of a split: reached from every outgoing branch, a
    gateway of the kind asked for, with more than one incoming flow. *)
Definition join_candidate (doc : Document) (split_id kind n : string) : Prop :=
  (forall o, In o (succ doc split_id) -> reach doc o n)
  /\ gateway_of_kind doc kind n
  /\ 1 < indeg doc n.

(** [r] is the largest, over the outgoing branches of the split, of the
    shortest distances from the branch to [n]. *)
Definition rank (doc : Document) (split_id n : string) (r : Z) : Prop :=
  (forall o, In o (succ doc split_id) ->
             exists k, shortest doc o n k /\ (Z.of_nat k <= r)%Z)
  /\ (exists o k, In o (succ doc split_id) /\ shortest doc o n k
                  /\ r = Z.of_nat k).

(** The successors a round of [bfs_dist] adds: those not visited yet, once
    each, in order. *)
Fixpoint fresh (visited l : list string) : list string :=
  match l with
  | [] => []
  | v :: l' =>
      if mem v visited then fresh visited l'
      else v :: fresh (visited ++ [v]) l'
  end.

(** The distance recorded for [n], nought when there is none. *)
Definition dz (dist : dict Z) (n : string) : Z :=
  match dict_get dist n with
  | Some d => d
  | None => 0%Z
  end.

(** What holds between two rounds of the [while q] loop of [bfs_dist]. *)
Definition bfs_inv (doc : Document) (start : string)
    (q visited : list string) (dist : dict Z) : Prop :=
  dict_get dist start = Some 0%Z
  /\ NoDup visited
  /\ (forall n, In n visited <-> dict_get dist n <> None)
  /\ (forall n, In n visited -> exists k, dz dist n = Z.of_nat k
                                          /\ walk doc start n k)
  /\ incl q visited
  /\ (forall u v, In u visited -> ~ In u q -> In v (succ doc u) ->
                  In v visited /\ (dz dist v <= dz dist u + 1)%Z)
  /\ StronglySorted (fun a b => (dz dist a <= dz dist b)%Z) q
  /\ (forall h n, hd_error q = Some h -> In n visited ->
                  (dz dist n <= dz dist h + 1)%Z).

(** What [bfs_dist] returns for the branch that starts at [o]. *)
Definition bfs_result (doc : Document) (o : string)
    (r : list string * dict Z) : Prop :=
  (forall n, In n (fst r) <-> reach doc o n)
  /\ (forall n, In n (fst r) ->
                exists k, dict_get (snd r) n = Some (Z.of_nat k)
                          /\ shortest doc o n k).

(** What is left to do for [bfs_dist]: the queue, and the targets of flows
    not visited yet. *)
Definition bfs_potential (doc : Document) (q visited : list string) : nat :=
  List.length q
  + List.length (filter (fun t => negb (mem t visited)) (map snd (d_flows doc))).

(* ================================================================= *)
(** ** Further notions *)

(** The state in which [bfs_dist] stopped: the queue is empty, or its
    head is the node asked for. *)
Definition bfs_stopped (stop : option string) (q : list string) : Prop :=
  q = [] \/ exists s rest, stop = Some s /\ q = s :: rest.

(* ----------------------------------------------------------------- *)
(** *** The loops of [BPMNBuilder.build], named *)

Section BuildLoops.
(** The recursive call. *)
Variable rec : Node -> Z -> Z -> Builder -> outcome (Placed * Builder).

(** The [for child in node.children] loop of the SEQ case. *)
Fixpoint build_seq (cs : list Node) (first_entry prev_exit : option string)
    (x y : Z) (b : Builder) {struct cs} : outcome (Placed * Builder) :=
  match cs with
  | [] => Done ((or_opt first_entry prev_exit, prev_exit, x, y), b)
  | child :: cs' =>
      r <- rec child x y b ;;
      let '((entry, exit, x, y), b) := r in
      let b := if truthy_opt prev_exit
               then snd (add_flow prev_exit entry b) else b in
      let first_entry := match first_entry with
                         | None => entry
                         | Some _ => first_entry
                         end in
      build_seq cs' first_entry exit (x + 200)%Z y b
  end.

(** The [for ch in node.children] loop of the XOR/AND case, for the split
    [split_id] placed at [x]. *)
Variable split_id : string.
Variable x : Z.

Fixpoint build_branches (cs : list Node) (branch_y : Z)
    (branch_exits : list (option string)) (b : Builder) {struct cs}
    : outcome (list (option string) * Builder) :=
  match cs with
  | [] => Done (branch_exits, b)
  | ch :: cs' =>
      r <- rec ch (x + 250)%Z branch_y b ;;
      let '((entry, exit, _, _), b) := r in
      let b := snd (add_flow (Some split_id) entry b) in
      build_branches cs' (branch_y + 200)%Z (branch_exits ++ [exit]) b
  end.
End BuildLoops.

(** A fresh identifier, an element under it and the shape of the element:
    what [build] does for every leaf and for both gateways of a branch. *)
Definition alloc (prefix tag name : string) (x y w h : Z) (is_marker : bool)
    (b : Builder) : string * Builder :=
  let (elem_id, b) := new_id prefix b in
  (elem_id, add_shape elem_id x y w h is_marker (add_element tag elem_id name b)).

(** The [for exit_id in branch_exits] loop. *)
Definition join_flows (join_id : string) (branch_exits : list (option string))
    (b : Builder) : Builder :=
  fold_left (fun b exit_id => snd (add_flow exit_id (Some join_id) b))
            branch_exits b.

(** [build] in terms of the named loops. *)
Definition build_body (node : Node) (x y : Z) (b : Builder)
    : outcome (Placed * Builder) :=
  if ntype node == "SEQ" then
    build_seq build (children node) None None x y b
  else if ntype node == "TASK" then
    build_leaf "Task" "task" (or_else (value node) "Task") x y 100 80 b
  else if ntype node == "EVENT" then
    build_leaf "Event" (event_tag (or_else (value node) "Event"))
               (or_else (value node) "Event") x y 36 36 b
  else if mem (ntype node) ["XOR"; "AND"] then
    let kind := if ntype node == "XOR" then "exclusiveGateway"
                else "parallelGateway" in
    let (split_id, b) := alloc "Split" kind (ntype node) x y 50 50 true b in
    r <- build_branches build split_id x (children node)
           (y - (Z.of_nat (List.length (children node)) - 1) * 100)%Z [] b ;;
    let (branch_exits, b) := r in
    let (join_id, b) := alloc "Join" kind "Join" (x + 500)%Z y 50 50 true b in
    Done ((Some split_id, Some join_id, (x + 500)%Z, y),
          join_flows join_id branch_exits b)
  else if ntype node == "LOOP" then
    match children node with
    | [] => Raised "IndexError"
    | c0 :: rest =>
        r0 <- build c0 x y b ;;
        let '((cond_entry, cond_exit, _, _), b) := r0 in
        match rest with
        | [] => Raised "IndexError"
        | c1 :: _ =>
            r1 <- build c1 (x + 200)%Z (y + 100)%Z b ;;
            let '((body_entry, body_exit, _, _), b) := r1 in
            let b := snd (add_flow cond_exit body_entry b) in
            let b := snd (add_flow body_exit cond_entry b) in
            Done ((cond_entry, cond_exit, (x + 400)%Z, (y + 200)%Z), b)
        end
    end
  else if ntype node == "NULL" then
    build_leaf "Null" "task" (or_else (value node) "None") x y 80 60 b
  else
    build_leaf "Unknown" "task" (or_else (value node) (ntype node)) x y 100 80 b.




(* ----------------------------------------------------------------- *)
(** *** What a rendering contains *)

(** The flow nodes a rendering of [t] adds: one per leaf, two per
    branch. *)
Fixpoint rendered_nodes (t : Node) {struct t} : nat :=
  if ntype t == "SEQ" then
    (fix sum (cs : list Node) : nat :=
       match cs with
       | [] => 0
       | c :: cs' => rendered_nodes c + sum cs'
       end) (children t)
  else if ntype t == "TASK" then 1
  else if ntype t == "EVENT" then 1
  else if mem (ntype t) ["XOR"; "AND"] then
    2 + (fix sum (cs : list Node) : nat :=
           match cs with
           | [] => 0
           | c :: cs' => rendered_nodes c + sum cs'
           end) (children t)
  else if ntype t == "LOOP" then
    match children t with
    | c0 :: c1 :: _ => rendered_nodes c0 + rendered_nodes c1
    | _ => 0
    end
  else 1.

(** Whether the rendering of [t] has an element to leave it by: always,
    except for a sequence that is empty or ends in such a sequence. *)
Fixpoint has_exit (t : Node) {struct t} : bool :=
  if ntype t == "SEQ" then
    (fix last (cs : list Node) (prev : bool) : bool :=
       match cs with
       | [] => prev
       | c :: cs' => last cs' (has_exit c)
       end) (children t) false
  else if ntype t == "TASK" then true
  else if ntype t == "EVENT" then true
  else if mem (ntype t) ["XOR"; "AND"] then true
  else if ntype t == "LOOP" then
    match children t with
    | c0 :: _ => has_exit c0
    | [] => false
    end
  else true.

(** The sequence flows a rendering of [t] adds: one between two
    neighbours of a sequence when the first has an exit, two per child of a
    branch, two per loop. *)
Fixpoint rendered_flows (t : Node) {struct t} : nat :=
  if ntype t == "SEQ" then
    (fix go (cs : list Node) (prev : bool) : nat :=
       match cs with
       | [] => 0
       | c :: cs' =>
           rendered_flows c + (if prev then 1 else 0) + go cs' (has_exit c)
       end) (children t) false
  else if ntype t == "TASK" then 0
  else if ntype t == "EVENT" then 0
  else if mem (ntype t) ["XOR"; "AND"] then
    (fix sum (cs : list Node) : nat :=
       match cs with
       | [] => 0
       | c :: cs' => rendered_flows c + 2 + sum cs'
       end) (children t)
  else if ntype t == "LOOP" then
    match children t with
    | c0 :: c1 :: _ => rendered_flows c0 + rendered_flows c1 + 2
    | _ => 0
    end
  else 0.

(** The same loops, over lists. *)
Fixpoint sum_nodes (cs : list Node) : nat :=
  match cs with
  | [] => 0
  | c :: cs' => rendered_nodes c + sum_nodes cs'
  end.

Fixpoint last_exit (cs : list Node) (prev : bool) : bool :=
  match cs with
  | [] => prev
  | c :: cs' => last_exit cs' (has_exit c)
  end.

Fixpoint seq_flows (cs : list Node) (prev : bool) : nat :=
  match cs with
  | [] => 0
  | c :: cs' =>
      rendered_flows c + (if prev then 1 else 0) + seq_flows cs' (has_exit c)
  end.

Fixpoint branch_flows (cs : list Node) : nat :=
  match cs with
  | [] => 0
  | c :: cs' => rendered_flows c + 2 + branch_flows cs'
  end.

Definition is_node (c : ProcessChild) : bool :=
  match c with
  | FlowNode _ _ _ _ => true
  | SequenceFlow _ _ _ => false
  end.

(** What [build] on [t] adds to the process, and what it returns as
    exit. *)
Definition build_counts_for (t : Node) : Prop :=
  forall x y b entry exit x' y' b',
    build t x y b = Done ((entry, exit, x', y'), b') ->
    count is_node b' = count is_node b + rendered_nodes t
    /\ count is_sequence_flow b' = count is_sequence_flow b + rendered_flows t
    /\ truthy_opt exit = has_exit t.

(* ----------------------------------------------------------------- *)
(** *** Well-formed renderings *)

(** The [id] attribute of a child of [process]. *)
Definition pc_id (c : ProcessChild) : string :=
  match c with
  | FlowNode _ id _ _ => id
  | SequenceFlow id _ _ => id
  end.

(** The [id] attributes of the edges of the diagram, and the elements its
    shapes and its edges stand for, in document order. *)
Fixpoint edge_ids (pl : list PlaneChild) : list string :=
  match pl with
  | [] => []
  | BPMNShape _ _ _ _ _ _ :: pl' => edge_ids pl'
  | BPMNEdge id _ _ _ :: pl' => id :: edge_ids pl'
  end.

Fixpoint shape_refs (pl : list PlaneChild) : list string :=
  match pl with
  | [] => []
  | BPMNShape e _ _ _ _ _ :: pl' => e :: shape_refs pl'
  | BPMNEdge _ _ _ _ :: pl' => shape_refs pl'
  end.

Fixpoint edge_refs (pl : list PlaneChild) : list string :=
  match pl with
  | [] => []
  | BPMNShape _ _ _ _ _ _ :: pl' => edge_refs pl'
  | BPMNEdge _ e _ _ :: pl' => e :: edge_refs pl'
  end.

(** Every identifier [new_id] has given out that is the [id] of an
    element: flow nodes, sequence flows, edges. *)
Definition all_ids (b : Builder) : list string :=
  map pc_id (process b) ++ edge_ids (plane b).

(** A sequence flow with a source and a target. *)
Definition both_ends (c : ProcessChild) : bool :=
  match c with
  | SequenceFlow _ (Some _) (Some _) => true
  | _ => false
  end.

Definition not_underscore (c : ascii) : bool := negb (Ascii.eqb c "_").

(** An identifier made by [new_id] while the counter was below [N]. *)
Definition numbered_below (N : nat) (id : string) : Prop :=
  exists p n, id = p +++ "_" +++ str_of_nat n /\ n < N.

(** [o] is [None] or a key of [elements]. *)
Definition known (b : Builder) (o : option string) : Prop :=
  match o with
  | Some k => dict_mem (elements b) k = true
  | None => True
  end.

(** The flow node named by [o], when [o] names one, lists the flow [fid]
    among its [incoming] or [outgoing] sub-elements. *)
Definition has_ref (p : list ProcessChild) (o : option string)
    (which fid : string) : Prop :=
  match o with
  | Some k => exists tag name refs,
                In (FlowNode tag k name refs) p /\ In (which, fid) refs
  | None => True
  end.

(** The two [if ..._elem is not None] blocks of [add_flow]. *)
Definition refd (elems : dict nat) (o : option string) (which fid : string)
    (p : list ProcessChild) : list ProcessChild :=
  match get_opt elems o with
  | Some i => add_ref i which fid p
  | None => p
  end.

(** What holds of a builder between two calls of its methods. *)
Definition wf_builder (b : Builder) : Prop :=
  Forall (numbered_below (next_id b)) (all_ids b)
  /\ NoDup (all_ids b)
  /\ (forall k i, dict_get (elements b) k = Some i ->
        exists tag name refs,
          nth_error (process b) i = Some (FlowNode tag k name refs))
  /\ (forall k, dict_mem (shapes_info b) k = dict_mem (elements b) k)
  /\ (forall fid s t, In (SequenceFlow fid s t) (process b) ->
        known b s /\ known b t
        /\ has_ref (process b) s "outgoing" fid
        /\ has_ref (process b) t "incoming" fid)
  /\ shape_refs (plane b) = map pc_id (filter is_node (process b))
  /\ edge_refs (plane b) = map pc_id (filter both_ends (process b)).

(** [elements] has only grown. *)
Definition extends (b b' : Builder) : Prop :=
  forall k, dict_mem (elements b) k = true -> dict_mem (elements b') k = true.

Definition build_wf_for (t : Node) : Prop :=
  forall x y b entry exit x' y' b',
    wf_builder b ->
    build t x y b = Done ((entry, exit, x', y'), b') ->
    wf_builder b' /\ extends b b' /\ known b' entry /\ known b' exit.

(** Trees whose renderings leave no sequence flow dangling: every
    sequence [build] gets to has a child. *)
Fixpoint solid (t : Node) {struct t} : bool :=
  if ntype t == "SEQ" then
    match children t with
    | [] => false
    | _ => (fix all (cs : list Node) : bool :=
              match cs with
              | [] => true
              | c :: cs' => solid c && all cs'
              end) (children t)
    end
  else if mem (ntype t) ["XOR"; "AND"] then
    (fix all (cs : list Node) : bool :=
       match cs with
       | [] => true
       | c :: cs' => solid c && all cs'
       end) (children t)
  else if ntype t == "LOOP" then
    match children t with
    | c0 :: c1 :: _ => solid c0 && solid c1
    | _ => false
    end
  else true.

(** Every sequence flow of the process has a source and a target. *)
Definition all_both (b : Builder) : Prop :=
  forall c, In c (process b) -> is_node c = false -> both_ends c = true.

Definition build_solid_for (t : Node) : Prop :=
  forall x y b entry exit x' y' b',
    solid t = true -> all_both b ->
    build t x y b = Done ((entry, exit, x', y'), b') ->
    truthy_opt entry = true /\ truthy_opt exit = true /\ all_both b'.

(* ----------------------------------------------------------------- *)
(** *** The trees of the structuring engine *)

Definition has_value (t : Node) : bool :=
  match value t with
  | Some _ => true
  | None => false
  end.

(** The form of every node the engine builds: a Task, Event or Loopback
    leaf with a label; a Null leaf without one; a sequence with at least
    one child; a branch with a label and at least two children; a loop with
    exactly two children; nothing else. *)
Fixpoint shaped (t : Node) {struct t} : bool :=
  (if mem (ntype t) ["TASK"; "EVENT"; "LOOPBACK"] then
     has_value t && (List.length (children t) =? 0)
   else if ntype t == "NULL" then
     negb (has_value t) && (List.length (children t) =? 0)
   else if ntype t == "SEQ" then
     negb (has_value t) && (1 <=? List.length (children t))
   else if mem (ntype t) ["XOR"; "AND"] then
     has_value t && (2 <=? List.length (children t))
   else if ntype t == "LOOP" then
     negb (has_value t) && (List.length (children t) =? 2)
   else false)
  && (fix all (cs : list Node) : bool :=
        match cs with
        | [] => true
        | c :: cs' => shaped c && all cs'
        end) (children t).

(** A graph without splits: no task and no gateway has more than one
    outgoing flow. *)
Definition split_free (doc : Document) : bool :=
  forallb (fun n => List.length (succ doc n) <=? 1)
          (keys (tasks doc) ++ keys (gateways doc)).

(** A leaf as the backbone builder makes them. *)
Definition is_leaf (c : Node) : Prop :=
  exists l, c = TASK l \/ c = EVENT l \/ c = LOOPBACK l.

(** What is left to do for the backbone: the nodes not seen yet. *)
Definition backbone_potential (doc : Document) (seen : list string) : nat :=
  List.length (filter (fun n => negb (mem n seen)) (all_nodes doc)).

(* ----------------------------------------------------------------- *)
(** *** The trees of the parser *)

(** The label of a parsed leaf: none, or a text that is not empty, does
    not start with white space and does not end with a comma. *)
Definition parsed_label (v : option string) : bool :=
  match v with
  | None => true
  | Some l =>
      truthy l && (lstrip l == l) && (rstrip_by (Ascii.eqb ",") l == l)
  end.

(** The form of every node [parse_pst_text] builds: its kind is a word;
    a node of kind TASK, EVENT or NULL has a parsed label and no child; any
    other node has no label. *)
Fixpoint parsed (t : Node) {struct t} : bool :=
  truthy (ntype t) && all_chars isword (ntype t)
  && (if mem (ntype t) ["TASK"; "EVENT"; "NULL"]
      then parsed_label (value t) && (List.length (children t) =? 0)
      else negb (has_value t))
  && (fix all (cs : list Node) : bool :=
        match cs with
        | [] => true
        | c :: cs' => parsed c && all cs'
        end) (children t).

(** A property of the node, when there is one. *)
Definition if_some (P : Node -> Prop) (o : option Node) : Prop :=
  match o with
  | Some t => P t
  | None => True
  end.

(* ----------------------------------------------------------------- *)
(** *** Dictionaries of elements *)


(* ----------------------------------------------------------------- *)
(** *** The geometry of a rendering *)


(** The two waypoints of an edge: the middle of the right side of the
    source, the middle of the left side of the target. *)
Definition waypoints (s t : Bounds) : (Q * Q) * (Q * Q) :=
  ((Qplus (bx s) (bw s), Qplus (by_ s) (Qdiv (bh s) (inject_Z 2))),
   (bx t, Qplus (by_ t) (Qdiv (bh t) (inject_Z 2)))).


(** No shape of [pl] lies left of [x]. *)
Definition shapes_from (x : Z) (pl : list PlaneChild) : Prop :=
  Forall (fun c => match c with
                   | BPMNShape _ _ sx _ _ _ => (x <= sx)%Z
                   | BPMNEdge _ _ _ _ => True
                   end) pl.

Definition build_layout_for (t : Node) : Prop :=
  forall x y b entry exit x' y' b',
    build t x y b = Done ((entry, exit, x', y'), b') ->
    (x <= x')%Z /\ (y <= y')%Z
    /\ exists added, plane b' = plane b ++ added /\ shapes_from x added.

(* ================================================================= *)
(** * Properties *)

(** ** Strings *)

Lemma prefix_lower_ci (sub s : string) :
  lower sub = sub -> prefix sub (lower s) = ci_prefix sub s.
Proof.
  revert s; induction sub as [|a sub IH]; intros s Hl.
  - destruct s; reflexivity.
  - simpl in Hl. injection Hl as Ha Hs.
    destruct s as [|b s]; [reflexivity|].
    simpl. rewrite Ha, <- (IH s Hs).
    destruct (ascii_dec a (lower_char b)) as [->|Hne].
    + now rewrite Ascii.eqb_refl.
    + destruct (Ascii.eqb_spec a (lower_char b)); [contradiction|reflexivity].
Qed.

Lemma contains_lower_ci (sub s : string) :
  lower sub = sub -> contains sub (lower s) = ci_contains sub s.
Proof.
  intros Hl. induction s as [|b s IH].
  - simpl. now rewrite <- (prefix_lower_ci sub "" Hl).
  - change (contains sub (lower (String b s)))
      with (prefix sub (lower (String b s)) || contains sub (lower s)).
    rewrite (prefix_lower_ci sub (String b s) Hl), IH. reflexivity.
Qed.

Lemma ci_contains_empty (sub : string) :
  sub <> "" -> ci_contains sub "" = false.
Proof. destruct sub; [congruence|reflexivity]. Qed.

(** [ci_prefix] and [ci_contains] say what they are meant to: some piece
    of the text equals [sub] up to letter case. *)
Lemma ci_prefix_spec (sub s : string) :
  ci_prefix sub s = true
  <-> exists mid post, s = mid +++ post /\ lower mid = lower sub.
Proof.
  revert s. induction sub as [|a sub IH]; intros s.
  - split; [intros _; now exists "", s|reflexivity].
  - destruct s as [|b s]; simpl.
    + split; [discriminate|]. intros (mid & post & E & Hl).
      destruct mid; [discriminate Hl|discriminate E].
    + rewrite andb_true_iff, IH. split.
      * intros [Hc (mid & post & -> & Hl)].
        apply Ascii.eqb_eq in Hc. exists (String b mid), post.
        split; [reflexivity|]. simpl. now rewrite Hl, Hc.
      * intros (mid & post & E & Hl).
        destruct mid as [|c mid]; [discriminate Hl|].
        simpl in E, Hl. injection E as <- ->. injection Hl as Hc Hl.
        split; [rewrite Hc; apply Ascii.eqb_refl|]. now exists mid, post.
Qed.

Lemma ci_contains_spec (sub s : string) :
  ci_contains sub s = true
  <-> exists pre mid post, s = pre +++ mid +++ post /\ lower mid = lower sub.
Proof.
  induction s as [|b s IH].
  - simpl. rewrite orb_false_r, ci_prefix_spec. split.
    + intros (mid & post & E & Hl). now exists "", mid, post.
    + intros (pre & mid & post & E & Hl).
      destruct pre; [|discriminate E]. now exists mid, post.
  - cbn [ci_contains]. rewrite orb_true_iff, IH, ci_prefix_spec. split.
    + intros [(mid & post & E & Hl)|(pre & mid & post & -> & Hl)].
      * now exists "", mid, post.
      * now exists (String b pre), mid, post.
    + intros (pre & mid & post & E & Hl). destruct pre as [|c pre].
      * left. now exists mid, post.
      * right. simpl in E. injection E as _ ->. now exists pre, mid, post.
Qed.

(** ** Renderer *)

Lemma event_tag_spec (l : string) :
  event_tag l = event_kind_of_label (Some l).
Proof.
  unfold event_tag, event_kind_of_label.
  now rewrite !contains_lower_ci by reflexivity.
Qed.

(** C10. Rendering an Event leaf adds one element whose kind is chosen
    from the label: a start event when the label contains "start" in any
    letter case, else an end event when it contains "end", else an
    intermediate catch event; a leaf without a label is named "Event" and is
    an intermediate catch event. *)
Theorem build_event_kind (v : option string) (cs : list Node) (x y : Z)
    (b : Builder) :
  let name := match v with
              | Some l => if truthy l then l else "Event"
              | None => "Event"
              end in
  let elem_id := "Event_" +++ str_of_nat (next_id b) in
  exists b',
    build (mkNode "EVENT" v cs) x y b
      = Done ((Some elem_id, Some elem_id, x, y), b')
    /\ process b'
       = process b ++ [FlowNode (event_kind_of_label v) elem_id name []].
Proof.
  cbn zeta. eexists. split.
  - cbn -[event_tag str_of_nat String.append]. reflexivity.
  - cbn -[event_tag str_of_nat String.append event_kind_of_label].
    rewrite event_tag_spec.
    destruct v as [[|c l]|]; reflexivity.
Qed.

(** ** Outcomes *)

Lemma mapM_ext {A B} (f g : A -> outcome B) (l : list A) :
  (forall a, In a l -> f a = g a) -> mapM f l = mapM g l.
Proof.
  induction l as [|a l IH]; intros H; [reflexivity|].
  simpl. rewrite (H a (or_introl eq_refl)), IH; [reflexivity|].
  intros a' Ha'. apply H. now right.
Qed.

Lemma mem_In (x : string) (l : list string) : mem x l = true <-> In x l.
Proof.
  unfold mem. rewrite existsb_exists. split.
  - intros (y & Hy & Heq). apply String.eqb_eq in Heq. now subst.
  - intros H. exists x. split; [assumption|apply String.eqb_refl].
Qed.

Lemma mem_false (x : string) (l : list string) :
  mem x l = false <-> ~ In x l.
Proof.
  rewrite <- mem_In. destruct (mem x l); split; intros; congruence.
Qed.

(** ** Structuring engine: the shape of one backbone round *)

Section Backbone.
Variable set_iter : list string -> list string.
Variable doc : Document.

(** A branch that starts at its own bound is empty, whatever the fuel. *)
Lemma build_path_until_at_stop (fuel : nat) (j : string) (stk : list string) :
  build_path_until set_iter doc fuel j (Some j) stk = Done NULL.
Proof.
  unfold build_path_until.
  destruct fuel; simpl; now rewrite String.eqb_refl.
Qed.

Lemma backbone_task_split (fuel : nat) (current : string)
    (seen stack : list string) (sc : list Node) :
  mem current seen = false ->
  dict_mem (tasks doc) current = true ->
  1 < outdeg doc current ->
  build_pst_main_loop set_iter doc (S fuel) [current] seen stack sc
  = (join <- find_join set_iter doc current "XOR" ;;
     kids <- mapM (fun o => build_path_until set_iter doc fuel o join
                              (stack ++ [current]))
                  (succ doc current) ;;
     let sc' := sc ++ [TASK (elem_label (tasks doc) current);
                       mkNode "XOR" (Some (elem_label (tasks doc) current))
                              kids] in
     if truthy_opt join
     then build_pst_main_loop set_iter doc fuel
            (append_first [] (succ_opt doc join)) (seen ++ [current]) stack sc'
     else Done (normalise sc')).
Proof.
  intros Hseen Htask Hout. unfold outdeg in Hout.
  simpl. rewrite Hseen, Htask.
  destruct (Nat.eqb_spec (List.length (succ doc current)) 1) as [E|_]; [lia|].
  destruct (Nat.ltb_spec 1 (List.length (succ doc current))) as [_|E]; [|lia].
  destruct (find_join set_iter doc current "XOR") as [join| |]; simpl; trivial.
  rewrite (mapM_ext _ (fun o => build_path_until set_iter doc fuel o join
                                  (stack ++ [current]))).
  - destruct (mapM _ _) as [kids| |]; simpl; trivial.
    rewrite <- app_assoc. simpl.
    destruct (truthy_opt join); [reflexivity|].
    destruct fuel; reflexivity.
  - intros o _. destruct join as [j|]; simpl.
    + destruct (truthy j); simpl; [|reflexivity].
      destruct (String.eqb_spec o j) as [->|_]; [|reflexivity].
      now rewrite build_path_until_at_stop.
    + reflexivity.
Qed.

Lemma backbone_gateway_split (fuel : nat) (current : string)
    (seen stack : list string) (sc : list Node) :
  mem current seen = false ->
  dict_mem (tasks doc) current = false ->
  dict_mem (events doc) current = false ->
  dict_mem (gateways doc) current = true ->
  1 < outdeg doc current ->
  build_pst_main_loop set_iter doc (S fuel) [current] seen stack sc
  = (join <- find_join set_iter doc current (kind_of doc current) ;;
     kids <- mapM (fun o => build_path_until set_iter doc fuel o join
                              (stack ++ [current]))
                  (succ doc current) ;;
     let sc' := sc ++ [mkNode (kind_of doc current)
                              (Some (elem_label (gateways doc) current))
                              kids] in
     match join with
     | Some j =>
         build_pst_main_loop set_iter doc fuel (append_first [] (succ doc j))
           (seen ++ [current]) stack sc'
     | None => Done (normalise sc')
     end).
Proof.
  intros Hseen Htask Hev Hgw Hout.
  simpl. rewrite Hseen, Htask, Hev, Hgw.
  destruct (Nat.ltb_spec 1 (outdeg doc current)) as [_|E]; [|lia].
  destruct (find_join set_iter doc current (kind_of doc current))
    as [[j|]| |]; simpl; trivial.
  rewrite (mapM_ext _ (fun o => build_path_until set_iter doc fuel o (Some j)
                                  (stack ++ [current]))); [reflexivity|].
  intros o _. destruct (String.eqb_spec o j) as [->|_]; [|reflexivity].
  now rewrite build_path_until_at_stop.
Qed.

Lemma backbone_event (fuel : nat) (current : string)
    (q seen stack : list string) (sc : list Node) :
  mem current seen = false ->
  dict_mem (tasks doc) current = false ->
  dict_mem (events doc) current = true ->
  build_pst_main_loop set_iter doc (S fuel) (current :: q) seen stack sc
  = build_pst_main_loop set_iter doc fuel (append_first q (succ doc current))
      (seen ++ [current]) stack (sc ++ [EVENT (elem_label (events doc) current)]).
Proof.
  intros Hseen Htask Hev. simpl. now rewrite Hseen, Htask, Hev.
Qed.

End Backbone.

(** C9, as the code has it. On the backbone a task or a gateway with more
    than one successor is a split: the join is computed by [find_join], every
    outgoing branch is built by the branch builder bounded by that join, the
    results are wrapped as one Branch node, the first successor of the join
    is enqueued when a join was found and the backbone ends when none was.
    An event is never a split: it is emitted as a leaf and its first
    successor is enqueued, however many successors it has.  (The queue of
    [build_pst_main] holds one node whenever it is popped.) *)
Theorem backbone_split_by_kind (set_iter : list string -> list string)
    (doc : Document) (fuel : nat) (current : string)
    (seen stack : list string) (sc : list Node) :
  mem current seen = false ->
  1 < outdeg doc current ->
  (dict_mem (tasks doc) current = true ->
   build_pst_main_loop set_iter doc (S fuel) [current] seen stack sc
   = (join <- find_join set_iter doc current "XOR" ;;
      kids <- mapM (fun o => build_path_until set_iter doc fuel o join
                               (stack ++ [current]))
                   (succ doc current) ;;
      let sc' := sc ++ [TASK (elem_label (tasks doc) current);
                        mkNode "XOR" (Some (elem_label (tasks doc) current))
                               kids] in
      if truthy_opt join
      then build_pst_main_loop set_iter doc fuel
             (append_first [] (succ_opt doc join)) (seen ++ [current]) stack sc'
      else Done (normalise sc')))
  /\ (dict_mem (tasks doc) current = false ->
      dict_mem (events doc) current = false ->
      dict_mem (gateways doc) current = true ->
      build_pst_main_loop set_iter doc (S fuel) [current] seen stack sc
      = (join <- find_join set_iter doc current (kind_of doc current) ;;
         kids <- mapM (fun o => build_path_until set_iter doc fuel o join
                                  (stack ++ [current]))
                      (succ doc current) ;;
         let sc' := sc ++ [mkNode (kind_of doc current)
                                  (Some (elem_label (gateways doc) current))
                                  kids] in
         match join with
         | Some j =>
             build_pst_main_loop set_iter doc fuel
               (append_first [] (succ doc j)) (seen ++ [current]) stack sc'
         | None => Done (normalise sc')
         end))
  /\ (dict_mem (tasks doc) current = false ->
      dict_mem (events doc) current = true ->
      build_pst_main_loop set_iter doc (S fuel) [current] seen stack sc
      = build_pst_main_loop set_iter doc fuel
          (append_first [] (succ doc current)) (seen ++ [current]) stack
          (sc ++ [EVENT (elem_label (events doc) current)])).
Proof.
  intros Hseen Hout. repeat split; intros.
  - now apply backbone_task_split.
  - now apply backbone_gateway_split.
  - now apply backbone_event.
Qed.

Lemma backbone_split_by_kind_witness :
  (mem "Start" [] = false /\ 1 < outdeg event_split_doc "Start"
   /\ build_pst_main_loop insertion_order event_split_doc 3 ["Start"] [] [] []
      = Done (SEQ [EVENT "Start"; TASK "A"]))
  /\ (mem "G" ["Start"; "A"] = false /\ 1 < outdeg round_trip_doc "G"
      /\ build_pst_main_loop insertion_order round_trip_doc 4 ["G"]
           ["Start"; "A"] [] [EVENT "Start"; TASK "A"]
         = Done round_trip_tree).
Proof.
  split; (split; [reflexivity|]); (split; [vm_compute; lia|]).
  - destruct (backbone_split_by_kind insertion_order event_split_doc 2 "Start"
                [] [] [] eq_refl) as (_ & _ & H).
    + vm_compute; lia.
    + rewrite H by reflexivity. reflexivity.
  - destruct (backbone_split_by_kind insertion_order round_trip_doc 3 "G"
                ["Start"; "A"] [] [EVENT "Start"; TASK "A"] eq_refl)
      as (_ & H & _).
    + vm_compute; lia.
    + rewrite H by reflexivity. reflexivity.
Defined.

(** C9, as stated, fails on an event: the start event below has two
    successors and no Branch node is built for it. *)
Lemma event_split_not_branched :
  outdeg event_split_doc "Start" = 2
  /\ parse_bpmn insertion_order event_split_doc 2
     = Done (SEQ [EVENT "Start"; TASK "A"])
  /\ ~ (exists set_iter fuel t,
          parse_bpmn set_iter event_split_doc fuel = Done t
          /\ (has_ntype "XOR" t || has_ntype "AND" t) = true).
Proof.
  split; [reflexivity|]. split; [reflexivity|].
  intros (si & fuel & t & H & Hb).
  destruct fuel as [|[|[|fuel]]]; vm_compute in H; try discriminate;
    injection H as <-; discriminate Hb.
Qed.

(** ** The loop scenario *)

(** C4, as the code has it. Structuring Start -> A -> Gateway(X) -> B -> A
    ends, with four rounds of the backbone, in
    Sequence[Event(Start), Task(A), Task(B), Loopback(A)]: the gateway has a
    single successor and is passed through, and coming back to A closes the
    backbone with a Loopback sentinel. *)
Theorem loop_scenario_loopback (set_iter : list string -> list string)
    (fuel : nat) :
  parse_bpmn set_iter loop_doc (4 + fuel)
  = Done (SEQ [EVENT "Start"; TASK "A"; TASK "B"; LOOPBACK "A"]).
Proof. destruct fuel; reflexivity. Qed.

(** C4, as stated, fails: no iteration order and no amount of fuel makes
    the structured tree contain a Loop node. *)
Lemma loop_scenario_no_loop_node :
  ~ (exists set_iter fuel t,
       parse_bpmn set_iter loop_doc fuel = Done t
       /\ has_ntype "LOOP" t = true).
Proof.
  intros (si & fuel & t & H & Hl).
  destruct fuel as [|[|[|[|[|fuel]]]]]; vm_compute in H; try discriminate;
    injection H as <-; discriminate Hl.
Qed.

(** With a second way out of the gateway the back-edge is met inside a
    branch: the Loop node appears, its condition is Task(B), the part of
    the branch walked before the back-edge. *)
Example loop_exit_scenario :
  parse_bpmn insertion_order loop_exit_doc 5
  = Done (SEQ [EVENT "Start"; TASK "A";
               mkNode "XOR" (Some "G")
                 [LOOP [TASK "B"; SEQ [TASK "Body_of_G"]]; EVENT "End"]]).
Proof. reflexivity. Qed.

(** ** Start node *)

(** C3 at the failing input: a start event without predecessors exists
    (the one with the empty identifier), yet the start event chosen is
    one that has a predecessor. *)
Theorem start_id_empty_identifier (set_iter : list string -> list string) :
  In "" (keys (start_events empty_id_doc))
  /\ indeg empty_id_doc "" = 0
  /\ indeg empty_id_doc "s1" = 1
  /\ start_id set_iter empty_id_doc = Done "s1".
Proof. repeat split. now right; left. Qed.

(** ** The start node, identifiers being non-empty *)

Lemma keys_dict_set {V} (d : dict V) (k0 k : string) (v : V) :
  In k (keys (dict_set d k0 v)) <-> k = k0 \/ In k (keys d).
Proof.
  unfold keys. induction d as [|[k1 v1] d IH]; simpl.
  - split; [intros [<-|[]]; now left|intros [->|[]]; now left].
  - destruct (String.eqb_spec k0 k1) as [->|Hne]; simpl.
    + split; [intros [<-|H]; auto|intros [->|[<-|H]]; auto].
    + rewrite IH. split; [intros [<-|[->|H]]; auto|intros [->|[<-|H]]; auto].
Qed.

Lemma keys_dict_merge {V} (b : dict V) :
  forall (a : dict V) (k : string),
    In k (keys (dict_merge a b)) <-> In k (keys a) \/ In k (keys b).
Proof.
  unfold dict_merge. induction b as [|[k1 v1] b IH]; intros a k; simpl.
  - tauto.
  - rewrite IH, keys_dict_set. simpl. split.
    + intros [[->|H]|H]; auto.
    + intros [H|[<-|H]]; auto.
Qed.

Lemma set_union_In (b : list string) :
  forall (a : list string) (x : string),
    In x (set_union a b) <-> In x a \/ In x b.
Proof.
  unfold set_union. induction b as [|y b IH]; intros a x; simpl.
  - tauto.
  - rewrite IH. unfold set_add. destruct (mem y a) eqn:E.
    + apply mem_In in E. split; [tauto|]. intros [H|[<-|H]]; auto.
    + rewrite in_app_iff. simpl. tauto.
Qed.

Lemma first_key_Done (d : dict Element) (k : string) (e : Element)
    (d' : dict Element) :
  d = (k, e) :: d' -> first_key d = Done k.
Proof. now intros ->. Qed.

(** X15. Whenever no start event has the empty identifier, the start node
    follows the chain of preferences: a start event without predecessor,
    else a start event, else a node without predecessor, else a node; only
    a document without any node has no start node. *)
Lemma start_id_priority (set_iter : list string -> list string)
    (set_iter_perm : forall l, Permutation (set_iter l) l)
    (doc : Document) :
  (forall k, In k (keys (start_events doc)) -> k <> "") ->
  match start_id set_iter doc with
  | Done s =>
      In s (all_nodes doc)
      /\ ((exists k, In k (keys (start_events doc)) /\ indeg doc k = 0) ->
          In s (keys (start_events doc)) /\ indeg doc s = 0)
      /\ (start_events doc <> [] -> In s (keys (start_events doc)))
      /\ (start_events doc = [] ->
          (exists n, In n (all_nodes doc) /\ indeg doc n = 0) ->
          indeg doc s = 0)
  | Raised _ => all_nodes doc = []
  | OutOfFuel => False
  end.
Proof.
  intros Hids. unfold start_id, all_nodes.
  assert (Hev : forall k, In k (keys (start_events doc)) ->
                          In k (keys (events doc)))
    by (intros k Hk; unfold events; apply keys_dict_merge; now left).
  destruct (start_events doc) as [|[k0 e0] se] eqn:Es.
  - set (U := set_union (set_union (set_of (keys (tasks doc)))
                                   (keys (events doc)))
                        (keys (gateways doc))).
    assert (HU : forall n, In n (set_iter U)
                   <-> In n (keys (tasks doc) ++ keys (events doc)
                             ++ keys (gateways doc))).
    { intros n. rewrite !in_app_iff. unfold U, set_of.
      rewrite <- !set_union_In. simpl (In n []).
      split; intros H.
      - apply (Permutation_in _ (set_iter_perm _)) in H.
        rewrite !set_union_In in *. simpl in H. tauto.
      - apply (Permutation_in _ (Permutation_sym (set_iter_perm _))).
        rewrite !set_union_In in *. simpl. tauto. }
    destruct (filter _ (set_iter U)) as [|c cs] eqn:F.
    + assert (Hnone : forall n, In n (keys (tasks doc) ++ keys (events doc)
                                      ++ keys (gateways doc)) ->
                                indeg doc n <> 0).
      { intros n Hn H0. apply HU in Hn.
        assert (Hf : In n (filter (fun n => indeg doc n =? 0) (set_iter U)))
          by (apply filter_In; split; [assumption|now apply Nat.eqb_eq]).
        rewrite F in Hf. destruct Hf. }
      destruct (tasks doc) as [|[k e] tk] eqn:Et;
        [destruct (events doc) as [|[k e] ek] eqn:Ee;
         [destruct (gateways doc) as [|[k e] gk] eqn:Eg|]|]; simpl.
      * reflexivity.
      * split; [now left|]. split; [intros (k' & [] & _)|].
        split; [congruence|]. intros _ (n & Hn & H0). now elim (Hnone n Hn).
      * split; [now left|]. split; [intros (k' & [] & _)|].
        split; [congruence|]. intros _ (n & Hn & H0). now elim (Hnone n Hn).
      * split; [now left|]. split; [intros (k' & [] & _)|].
        split; [congruence|]. intros _ (n & Hn & H0). now elim (Hnone n Hn).
    + assert (Hc : In c (filter (fun n => indeg doc n =? 0) (set_iter U)))
        by (rewrite F; now left).
      apply filter_In in Hc. destruct Hc as [Hc H0].
      apply Nat.eqb_eq in H0. apply HU in Hc.
      split; [assumption|]. split; [intros (k' & [] & _)|].
      split; [congruence|]. intros _ _. assumption.
  - assert (Hk0 : In k0 (keys (start_events doc)))
      by (rewrite Es; now left).
    rewrite <- Es in Hids, Hev |- *.
    destruct (find _ (keys (start_events doc))) as [sid|] eqn:Ef.
    + apply find_some in Ef. destruct Ef as [Hin H0].
      apply Nat.eqb_eq in H0.
      assert (Ht : truthy sid = true).
      { unfold truthy. destruct (String.eqb_spec sid "") as [->|_];
          [now elim (Hids "" Hin)|reflexivity]. }
      rewrite Ht. split.
      { apply in_or_app. right. apply in_or_app. left. now apply Hev. }
      repeat split; auto.
    + rewrite (first_key_Done _ k0 e0 se Es). split.
      { apply in_or_app. right. apply in_or_app. left. now apply Hev. }
      split.
      { intros (k & Hk & H0). apply (find_none _ _ Ef) in Hk.
        apply Nat.eqb_neq in Hk. contradiction. }
      split; [auto|]. intros E'. rewrite Es in E'. discriminate.
Qed.

Lemma start_id_priority_witness :
  exists s,
    start_id insertion_order round_trip_doc = Done s
    /\ In s (keys (start_events round_trip_doc))
    /\ indeg round_trip_doc s = 0.
Proof.
  pose proof (start_id_priority insertion_order
                (fun l => Permutation_refl l) round_trip_doc) as P.
  destruct (start_id insertion_order round_trip_doc) as [s| |] eqn:E;
    [|vm_compute in E; discriminate E..].
  exists s. split; [reflexivity|].
  assert (Hids : forall k, In k (keys (start_events round_trip_doc)) ->
                           k <> "").
  { intros k [<-|[]]. discriminate. }
  destruct (P Hids) as (_ & H0 & _). apply H0.
  exists "Start". split; [now left|reflexivity].
Defined.

(** ** Sorting candidates *)

Section FirstMin.
Context {A : Type} (key : A -> Z).

Lemma hd_insert_by (x : A) (l : list A) :
  hd_error (insert_by key x l)
  = match hd_error l with
    | None => Some x
    | Some m => if (key x <=? key m)%Z then Some x else Some m
    end.
Proof. destruct l as [|y l]; simpl; [reflexivity|]. now destruct (_ <=? _)%Z. Qed.

(** The head of the stably sorted list is the first least element. *)
Lemma hd_sort_by (l : list A) : hd_error (sort_by key l) = first_min key l.
Proof.
  induction l as [|a l IH]; [reflexivity|].
  simpl. now rewrite hd_insert_by, IH.
Qed.

Lemma first_min_None (l : list A) : first_min key l = None <-> l = [].
Proof.
  destruct l as [|a l]; simpl; [tauto|].
  split; [|discriminate].
  destruct (first_min key l); [destruct (_ <=? _)%Z|]; discriminate.
Qed.

(** [first_min] splits the list at the first least element. *)
Lemma first_min_split (l : list A) (m : A) :
  first_min key l = Some m ->
  exists before after,
    l = before ++ m :: after
    /\ (forall x, In x before -> (key m < key x)%Z)
    /\ (forall x, In x after -> (key m <= key x)%Z).
Proof.
  revert m. induction l as [|a l IH]; intros m; [discriminate|].
  simpl. destruct (first_min key l) as [m'|] eqn:E.
  - destruct (IH m' eq_refl) as (bf & af & -> & Hb & Ha).
    destruct (Z.leb_spec (key a) (key m')) as [Hle|Hlt]; intros [= <-].
    + exists [], (bf ++ m' :: af). split; [reflexivity|].
      split; [intros x []|]. intros x Hx. apply in_app_or in Hx.
      destruct Hx as [Hx|[<-|Hx]]; [specialize (Hb x Hx)|
                                   |specialize (Ha x Hx)]; lia.
    + exists (a :: bf), af. split; [reflexivity|].
      split; [|assumption]. intros x [<-|Hx]; [lia|now apply Hb].
  - apply first_min_None in E. subst l. intros [= <-].
    exists [], []. repeat split; intros x [].
Qed.

Lemma first_min_least (l : list A) (m : A) :
  first_min key l = Some m ->
  In m l /\ forall x, In x l -> (key m <= key x)%Z.
Proof.
  intros H. destruct (first_min_split l m H) as (bf & af & -> & Hb & Ha).
  split; [apply in_elt|].
  intros x Hx. apply in_app_or in Hx.
  destruct Hx as [Hx|[<-|Hx]]; [specialize (Hb x Hx)| |specialize (Ha x Hx)];
    lia.
Qed.

(** A strictly least element is found whatever the order of the list. *)
Lemma first_min_unique (l : list A) (j : A) :
  In j l ->
  (forall x, In x l -> x = j \/ (key j < key x)%Z) ->
  first_min key l = Some j.
Proof.
  intros Hj Hmin. destruct (first_min key l) as [m|] eqn:E.
  - destruct (first_min_least l m E) as [Hm Hle].
    destruct (Hmin m Hm) as [->|Hlt]; [reflexivity|].
    specialize (Hle j Hj). lia.
  - apply first_min_None in E. subst l. destruct Hj.
Qed.
End FirstMin.

Lemma filter_Permutation {A} (p : A -> bool) (l l' : list A) :
  Permutation l l' -> Permutation (filter p l) (filter p l').
Proof.
  induction 1 as [|x l l' _ IH|x y l|l l' l'' _ IH1 _ IH2]; simpl.
  - constructor.
  - destruct (p x); [now constructor|assumption].
  - destruct (p x), (p y); try apply Permutation_refl. apply perm_swap.
  - now transitivity (filter p l').
Qed.

(** ** [find_join] in terms of its parts *)

Section FindJoin.
Variable set_iter : list string -> list string.
Hypothesis set_iter_perm : forall l, Permutation (set_iter l) l.
Variable doc : Document.

Lemma find_join_few (split_id kind : string) :
  List.length (succ doc split_id) <= 1 ->
  find_join set_iter doc split_id kind = Done None.
Proof.
  intros H. unfold find_join.
  now destruct (Nat.leb_spec (List.length (succ doc split_id)) 1); [|lia].
Qed.

Lemma find_join_unfold (split_id kind : string)
    (results : list (list string * dict Z)) :
  1 < List.length (succ doc split_id) ->
  mapM (fun o => bfs_dist doc o None) (succ doc split_id) = Done results ->
  find_join set_iter doc split_id kind
  = Done (first_min (score (map snd results))
            (filter (is_candidate doc kind)
               (set_iter (set_intersection (map fst results))))).
Proof.
  intros H Hres. unfold find_join.
  destruct (Nat.leb_spec (List.length (succ doc split_id)) 1); [lia|].
  rewrite Hres. simpl.
  destruct (filter _ _) as [|c cands] eqn:E; [reflexivity|].
  rewrite <- hd_sort_by.
  destruct (sort_by _ _) as [|c' rest] eqn:Es; [|reflexivity].
  exfalso. pose proof (hd_sort_by (score (map snd results)) (c :: cands)) as Hh.
  rewrite Es in Hh. simpl in Hh. symmetry in Hh.
  change (first_min (score (map snd results)) (c :: cands) = None) in Hh.
  apply first_min_None in Hh. discriminate.
Qed.

(** No candidate among the common nodes: no join. *)
Lemma find_join_no_candidate (split_id kind : string)
    (results : list (list string * dict Z)) :
  1 < List.length (succ doc split_id) ->
  mapM (fun o => bfs_dist doc o None) (succ doc split_id) = Done results ->
  filter (is_candidate doc kind) (set_intersection (map fst results)) = [] ->
  find_join set_iter doc split_id kind = Done None.
Proof.
  intros H Hres Hnil. rewrite (find_join_unfold _ _ results H Hres).
  f_equal. apply first_min_None.
  apply Permutation_nil. rewrite <- Hnil. symmetry.
  apply filter_Permutation, set_iter_perm.
Qed.

(** A candidate with the strictly least score is the join, in whatever
    order the common set is iterated. *)
Lemma find_join_strict_min (split_id kind j : string)
    (results : list (list string * dict Z)) :
  1 < List.length (succ doc split_id) ->
  mapM (fun o => bfs_dist doc o None) (succ doc split_id) = Done results ->
  let cands := filter (is_candidate doc kind)
                      (set_intersection (map fst results)) in
  In j cands ->
  forallb (fun x => (x == j)
                    || (score (map snd results) j
                        <? score (map snd results) x)%Z) cands = true ->
  find_join set_iter doc split_id kind = Done (Some j).
Proof.
  intros H Hres cands Hj Hmin. rewrite (find_join_unfold _ _ results H Hres).
  f_equal.
  assert (Hp : Permutation
                 (filter (is_candidate doc kind)
                    (set_iter (set_intersection (map fst results)))) cands)
    by apply filter_Permutation, set_iter_perm.
  apply first_min_unique.
  - eapply Permutation_in; [symmetry; exact Hp|exact Hj].
  - intros x Hx. apply (Permutation_in _ Hp) in Hx.
    rewrite forallb_forall in Hmin. specialize (Hmin x Hx).
    apply orb_true_iff in Hmin. destruct Hmin as [Heq|Hlt].
    + left. now apply String.eqb_eq.
    + right. now apply Z.ltb_lt.
Qed.

End FindJoin.

(** ** The round-trip scenario *)

Section RoundTrip.
Variable set_iter : list string -> list string.
Hypothesis set_iter_perm : forall l, Permutation (set_iter l) l.

Lemma round_trip_join :
  find_join set_iter round_trip_doc "G" "XOR" = Done (Some "J").
Proof.
  eapply find_join_strict_min; try assumption.
  - vm_compute; lia.
  - vm_compute; reflexivity.
  - vm_compute; auto.
  - vm_compute; reflexivity.
Qed.

Lemma round_trip_structure (fuel : nat) :
  parse_bpmn set_iter round_trip_doc (5 + fuel) = Done round_trip_tree.
Proof.
  unfold parse_bpmn.
  replace (start_id set_iter round_trip_doc) with (Done "Start")
    by reflexivity.
  cbn -[find_join].
  rewrite round_trip_join.
  cbn -[find_join].
  destruct fuel; reflexivity.
Qed.

End RoundTrip.

(** C1, as the code has it. Structuring the round-trip graph gives
    Sequence[Event(Start), Task(A), Branch(Exclusive, [Task(B), Task(C)]),
    Task(D), Event(End)] in whatever order sets are iterated, and rendering
    that tree gives six task or event elements (four tasks, a start event
    and an end event), one exclusive split gateway and one exclusive join
    gateway and no other gateway, and as many sequence flows as the graph
    has edges. *)
Theorem round_trip_scenario (set_iter : list string -> list string)
    (set_iter_perm : forall l, Permutation (set_iter l) l) (fuel : nat) :
  parse_bpmn set_iter round_trip_doc (5 + fuel) = Done round_trip_tree
  /\ exists r b,
       build round_trip_tree 100 100 new_builder = Done (r, b)
       /\ count (is_flow_node task_event_tags) b = 6
       /\ count (is_flow_node ["task"]) b = 4
       /\ count (is_flow_node ["startEvent"]) b = 1
       /\ count (is_flow_node ["endEvent"]) b = 1
       /\ count (is_gateway_named "exclusiveGateway" "XOR") b = 1
       /\ count (is_gateway_named "exclusiveGateway" "Join") b = 1
       /\ count (is_flow_node ["exclusiveGateway"; "parallelGateway"]) b = 2
       /\ count is_sequence_flow b = List.length (d_flows round_trip_doc).
Proof.
  split; [now apply round_trip_structure|].
  eexists. eexists. split; [vm_compute; reflexivity|].
  repeat split.
Qed.

Lemma round_trip_scenario_witness :
  (forall l, Permutation (insertion_order l) l)
  /\ parse_bpmn insertion_order round_trip_doc 5 = Done round_trip_tree
  /\ exists r b,
       build round_trip_tree 100 100 new_builder = Done (r, b)
       /\ count (is_flow_node task_event_tags) b = 6
       /\ count (is_flow_node ["task"]) b = 4
       /\ count (is_flow_node ["startEvent"]) b = 1
       /\ count (is_flow_node ["endEvent"]) b = 1
       /\ count (is_gateway_named "exclusiveGateway" "XOR") b = 1
       /\ count (is_gateway_named "exclusiveGateway" "Join") b = 1
       /\ count (is_flow_node ["exclusiveGateway"; "parallelGateway"]) b = 2
       /\ count is_sequence_flow b = List.length (d_flows round_trip_doc).
Proof.
  split; [intros l; apply Permutation_refl|].
  exact (round_trip_scenario insertion_order (fun l => Permutation_refl l) 0).
Defined.

(** C1, as stated, fails in its count of leaves: the rendering of the
    scenario's tree does not have five task or event elements. *)
Lemma round_trip_not_five_elements :
  ~ (exists r b,
       build round_trip_tree 100 100 new_builder = Done (r, b)
       /\ count (is_flow_node task_event_tags) b = 5).
Proof.
  intros (r & b & H & H5). vm_compute in H. injection H as _ <-.
  discriminate H5.
Qed.

(** ** A split re-entered through the successor of a join *)

Lemma bpu_exit_stop set_iter doc fuel nid j stk seen sc :
  build_path_until_loop set_iter doc fuel nid (Some j) stk (Some j) seen sc
  = Done (normalise sc).
Proof. destruct fuel; simpl; now rewrite String.eqb_refl. Qed.

Lemma bpu_exit_none set_iter doc fuel nid stop stk seen sc :
  build_path_until_loop set_iter doc fuel nid stop stk None seen sc
  = Done (normalise sc).
Proof. destruct fuel; reflexivity. Qed.

Lemma bpu_exit_seen set_iter doc fuel nid stop stk cur seen sc :
  mem cur seen = true ->
  build_path_until_loop set_iter doc fuel nid stop stk (Some cur) seen sc
  = Done (normalise sc).
Proof. intros H. destruct fuel; simpl; now rewrite H, orb_true_r. Qed.

Lemma no_hit (doc : Document) (u : string) (stk : list string) :
  (forall v, In v (succ doc u) -> ~ In v stk) ->
  edge_hits_active_split doc u stk = None.
Proof.
  intros H. unfold edge_hits_active_split.
  destruct stk as [|s stk]; [reflexivity|].
  destruct (find _ _) as [v|] eqn:E; [|reflexivity].
  apply find_some in E. destruct E as [Hin Hm].
  apply mem_In in Hm. now elim (H v Hin).
Qed.

Section Reentry.
Variable set_iter : list string -> list string.
Hypothesis set_iter_perm : forall l, Permutation (set_iter l) l.

Lemma reentry_join_G2 :
  find_join set_iter reentry_doc "G2" "XOR" = Done (Some "J2").
Proof.
  eapply find_join_strict_min; try assumption.
  - vm_compute; lia.
  - vm_compute; reflexivity.
  - vm_compute; auto.
  - vm_compute; reflexivity.
Qed.

Lemma reentry_join_G1 :
  find_join set_iter reentry_doc "G1" "XOR" = Done None.
Proof.
  eapply find_join_no_candidate; try assumption.
  - vm_compute; lia.
  - vm_compute; reflexivity.
  - vm_compute; reflexivity.
Qed.

Ltac off_stack :=
  let v := fresh "v" in let Hv := fresh "Hv" in let Hs := fresh "Hs" in
  intros v Hv Hs; vm_compute in Hv;
  repeat (destruct Hv as [Hv|Hv]; [subst v|]); try contradiction;
  try (apply in_app_or in Hs; destruct Hs as [Hs|[Hs|[]]]);
  try discriminate Hs;
  match goal with
  | H : only_G1 ?stk, Hs : In _ ?stk |- _ => apply H in Hs; discriminate Hs
  end.

(** The branch from G2 never returns: after the join J2 the walk steps on
    G1, which is not recognised as active, expands it again, and is back at
    G2 one call deeper. *)
Lemma reentry_branch_diverges (fuel : nat) :
  forall stk, only_G1 stk ->
    build_path_until_loop set_iter reentry_doc fuel "G2" None stk
      (Some "G2") [] [] = OutOfFuel.
Proof.
  induction fuel as [fuel IH] using lt_wf_ind. intros stk Hstk.
  destruct fuel as [|f]; [reflexivity|].
  cbn -[find_join edge_hits_active_split].
  rewrite (no_hit reentry_doc "G2" stk) by off_stack.
  cbn -[find_join edge_hits_active_split].
  rewrite reentry_join_G2.
  cbn -[find_join edge_hits_active_split].
  destruct f as [|f]; [reflexivity|].
  cbn -[find_join edge_hits_active_split].
  rewrite (no_hit reentry_doc "b" (stk ++ ["G2"])) by off_stack.
  rewrite (no_hit reentry_doc "c" (stk ++ ["G2"])) by off_stack.
  cbn -[find_join edge_hits_active_split].
  rewrite !bpu_exit_stop.
  cbn -[find_join edge_hits_active_split].
  rewrite (no_hit reentry_doc "G1" stk) by off_stack.
  cbn -[find_join edge_hits_active_split].
  rewrite reentry_join_G1.
  cbn -[find_join edge_hits_active_split].
  fold (build_path_until_loop set_iter reentry_doc).
  rewrite (IH f) ; [reflexivity|lia|].
  intros v Hv. apply in_app_or in Hv. destruct Hv as [Hv|[<-|[]]]; auto.
Qed.

Lemma reentry_diverges (fuel : nat) :
  parse_bpmn set_iter reentry_doc fuel = OutOfFuel.
Proof.
  unfold parse_bpmn.
  replace (start_id set_iter reentry_doc) with (Done "S") by reflexivity.
  destruct fuel as [|[|f]]; try reflexivity.
  cbn -[find_join build_path_until].
  rewrite reentry_join_G1.
  cbn -[find_join build_path_until].
  unfold build_path_until at 1.
  rewrite reentry_branch_diverges; [reflexivity|].
  intros v [<-|[]]. reflexivity.
Qed.

End Reentry.

(** C7 at the failing input: on the re-entry graph the structuring never
    returns, whatever the amount of fuel and the iteration order of sets:
    the nesting of [build_path_until] calls grows without bound. *)
Theorem structuring_diverges_on_reentry
    (set_iter : list string -> list string)
    (set_iter_perm : forall l, Permutation (set_iter l) l) (fuel : nat) :
  parse_bpmn set_iter reentry_doc fuel = OutOfFuel.
Proof. now apply reentry_diverges. Qed.

Lemma structuring_diverges_on_reentry_witness :
  (forall l, Permutation (insertion_order l) l)
  /\ parse_bpmn insertion_order reentry_doc 1000 = OutOfFuel.
Proof.
  split; [intros l; apply Permutation_refl|].
  exact (structuring_diverges_on_reentry insertion_order
           (fun l => Permutation_refl l) 1000).
Defined.

(** ** Collapsed sequences *)


Lemma mapM_Forall {A B} (P : B -> Prop) (f : A -> outcome B) (l : list A)
    (ys : list B) :
  (forall a y, In a l -> f a = Done y -> P y) ->
  mapM f l = Done ys -> Forall P ys.
Proof.
  revert ys. induction l as [|a l IH]; intros ys Hf H; simpl in H.
  - injection H as <-. constructor.
  - destruct (f a) as [y| |] eqn:Ea; try discriminate. simpl in H.
    destruct (mapM f l) as [ys'| |] eqn:El; try discriminate. simpl in H.
    injection H as <-. constructor.
    + apply (Hf a); [now left|assumption].
    + apply IH; [|reflexivity]. intros a' y' Ha'. apply Hf. now right.
Qed.







Section Collapse.
Variable set_iter : list string -> list string.
Variable doc : Document.





End Collapse.




(** ** Texts *)

Lemma sapp_assoc (a b c : string) : (a +++ b) +++ c = a +++ b +++ c.
Proof. induction a as [|x a IH]; simpl; [reflexivity|now rewrite IH]. Qed.

Lemma sapp_nil_r (a : string) : a +++ "" = a.
Proof. induction a as [|x a IH]; simpl; [reflexivity|now rewrite IH]. Qed.

Lemma slen_app (a b : string) :
  String.length (a +++ b) = String.length a + String.length b.
Proof. induction a as [|x a IH]; simpl; [reflexivity|now rewrite IH]. Qed.


Lemma chars_length (a : string) :
  List.length (list_ascii_of_string a) = String.length a.
Proof. induction a as [|x a IH]; simpl; [reflexivity|now rewrite IH]. Qed.

Lemma last_char_app (a : string) (c : ascii) :
  last_char (a +++ String c "") = Some c.
Proof.
  induction a as [|x a IH]; [reflexivity|].
  simpl. destruct (a +++ String c "") eqn:E; [|exact IH].
  destruct a; discriminate.
Qed.

Lemma lstrip_length (s : string) : String.length (lstrip s) <= String.length s.
Proof.
  induction s as [|c s IH]; simpl; [lia|].
  destruct (isspace c); simpl; lia.
Qed.

Lemma rstrip_by_length (p : ascii -> bool) (s : string) :
  String.length (rstrip_by p s) <= String.length s.
Proof.
  induction s as [|c s IH]; simpl; [lia|].
  destruct (rstrip_by p s); [destruct (p c)|]; simpl in *; lia.
Qed.

Lemma strip_length (s : string) : String.length (strip s) <= String.length s.
Proof.
  unfold strip. etransitivity; [apply rstrip_by_length|apply lstrip_length].
Qed.

(** ** The pattern of [parse_block] *)

Lemma span_word_length (s w r : string) :
  span_word s = (w, r) -> String.length s = String.length w + String.length r.
Proof.
  revert w r. induction s as [|c s IH]; intros w r H; simpl in H.
  - now injection H as <- <-.
  - destruct (isword c).
    + destruct (span_word s) as [w' r'] eqn:E. injection H as <- <-.
      simpl. now rewrite (IH w' r' eq_refl).
    + now injection H as <- <-.
Qed.

Lemma upto_last_rparen_length (s r : string) :
  upto_last_rparen s = Some r -> String.length r < String.length s.
Proof.
  revert r. induction s as [|c s IH]; intros r H; simpl in H; [discriminate|].
  destruct (upto_last_rparen s) as [r'|].
  - injection H as <-. specialize (IH r' eq_refl). simpl. lia.
  - destruct (Ascii.eqb c ")"); [|discriminate]. injection H as <-. simpl. lia.
Qed.

Lemma re_match_length (s w inside : string) :
  re_match s = Some (w, inside) ->
  String.length inside + 2 < String.length s.
Proof.
  unfold re_match. destruct (span_word s) as [w' r] eqn:E.
  apply span_word_length in E.
  destruct w' as [|c w']; [discriminate|].
  destruct r as [|c' r]; [discriminate|].
  destruct (Ascii.eqb c' "("); [|discriminate].
  destruct (upto_last_rparen r) as [ins|] eqn:Er; [|discriminate].
  intros [= <- <-]. apply upto_last_rparen_length in Er.
  simpl in E. lia.
Qed.

(** ** [parse_pst_text] always returns *)

Section Scan.
Variable pb : string -> outcome (option Node).
Variable n : nat.
Hypothesis pb_total :
  forall s, String.length s <= n -> exists r, pb s = Done r.

Lemma flush_total (buff : string) (children : list (option Node)) :
  String.length buff <= n -> exists cs, flush pb buff children = Done cs.
Proof.
  intros H. unfold flush. destruct (truthy (strip buff)); [|eauto].
  destruct (pb_total (strip buff)) as [r ->]; [|simpl; eauto].
  pose proof (strip_length buff). lia.
Qed.

Lemma scan_total (l : list ascii) :
  forall depth buff children,
    String.length buff + List.length l <= n ->
    exists depth' buff' children',
      foldM (scan_char pb) l (depth, buff, children)
      = Done (depth', buff', children')
      /\ String.length buff' <= n.
Proof.
  induction l as [|c l IH]; intros depth buff children H; simpl in *.
  - do 3 eexists. split; [reflexivity|lia].
  - assert (Hadd : String.length (add_char buff c) + List.length l <= n).
    { unfold add_char. rewrite slen_app. simpl. lia. }
    destruct (Ascii.eqb c "("); [simpl; now apply IH|].
    destruct (Ascii.eqb c ")"); [simpl; now apply IH|].
    destruct (Ascii.eqb c "," && (depth =? 0)%Z); [|simpl; now apply IH].
    destruct (flush_total buff children) as [cs ->]; [lia|].
    simpl. apply IH. simpl. lia.
Qed.

Lemma parse_children_total (inside : string) :
  String.length inside <= n ->
  exists cs, parse_children pb inside = Done cs.
Proof.
  intros H. unfold parse_children.
  destruct (scan_total (list_ascii_of_string inside) 0%Z "" [])
    as (d & b & cs & -> & Hb).
  - simpl. now rewrite chars_length.
  - simpl. destruct (flush_total b cs Hb) as [cs' ->]. simpl. eauto.
Qed.
End Scan.

Lemma parse_block_total (fuel : nat) :
  forall s, String.length s < fuel -> exists r, parse_block fuel s = Done r.
Proof.
  induction fuel as [|fuel IH]; intros s H; [lia|].
  simpl. destruct (re_match s) as [[nt inside]|] eqn:E; [|eauto].
  apply re_match_length in E.
  match goal with |- context [if ?c then _ else _] => destruct c end;
    [eauto|].
  destruct (parse_children_total (parse_block fuel)
              (String.length (strip inside))) with (inside := strip inside)
    as [cs ->]; [|lia|simpl; eauto].
  intros s' Hs'. apply IH. pose proof (strip_length inside). lia.
Qed.

Lemma parse_pst_text_total (text : string) :
  exists r, parse_pst_text text = Done r.
Proof. unfold parse_pst_text. apply parse_block_total. lia. Qed.




(** ** Stripping *)

Lemma lstrip_spaces (ws x : string) :
  all_chars isspace ws = true -> lstrip (ws +++ x) = lstrip x.
Proof.
  induction ws as [|c ws IH]; simpl; [reflexivity|].
  intros H. apply andb_true_iff in H. destruct H as [-> H]. now apply IH.
Qed.

Lemma rstrip_by_keep (p : ascii -> bool) (s : string) (c : ascii) :
  last_char s = Some c -> p c = false -> rstrip_by p s = s.
Proof.
  induction s as [|x s IH]; [discriminate|].
  intros Hl Hp. simpl. destruct s as [|y s].
  - injection Hl as ->. simpl. now rewrite Hp.
  - rewrite (IH Hl Hp). reflexivity.
Qed.

Lemma rstrip_by_all (p : ascii -> bool) (ws : string) :
  all_chars p ws = true -> rstrip_by p ws = "".
Proof.
  induction ws as [|c ws IH]; simpl; [reflexivity|].
  intros H. apply andb_true_iff in H. destruct H as [-> H]. now rewrite IH.
Qed.

Lemma rstrip_by_spaces (p : ascii -> bool) (x ws : string) (c : ascii) :
  last_char x = Some c -> p c = false -> all_chars p ws = true ->
  rstrip_by p (x +++ ws) = x.
Proof.
  intros Hl Hp Hws. induction x as [|a x IH]; [discriminate|].
  simpl. destruct x as [|b x].
  - simpl. rewrite (rstrip_by_all p ws Hws). injection Hl as ->.
    now rewrite Hp.
  - rewrite (IH Hl). reflexivity.
Qed.

Lemma last_char_cons (a : ascii) (s : string) :
  s <> "" -> last_char (String a s) = last_char s.
Proof. destruct s; [congruence|reflexivity]. Qed.

Lemma last_char_sapp (a b : string) :
  b <> "" -> last_char (a +++ b) = last_char b.
Proof.
  intros Hb. induction a as [|x a IH]; [reflexivity|].
  simpl (_ +++ _). rewrite last_char_cons; [exact IH|].
  destruct a; simpl; [assumption|discriminate].
Qed.


(** A text that starts and ends with something else than white space
    keeps its shape when padded with white space and stripped. *)
Lemma strip_padded (ws x ws' : string) (a c : ascii) (x' : string) :
  all_chars isspace ws = true -> all_chars isspace ws' = true ->
  x = String a x' -> isspace a = false ->
  last_char x = Some c -> isspace c = false ->
  strip (ws +++ x +++ ws') = x.
Proof.
  intros Hws Hws' Hx Ha Hl Hc. unfold strip.
  rewrite (lstrip_spaces ws _ Hws).
  assert (E : lstrip (x +++ ws') = x +++ ws').
  { rewrite Hx. simpl. now rewrite Ha. }
  rewrite E. now apply rstrip_by_spaces with (c := c).
Qed.

(** ** Scanning *)


Section ScanFacts.
Variable pb : string -> outcome (option Node).




Lemma scan_open (d : Z) (b : string) (ch : list (option Node)) :
  scan pb "(" (d, b, ch) = Done ((d + 1)%Z, b +++ "(", ch).
Proof. reflexivity. Qed.


End ScanFacts.

(** ** The shape of [repr] *)

Lemma repr_body (level : nat) (t : Node) :
  repr level t = indent_of level +++ body level t.
Proof.
  destruct t as [nt v cs]. unfold body. cbn [repr ntype value children].
  destruct (mem nt _); [reflexivity|].
  assert (E : forall cs s,
             (fix each (cs : list Node) (s : string) {struct cs} : string :=
                match cs with
                | [] => s
                | c :: cs' => each cs' (s +++ repr (S level) c +++ "," +++ nl)
                end) cs s
             = s +++ concat_s (map (fun c => repr (S level) c +++ "," +++ nl)
                                   cs)).
  { clear. induction cs as [|c cs IH]; intros s; simpl.
    - now rewrite sapp_nil_r.
    - now rewrite IH, sapp_assoc. }
  rewrite E, !sapp_assoc. reflexivity.
Qed.








Section ScanBody.
Variable pb : string -> outcome (option Node).



End ScanBody.

(** ** Matching the text of a node *)

Lemma span_word_kind (nt x : string) :
  all_chars isword nt = true ->
  span_word (nt +++ String "(" x) = (nt, String "(" x).
Proof.
  induction nt as [|a nt IH]; [reflexivity|].
  simpl. intros H. apply andb_true_iff in H. destruct H as [-> H].
  now rewrite (IH H).
Qed.

Lemma upto_last_rparen_end (x : string) : upto_last_rparen (x +++ ")") = Some x.
Proof. induction x as [|a x IH]; [reflexivity|]. simpl. now rewrite IH. Qed.

Lemma re_match_node (nt inside : string) (a : ascii) (nt' : string) :
  all_chars isword nt = true -> nt = String a nt' ->
  re_match (nt +++ "(" +++ inside +++ ")") = Some (nt, inside).
Proof.
  intros Hw Hnt. unfold re_match.
  change (nt +++ "(" +++ inside +++ ")")
    with (nt +++ String "(" (inside +++ ")")).
  rewrite (span_word_kind nt _ Hw), Hnt.
  cbv iota beta. simpl (Ascii.eqb _ _). cbv iota.
  now rewrite upto_last_rparen_end.
Qed.






(** ** Children between commas *)



Section Pieces.
Variable pb : string -> outcome (option Node).




End Pieces.








(** ** Dictionaries and fresh successors *)

Lemma dict_get_set {V} (d : dict V) (k k' : string) (v : V) :
  dict_get (dict_set d k v) k'
  = if k' == k then Some v else dict_get d k'.
Proof.
  induction d as [|[k0 v0] d IH]; simpl.
  - reflexivity.
  - destruct (String.eqb_spec k k0) as [->|Hne]; simpl.
    + destruct (k' == k0); reflexivity.
    + rewrite IH. destruct (String.eqb_spec k' k0) as [->|_]; [|reflexivity].
      destruct (String.eqb_spec k0 k) as [->|_]; [contradiction|reflexivity].
Qed.

Lemma In_succ (doc : Document) (u v : string) :
  In v (succ doc u) <-> edge doc u v.
Proof.
  unfold succ, edge, flows. rewrite in_map_iff. split.
  - intros ([u' v'] & <- & H). apply filter_In in H. destruct H as [H E].
    simpl in E. apply String.eqb_eq in E. now subst.
  - intros H. exists (u, v). split; [reflexivity|].
    apply filter_In. split; [assumption|apply String.eqb_refl].
Qed.

Lemma fresh_In (l : list string) :
  forall visited v, In v (fresh visited l) <-> In v l /\ ~ In v visited.
Proof.
  induction l as [|a l IH]; intros visited v; simpl; [tauto|].
  destruct (mem a visited) eqn:E.
  - apply mem_In in E. rewrite IH. split; [tauto|].
    intros [[->|H] Hn]; [contradiction|tauto].
  - apply mem_false in E. simpl. rewrite IH, in_app_iff. simpl.
    split.
    + intros [->|(H & Hn)]; [tauto|]. split; [tauto|]. tauto.
    + intros [[->|H] Hn]; [tauto|].
      destruct (string_dec a v) as [->|Hne]; [tauto|]. right. tauto.
Qed.

Lemma fresh_NoDup (l : list string) : forall visited, NoDup (fresh visited l).
Proof.
  induction l as [|a l IH]; intros visited; simpl; [constructor|].
  destruct (mem a visited); [apply IH|].
  constructor; [|apply IH]. rewrite fresh_In, in_app_iff. simpl. tauto.
Qed.

(** Recording the distance [d] for every node of [news]. *)
Lemma set_all_get (d : Z) (news : list string) :
  forall (dist : dict Z) (n : string),
    dict_get (fold_left (fun dm v => dict_set dm v d) news dist) n
    = if mem n news then Some d else dict_get dist n.
Proof.
  induction news as [|a news IH]; intros dist n; simpl; [reflexivity|].
  rewrite IH, dict_get_set.
  destruct (mem n news); [now rewrite orb_true_r|].
  rewrite orb_false_r. reflexivity.
Qed.

Section Bfs.
Variable doc : Document.

(** The inner loop of [bfs_dist] adds the fresh successors, in order. *)
Lemma bfs_visit_fold (u : string) (du : Z) (l : list string) :
  forall visited dist q,
    In u visited -> dict_get dist u = Some du ->
    foldM (bfs_visit u) l (visited, dist, q)
    = Done (visited ++ fresh visited l,
            fold_left (fun dm v => dict_set dm v (du + 1)%Z)
                      (fresh visited l) dist,
            q ++ fresh visited l).
Proof.
  induction l as [|v l IH]; intros visited dist q Hu Hd; simpl.
  - now rewrite !app_nil_r.
  - destruct (mem v visited) eqn:E; simpl.
    + now apply IH.
    + rewrite Hd. simpl. rewrite IH.
      * now rewrite <- !app_assoc.
      * apply in_or_app. now left.
      * rewrite dict_get_set.
        destruct (String.eqb_spec u v) as [->|_]; [|assumption].
        apply mem_false in E. contradiction.
Qed.

End Bfs.

(** ** Counting what is left *)

Lemma mem_app (x : string) (l l' : list string) :
  mem x (l ++ l') = mem x l || mem x l'.
Proof. unfold mem. apply existsb_app. Qed.

Lemma filter_out_one (v : string) (L : list string) :
  In v L ->
  List.length (filter (fun t => negb (t == v)) L) < List.length L.
Proof.
  induction L as [|a L IH]; intros H; [destruct H|].
  simpl. destruct (String.eqb_spec a v) as [->|Hne]; simpl.
  - pose proof (List.filter_length_le (fun t => negb (t == v)) L). lia.
  - destruct H as [->|H]; [contradiction|]. specialize (IH H). lia.
Qed.

Lemma filter_out_length (news : list string) :
  forall L, NoDup news -> incl news L ->
    List.length news
    + List.length (filter (fun t => negb (mem t news)) L)
    <= List.length L.
Proof.
  induction news as [|v news IH]; intros L Hnd Hin.
  - apply List.filter_length_le.
  - inversion Hnd as [|? ? Hv Hnd']; subst.
    set (L' := filter (fun t => negb (t == v)) L).
    assert (E : filter (fun t => negb (mem t (v :: news))) L
                = filter (fun t => negb (mem t news)) L').
    { unfold L'. clear. induction L as [|a L IHL]; [reflexivity|].
      simpl. destruct (a == v); simpl; [exact IHL|].
      destruct (mem a news); simpl; [exact IHL|now f_equal]. }
    rewrite E.
    assert (Hin' : incl news L').
    { intros x Hx. unfold L'. apply filter_In. split.
      - apply Hin. now right.
      - destruct (String.eqb_spec x v) as [->|_]; [contradiction|reflexivity]. }
    specialize (IH L' Hnd' Hin').
    pose proof (filter_out_one v L (Hin v (or_introl eq_refl))). 
    fold L' in H. cbn [List.length]. lia.
Qed.

Lemma potential_step (doc : Document) (u : string) (q' visited : list string) :
  let news := fresh visited (succ doc u) in
  bfs_potential doc (q' ++ news) (visited ++ news)
  < bfs_potential doc (u :: q') visited.
Proof.
  intros news. unfold bfs_potential. rewrite length_app. simpl.
  set (T := map snd (d_flows doc)).
  set (L := filter (fun t => negb (mem t visited)) T).
  assert (E : filter (fun t => negb (mem t (visited ++ news))) T
              = filter (fun t => negb (mem t news)) L).
  { unfold L. clear. induction T as [|a T IH]; [reflexivity|].
    simpl. rewrite mem_app. destruct (mem a visited); simpl; [exact IH|].
    destruct (mem a news); simpl; [exact IH|now f_equal]. }
  rewrite E.
  assert (Hin : incl news L).
  { intros x Hx. apply fresh_In in Hx. destruct Hx as [Hs Hn].
    unfold L. apply filter_In. split.
    - apply In_succ in Hs. unfold T, edge in *.
      apply (in_map snd) in Hs. exact Hs.
    - apply mem_false in Hn. now rewrite Hn. }
  pose proof (filter_out_length news L (fresh_NoDup _ _) Hin). lia.
Qed.

(** ** The loop invariant of [bfs_dist] *)

Lemma SS_app {A} (R : A -> A -> Prop) (l1 l2 : list A) :
  StronglySorted R l1 -> StronglySorted R l2 ->
  (forall x y, In x l1 -> In y l2 -> R x y) ->
  StronglySorted R (l1 ++ l2).
Proof.
  induction 1 as [|a l1 H1 IH Ha]; intros H2 Hc; simpl; [assumption|].
  constructor.
  - apply IH; [assumption|]. intros x y Hx. apply Hc. now right.
  - apply Forall_app. split; [assumption|].
    apply Forall_forall. intros y Hy. apply Hc; [now left|assumption].
Qed.

Lemma SS_all {A} (R : A -> A -> Prop) (l : list A) :
  (forall x y, In x l -> In y l -> R x y) -> StronglySorted R l.
Proof.
  induction l as [|a l IH]; intros H; constructor.
  - apply IH. intros x y Hx Hy. apply H; now right.
  - apply Forall_forall. intros y Hy. apply H; [now left|now right].
Qed.

Lemma SS_transfer {A} (R R' : A -> A -> Prop) (l : list A) :
  StronglySorted R l ->
  (forall x y, In x l -> In y l -> R x y -> R' x y) ->
  StronglySorted R' l.
Proof.
  induction 1 as [|a l Hl IH Ha]; intros H; constructor.
  - apply IH. intros x y Hx Hy. apply H; now right.
  - rewrite Forall_forall in *. intros y Hy.
    apply H; [now left|now right|now apply Ha].
Qed.

Section BfsInvariant.
Variable doc : Document.
Variable start : string.

Lemma bfs_inv_init : bfs_inv doc start [start] [start] [(start, 0%Z)].
Proof.
  unfold bfs_inv, dz. simpl. rewrite String.eqb_refl.
  split; [reflexivity|]. split; [repeat constructor; simpl; tauto|].
  split.
  { intros n. destruct (String.eqb_spec n start) as [->|Hne].
    - split; [discriminate|tauto].
    - split; [intros [->|[]]; contradiction|congruence]. }
  split.
  { intros n [<-|[]]. exists 0. rewrite String.eqb_refl.
    split; [reflexivity|constructor]. }
  split; [apply incl_refl|].
  split; [intros u v [<-|[]] Hn; elim Hn; now left|].
  split; [repeat constructor|].
  intros h n [= <-] [<-|[]]. lia.
Qed.

Lemma bfs_inv_step (u : string) (q' visited : list string) (dist : dict Z) :
  bfs_inv doc start (u :: q') visited dist ->
  let news := fresh visited (succ doc u) in
  bfs_inv doc start (q' ++ news) (visited ++ news)
    (fold_left (fun dm v => dict_set dm v (dz dist u + 1)%Z) news dist).
Proof.
  intros (I1 & I2 & I3 & I4 & I5 & I6 & I7 & I8) news.
  set (dist' := fold_left _ news dist).
  assert (Hu : In u visited) by (apply I5; now left).
  assert (Hnews : forall n, In n news -> In n (succ doc u) /\ ~ In n visited)
    by (intros n; apply fresh_In).
  assert (F1 : forall n, In n visited -> dict_get dist' n = dict_get dist n).
  { intros n Hn. unfold dist'. rewrite set_all_get.
    destruct (mem n news) eqn:E; [|reflexivity].
    apply mem_In, Hnews in E. tauto. }
  assert (F2 : forall n, In n news ->
                         dict_get dist' n = Some (dz dist u + 1)%Z).
  { intros n Hn. unfold dist'. rewrite set_all_get.
    apply mem_In in Hn. now rewrite Hn. }
  assert (G1 : forall n, In n visited -> dz dist' n = dz dist n)
    by (intros n Hn; unfold dz; now rewrite F1).
  assert (G2 : forall n, In n news -> dz dist' n = (dz dist u + 1)%Z)
    by (intros n Hn; unfold dz; now rewrite F2).
  assert (Hst : In start visited) by (apply I3; congruence).
  unfold bfs_inv.
  split; [now rewrite F1|].
  split.
  { apply NoDup_app; [assumption|apply fresh_NoDup|].
    intros a Ha Hn. apply Hnews in Hn. tauto. }
  split.
  { intros n. rewrite in_app_iff. unfold dist'. rewrite set_all_get.
    destruct (mem n news) eqn:E.
    - apply mem_In in E. split; [discriminate|tauto].
    - apply mem_false in E. rewrite <- I3. tauto. }
  split.
  { intros n Hn. apply in_app_or in Hn. destruct Hn as [Hn|Hn].
    - rewrite (G1 n Hn). now apply I4.
    - rewrite (G2 n Hn). destruct (I4 u Hu) as (k & Hk & Hw).
      exists (S k). split; [lia|].
      apply walk_step with (v := u); [assumption|].
      apply In_succ. now apply Hnews. }
  split.
  { intros x Hx. apply in_app_or in Hx. apply in_or_app.
    destruct Hx as [Hx|Hx]; [left; apply I5; now right|now right]. }
  split.
  { intros u0 v Hu0 Hq Hv.
    assert (Hu0v : In u0 visited).
    { apply in_app_or in Hu0. destruct Hu0 as [H|H]; [assumption|].
      elim Hq. apply in_or_app. now right. }
    rewrite (G1 u0 Hu0v).
    destruct (string_dec u0 u) as [->|Hne].
    - destruct (mem v visited) eqn:E.
      + apply mem_In in E. split; [apply in_or_app; now left|].
        rewrite (G1 v E). now apply (I8 u v).
      + apply mem_false in E.
        assert (Hvn : In v news) by (apply fresh_In; tauto).
        split; [apply in_or_app; now right|]. rewrite (G2 v Hvn). lia.
    - assert (Hq' : ~ In u0 (u :: q')).
      { intros [H|H]; [congruence|]. apply Hq, in_or_app. now left. }
      destruct (I6 u0 v Hu0v Hq' Hv) as [Hvv Hle].
      split; [apply in_or_app; now left|]. now rewrite (G1 v Hvv). }
  split.
  { apply StronglySorted_inv in I7. destruct I7 as [Hq' _].
    apply SS_app.
    - apply (SS_transfer _ _ _ Hq'). intros x y Hx Hy.
      rewrite (G1 x), (G1 y); auto; apply I5; now right.
    - apply SS_all. intros x y Hx Hy. rewrite (G2 x Hx), (G2 y Hy). lia.
    - intros x y Hx Hy.
      assert (Hxv : In x visited) by (apply I5; now right).
      rewrite (G1 x Hxv), (G2 y Hy). now apply (I8 u x). }
  intros h n Hh Hn.
  apply StronglySorted_inv in I7. destruct I7 as [_ Hmin].
  rewrite Forall_forall in Hmin.
  assert (Hnb : (dz dist' n <= dz dist u + 1)%Z).
  { apply in_app_or in Hn. destruct Hn as [Hn|Hn].
    - rewrite (G1 n Hn). now apply (I8 u n).
    - rewrite (G2 n Hn). lia. }
  destruct q' as [|x q'].
  - simpl in Hh. destruct news as [|v news']; [discriminate|].
    injection Hh as <-. rewrite (G2 v (or_introl eq_refl)). lia.
  - simpl in Hh. injection Hh as <-.
    assert (Hxv : In x visited) by (apply I5; right; now left).
    rewrite (G1 x Hxv). specialize (Hmin x (or_introl eq_refl)). lia.
Qed.

Lemma bfs_loop_correct (fuel : nat) :
  forall q visited dist,
    bfs_inv doc start q visited dist ->
    bfs_potential doc q visited <= fuel ->
    exists vis dm,
      bfs_loop doc fuel None q visited dist = Done (vis, dm)
      /\ bfs_inv doc start [] vis dm.
Proof.
  induction fuel as [|fuel IH]; intros q visited dist Hinv Hpot.
  - destruct q as [|u q']; [simpl; eauto|].
    unfold bfs_potential in Hpot. simpl in Hpot. lia.
  - destruct q as [|u q']; [simpl; eauto|].
    pose proof Hinv as (I1 & I2 & I3 & I4 & I5 & _).
    assert (Hu : In u visited) by (apply I5; now left).
    destruct (dict_get dist u) as [du|] eqn:Ed;
      [|apply I3 in Hu; contradiction].
    cbn [bfs_loop].
    rewrite (bfs_visit_fold u du (succ doc u) visited dist q' Hu Ed).
    cbn [bind].
    assert (Edz : dz dist u = du) by (unfold dz; now rewrite Ed).
    apply IH.
    + rewrite <- Edz. now apply bfs_inv_step.
    + pose proof (potential_step doc u q' visited). cbn zeta in H. lia.
Qed.

Lemma bfs_inv_final (vis : list string) (dm : dict Z) :
  bfs_inv doc start [] vis dm -> bfs_result doc start (vis, dm).
Proof.
  intros (I1 & I2 & I3 & I4 & I5 & I6 & I7 & I8).
  assert (Hst : In start vis) by (apply I3; congruence).
  assert (Hclosed : forall n k, walk doc start n k ->
                                In n vis /\ (dz dm n <= Z.of_nat k)%Z).
  { intros n k Hw. induction Hw as [|v w k Hw [Hv Hle] He].
    - split; [assumption|]. unfold dz. rewrite I1. simpl. lia.
    - apply In_succ in He.
      destruct (I6 v w Hv (fun H => H) He) as [Hwv Hd]. split; [assumption|lia]. }
  split; simpl.
  - intros n. split.
    + intros Hn. destruct (I4 n Hn) as (k & _ & Hw). now exists k.
    + intros [k Hw]. now apply (Hclosed n k).
  - intros n Hn. destruct (I4 n Hn) as (k & Hk & Hw).
    exists k. split.
    + apply I3 in Hn. unfold dz in Hk.
      destruct (dict_get dm n); [now subst|contradiction].
    + split; [assumption|]. intros k' Hw'.
      destruct (Hclosed n k' Hw') as [_ Hle]. lia.
Qed.

End BfsInvariant.

(** [bfs_dist] returns, and returns the nodes reachable from [start] with
    their shortest distances. *)
Lemma bfs_dist_correct (doc : Document) (start : string) :
  exists r, bfs_dist doc start None = Done r /\ bfs_result doc start r.
Proof.
  destruct (bfs_loop_correct doc start (S (List.length (flows doc)))
              [start] [start] [(start, 0%Z)] (bfs_inv_init doc start))
    as (vis & dm & E & Hinv).
  - unfold bfs_potential, flows. simpl.
    pose proof (List.filter_length_le
                  (fun t => negb (mem t [start])) (map snd (d_flows doc))).
    rewrite length_map in H. simpl in H. lia.
  - exists (vis, dm). split; [exact E|]. now apply bfs_inv_final.
Qed.

(** ** The candidates of [find_join] *)

Lemma dict_mem_set {V} (d : dict V) (k k' : string) (v : V) :
  dict_mem (dict_set d k v) k' = (k' == k) || dict_mem d k'.
Proof. unfold dict_mem. rewrite dict_get_set. now destruct (k' == k). Qed.

Lemma dict_mem_by_id (es : list Element) :
  forall (d : dict Element) (n : string),
    dict_mem (by_id d es) n
    = dict_mem d n || existsb (fun e => e_id e == n) es.
Proof.
  unfold by_id. induction es as [|e es IH]; intros d n; simpl.
  - now rewrite orb_false_r.
  - rewrite IH, dict_mem_set, (String.eqb_sym n (e_id e)).
    destruct (e_id e == n), (dict_mem d n); reflexivity.
Qed.

Lemma dict_mem_merge {V} (b : dict V) :
  forall (a : dict V) (n : string),
    dict_mem (dict_merge a b) n = dict_mem a n || dict_mem b n.
Proof.
  unfold dict_merge. induction b as [|[k v] b IH]; intros a n; simpl.
  - now rewrite orb_false_r.
  - rewrite IH, dict_mem_set.
    assert (E : dict_mem ((k, v) :: b) n = (n == k) || dict_mem b n)
      by (unfold dict_mem; simpl; now destruct (n == k)).
    rewrite E. destruct (n == k), (dict_mem a n), (dict_mem b n); reflexivity.
Qed.

Lemma dict_mem_tag (doc : Document) (tag n : string) :
  dict_mem (by_id [] (findall doc tag)) n = true
  <-> exists e, In e (d_elements doc) /\ e_id e = n /\ e_tag e = tag.
Proof.
  rewrite dict_mem_by_id. simpl. rewrite existsb_exists. unfold findall.
  split.
  - intros (e & He & Hid). apply filter_In in He. destruct He as [He Ht].
    apply String.eqb_eq in Hid, Ht. eauto.
  - intros (e & He & Hid & Ht). exists e. split.
    + apply filter_In. split; [assumption|now apply String.eqb_eq].
    + now apply String.eqb_eq.
Qed.

Lemma is_candidate_spec (doc : Document) (kind n : string) :
  is_candidate doc kind n = true
  <-> gateway_of_kind doc kind n /\ 1 < indeg doc n.
Proof.
  unfold is_candidate, gateway_of_kind, gateways, is_xor, is_and.
  rewrite dict_mem_merge. unfold xor_gws, and_gws.
  pose proof (dict_mem_tag doc "exclusiveGateway" n) as Hx.
  pose proof (dict_mem_tag doc "parallelGateway" n) as Ha.
  rewrite !andb_true_iff, Nat.ltb_lt, !orb_true_iff, !andb_true_iff.
  rewrite !String.eqb_eq, Hx, Ha.
  split.
  - intros [[_ [[Hk (e & He & Hid & Ht)]|[Hk (e & He & Hid & Ht)]]] Hi];
      (split; [exists e; tauto|assumption]).
  - intros [(e & He & Hid & [[Hk Ht]|[Hk Ht]]) Hi];
      (split; [split|assumption]); eauto 10.
Qed.

(** ** The common set *)

Lemma set_inter_In (a b : list string) (n : string) :
  In n (set_inter a b) <-> In n a /\ In n b.
Proof. unfold set_inter. now rewrite filter_In, mem_In. Qed.

Lemma set_intersection_In (s : list string) (rest : list (list string))
    (n : string) :
  In n (set_intersection (s :: rest)) <-> forall x, In x (s :: rest) -> In n x.
Proof.
  simpl. revert s. induction rest as [|r rest IH]; intros s; simpl.
  - split; [intros H x [<-|[]]; assumption|auto].
  - rewrite IH. split.
    + intros H x [<-|[<-|Hx]].
      * apply (set_inter_In s r n), (H (set_inter s r)). now left.
      * apply (set_inter_In s r n), (H (set_inter s r)). now left.
      * apply H. now right.
    + intros H x [<-|Hx].
      * apply set_inter_In. split; apply H; auto.
      * apply H. auto.
Qed.

Lemma mapM_bfs (doc : Document) (outs : list string) :
  exists results,
    mapM (fun o => bfs_dist doc o None) outs = Done results
    /\ Forall2 (bfs_result doc) outs results.
Proof.
  induction outs as [|o outs (results & E & H)]; simpl.
  - exists []. split; [reflexivity|constructor].
  - destruct (bfs_dist_correct doc o) as (r & Er & Hr).
    rewrite Er, E. simpl. exists (r :: results). split; [reflexivity|].
    now constructor.
Qed.

Lemma Forall2_In_l {A B} (P : A -> B -> Prop) (l : list A) (l' : list B) :
  Forall2 P l l' -> forall a, In a l -> exists b, In b l' /\ P a b.
Proof.
  induction 1 as [|x y l l' Hxy _ IH]; intros a Ha; [destruct Ha|].
  destruct Ha as [<-|Ha].
  - exists y. split; [now left|assumption].
  - destruct (IH a Ha) as (b & Hb & Hab). exists b. split; [now right|assumption].
Qed.

Lemma Forall2_In_r {A B} (P : A -> B -> Prop) (l : list A) (l' : list B) :
  Forall2 P l l' -> forall b, In b l' -> exists a, In a l /\ P a b.
Proof.
  induction 1 as [|x y l l' Hxy _ IH]; intros b Hb; [destruct Hb|].
  destruct Hb as [<-|Hb].
  - exists x. split; [now left|assumption].
  - destruct (IH b Hb) as (a & Ha & Hab). exists a. split; [now right|assumption].
Qed.

(** ** Scores *)

Lemma fold_max (ds : list Z) :
  forall d, let m := fold_left Z.max ds d in
    (d <= m)%Z /\ (forall x, In x ds -> (x <= m)%Z) /\ (m = d \/ In m ds).
Proof.
  induction ds as [|a ds IH]; intros d; simpl.
  - split; [lia|]. split; [intros x []|now left].
  - destruct (IH (Z.max d a)) as (H1 & H2 & H3).
    split; [lia|]. split.
    + intros x [<-|Hx]; [lia|now apply H2].
    + destruct H3 as [H3|H3]; [|right; now right].
      rewrite H3. destruct (Z.max_spec d a) as [[_ ->]|[_ ->]];
        [right; now left|now left].
Qed.

Lemma shortest_unique (doc : Document) (u v : string) (k k' : nat) :
  shortest doc u v k -> shortest doc u v k' -> k = k'.
Proof.
  intros [Hw Hmin] [Hw' Hmin']. specialize (Hmin k' Hw').
  specialize (Hmin' k Hw). lia.
Qed.

Lemma rank_unique (doc : Document) (split_id n : string) (r r' : Z) :
  rank doc split_id n r -> rank doc split_id n r' -> r = r'.
Proof.
  intros [Hall (o & k & Ho & Hk & ->)] [Hall' (o' & k' & Ho' & Hk' & ->)].
  destruct (Hall o' Ho') as (k1 & Hk1 & Hle1).
  destruct (Hall' o Ho) as (k2 & Hk2 & Hle2).
  rewrite (shortest_unique _ _ _ _ _ Hk1 Hk') in Hle1.
  rewrite (shortest_unique _ _ _ _ _ Hk2 Hk) in Hle2. lia.
Qed.

(** The score of a common node is its rank. *)
Lemma score_rank (doc : Document) (split_id n : string)
    (results : list (list string * dict Z)) :
  succ doc split_id <> [] ->
  Forall2 (bfs_result doc) (succ doc split_id) results ->
  (forall o, In o (succ doc split_id) -> reach doc o n) ->
  rank doc split_id n (score (map snd results) n).
Proof.
  intros Hne HF Hreach.
  set (f := fun dm : dict Z => match dict_get dm n with
                               | Some d => d
                               | None => (10 ^ 9)%Z
                               end).
  assert (Hl : forall o, In o (succ doc split_id) ->
                 exists r k, In r results /\ f (snd r) = Z.of_nat k
                             /\ shortest doc o n k).
  { intros o Ho. destruct (Forall2_In_l _ _ _ HF o Ho) as (r & Hr & Hreach' & Hd).
    destruct (Hd n) as (k & Hk & Hs); [apply Hreach', Hreach, Ho|].
    exists r, k. unfold f. now rewrite Hk. }
  assert (Hr : forall r, In r results ->
                 exists o k, In o (succ doc split_id) /\ f (snd r) = Z.of_nat k
                             /\ shortest doc o n k).
  { intros r Hr. destruct (Forall2_In_r _ _ _ HF r Hr) as (o & Ho & Hreach' & Hd).
    destruct (Hd n) as (k & Hk & Hs); [apply Hreach', Hreach, Ho|].
    exists o, k. unfold f. now rewrite Hk. }
  unfold score. fold f. rewrite map_map.
  destruct results as [|r0 results].
  { inversion HF as [E|]. now elim Hne. }
  cbn [map].
  destruct (fold_max (map (fun r => f (snd r)) results) (f (snd r0)))
    as (H1 & H2 & H3).
  set (m := fold_left Z.max _ _) in *.
  assert (Hle : forall r, In r (r0 :: results) -> (f (snd r) <= m)%Z).
  { intros r [<-|Hin]; [assumption|].
    apply H2. now apply (in_map (fun r => f (snd r))). }
  split.
  - intros o Ho. destruct (Hl o Ho) as (r & k & Hin & Hk & Hs).
    exists k. split; [assumption|]. rewrite <- Hk. now apply Hle.
  - assert (Hm : exists r, In r (r0 :: results) /\ m = f (snd r)).
    { destruct H3 as [H3|H3]; [exists r0; split; [now left|assumption]|].
      apply in_map_iff in H3. destruct H3 as (r & Hr3 & Hin).
      exists r. split; [now right|now symmetry]. }
    destruct Hm as (r & Hin & ->).
    destruct (Hr r Hin) as (o & k & Ho & Hk & Hs). now exists o, k.
Qed.

(** C2. [find_join] always returns.  It returns none when the split has at
    most one successor.  Otherwise it returns none exactly when no node is
    a join candidate, that is, reached from every outgoing branch, a gateway
    of the kind asked for, with in-degree above one; and when it returns a
    node, the candidates, listed in the order in which the set of common
    nodes is iterated, split into those before the node, all of strictly
    greater rank, the node itself, and those after it, of rank at least as
    great, the rank of a node being the largest of its shortest distances
    from the branches. *)
Theorem find_join_spec (set_iter : list string -> list string)
    (set_iter_perm : forall l, Permutation (set_iter l) l)
    (doc : Document) (split_id kind : string) :
  exists r,
    find_join set_iter doc split_id kind = Done r
    /\ (outdeg doc split_id <= 1 -> r = None)
    /\ (1 < outdeg doc split_id ->
        (r = None <-> forall n, ~ join_candidate doc split_id kind n)
        /\ forall j, r = Some j ->
             exists common before after rj,
               (forall n, In n common
                          <-> forall o, In o (succ doc split_id) ->
                                        reach doc o n)
               /\ filter (is_candidate doc kind) (set_iter common)
                  = before ++ j :: after
               /\ (forall n, In n (before ++ j :: after)
                             <-> join_candidate doc split_id kind n)
               /\ join_candidate doc split_id kind j
               /\ rank doc split_id j rj
               /\ (forall n rn, In n before -> rank doc split_id n rn ->
                                (rj < rn)%Z)
               /\ (forall n rn, In n after -> rank doc split_id n rn ->
                                (rj <= rn)%Z)).
Proof.
  unfold outdeg.
  destruct (Nat.leb_spec (List.length (succ doc split_id)) 1) as [Hfew|Hmany].
  { exists None. split; [now apply find_join_few|].
    split; [reflexivity|lia]. }
  destruct (mapM_bfs doc (succ doc split_id)) as (results & Eres & HF).
  set (common := set_intersection (map fst results)).
  set (cands := filter (is_candidate doc kind) (set_iter common)).
  exists (first_min (score (map snd results)) cands).
  split; [now apply find_join_unfold|]. split; [lia|]. intros _.
  assert (Hne : succ doc split_id <> [])
    by (intros E; rewrite E in Hmany; simpl in Hmany; lia).
  assert (Hcommon : forall n, In n common
                      <-> forall o, In o (succ doc split_id) -> reach doc o n).
  { intros n. unfold common.
    destruct results as [|r0 results]; [inversion HF; now elim Hne|].
    cbn [map]. rewrite set_intersection_In. split.
    - intros H o Ho.
      destruct (Forall2_In_l _ _ _ HF o Ho) as (r & Hr & Hreach & _).
      apply Hreach, H. now apply (in_map fst) in Hr.
    - intros H x Hx. change (fst r0 :: map fst results)
        with (map fst (r0 :: results)) in Hx.
      apply in_map_iff in Hx. destruct Hx as (r & <- & Hr).
      destruct (Forall2_In_r _ _ _ HF r Hr) as (o & Ho & Hreach & _).
      apply Hreach, H, Ho. }
  assert (Hcands : forall n, In n cands <-> join_candidate doc split_id kind n).
  { intros n. unfold cands, join_candidate.
    rewrite filter_In, is_candidate_spec, <- Hcommon. split.
    - intros [Hin Hc]. split; [|assumption].
      eapply Permutation_in; [apply set_iter_perm|exact Hin].
    - intros [Hin Hc]. split; [|assumption].
      eapply Permutation_in; [symmetry; apply set_iter_perm|exact Hin]. }
  assert (Hrank : forall n, In n cands ->
                    rank doc split_id n (score (map snd results) n)).
  { intros n Hn. apply Hcands in Hn. destruct Hn as [Hreach _].
    now apply score_rank. }
  split.
  - rewrite first_min_None. split.
    + intros E n Hn. apply Hcands in Hn. rewrite E in Hn. destruct Hn.
    + intros H. destruct cands as [|c cands'] eqn:E; [reflexivity|].
      elim (H c). apply Hcands. now left.
  - intros j Hj. destruct (first_min_split _ _ _ Hj) as (bf & af & E & Hb & Ha).
    exists common, bf, af, (score (map snd results) j).
    assert (Hjc : In j cands) by (rewrite E; apply in_elt).
    split; [exact Hcommon|]. split; [exact E|].
    split; [intros n; rewrite <- E; apply Hcands|].
    split; [now apply Hcands|]. split; [now apply Hrank|]. split.
    + intros n rn Hn Hr.
      assert (Hnc : In n cands) by (rewrite E; apply in_or_app; now left).
      rewrite (rank_unique _ _ _ _ _ Hr (Hrank n Hnc)). now apply Hb.
    + intros n rn Hn Hr.
      assert (Hnc : In n cands)
        by (rewrite E; apply in_or_app; right; now right).
      rewrite (rank_unique _ _ _ _ _ Hr (Hrank n Hnc)). now apply Ha.
Qed.

Lemma find_join_spec_witness :
  (forall l, Permutation (insertion_order l) l)
  /\ exists r,
       find_join insertion_order round_trip_doc "G" "XOR" = Done r
       /\ (r = None <-> forall n, ~ join_candidate round_trip_doc "G" "XOR" n).
Proof.
  split; [intros l; apply Permutation_refl|].
  destruct (find_join_spec insertion_order (fun l => Permutation_refl l)
              round_trip_doc "G" "XOR") as (r & H & _ & H2).
  exists r. split; [exact H|]. apply H2. vm_compute. lia.
Defined.

(* ================================================================= *)
(** * Further properties of the two programs *)

(** ** [bfs_dist] *)

Section BfsStop.
Variable doc : Document.
Variable start : string.
Variable stop : option string.

(** The loop of [bfs_dist] returns in a state that satisfies the loop
    invariant, has only added to the visited set and has kept the distances
    it had recorded. *)
Lemma bfs_loop_stop (fuel : nat) :
  forall q visited dist,
    bfs_inv doc start q visited dist ->
    bfs_potential doc q visited <= fuel ->
    exists q' vis dm,
      bfs_loop doc fuel stop q visited dist = Done (vis, dm)
      /\ bfs_inv doc start q' vis dm
      /\ bfs_stopped stop q'
      /\ incl visited vis
      /\ (forall n, In n visited -> dict_get dm n = dict_get dist n).
Proof.
  induction fuel as [|fuel IH]; intros q visited dist Hinv Hpot.
  - destruct q as [|u q'].
    + exists [], visited, dist.
      split; [reflexivity|]. split; [exact Hinv|]. split; [now left|].
      split; [apply incl_refl|reflexivity].
    + unfold bfs_potential in Hpot. simpl in Hpot. lia.
  - destruct q as [|u q'].
    + exists [], visited, dist.
      split; [reflexivity|]. split; [exact Hinv|]. split; [now left|].
      split; [apply incl_refl|reflexivity].
    + cbn [bfs_loop].
      destruct (match stop with Some s => u == s | None => false end) eqn:Es.
      * exists (u :: q'), visited, dist.
        split; [reflexivity|]. split; [exact Hinv|]. split.
        { right. destruct stop as [s|]; [|discriminate].
          apply String.eqb_eq in Es. subst. eauto. }
        split; [apply incl_refl|reflexivity].
      * pose proof Hinv as (I1 & I2 & I3 & I4 & I5 & _).
        assert (Hu : In u visited) by (apply I5; now left).
        destruct (dict_get dist u) as [du|] eqn:Ed;
          [|apply I3 in Hu; contradiction].
        rewrite (bfs_visit_fold u du (succ doc u) visited dist q' Hu Ed).
        cbn [bind].
        assert (Edz : dz dist u = du) by (unfold dz; now rewrite Ed).
        set (news := fresh visited (succ doc u)).
        destruct (IH (q' ++ news) (visited ++ news)
                     (fold_left (fun dm v => dict_set dm v (du + 1)%Z)
                                news dist))
          as (q'' & vis & dm & E & Hinv' & Hst & Hincl & Hkeep).
        { rewrite <- Edz. now apply bfs_inv_step. }
        { pose proof (potential_step doc u q' visited). cbn zeta in H.
          fold news in H. lia. }
        exists q'', vis, dm. split; [exact E|]. split; [exact Hinv'|].
        split; [exact Hst|]. split.
        { intros n Hn. apply Hincl, in_or_app. now left. }
        intros n Hn. rewrite Hkeep by (apply in_or_app; now left).
        rewrite set_all_get. destruct (mem n news) eqn:En; [|reflexivity].
        apply mem_In, fresh_In in En. tauto.
Qed.

End BfsStop.

(** X1. Called without a stop node, [bfs_dist] returns the set of the
    nodes reachable from [start], each once, and a map that gives every
    reachable node its shortest distance and has no other key. *)
Theorem bfs_dist_complete (doc : Document) (start : string) :
  exists vis dm,
    bfs_dist doc start None = Done (vis, dm)
    /\ NoDup vis
    /\ (forall n, In n vis <-> reach doc start n)
    /\ (forall n, reach doc start n ->
                  exists k, dict_get dm n = Some (Z.of_nat k)
                            /\ shortest doc start n k)
    /\ (forall n, ~ reach doc start n -> dict_get dm n = None).
Proof.
  destruct (bfs_loop_correct doc start (S (List.length (flows doc)))
              [start] [start] [(start, 0%Z)] (bfs_inv_init doc start))
    as (vis & dm & E & Hinv).
  { unfold bfs_potential, flows. simpl.
    pose proof (List.filter_length_le
                  (fun t => negb (mem t [start])) (map snd (d_flows doc))).
    rewrite length_map in H. simpl in H. lia. }
  exists vis, dm. split; [exact E|].
  destruct (bfs_inv_final doc start vis dm Hinv) as [Hreach Hdist].
  simpl in Hreach, Hdist.
  destruct Hinv as (_ & Hnd & Hkeys & _).
  split; [exact Hnd|]. split; [exact Hreach|]. split.
  - intros n Hn. apply Hdist, Hreach, Hn.
  - intros n Hn. destruct (dict_get dm n) eqn:Eg; [|reflexivity].
    elim Hn. apply Hreach, Hkeys. congruence.
Qed.

(** X2. Called with a stop node, [bfs_dist] still returns: it never fails
    on a missing distance.  Every node it has visited by then carries its
    shortest distance from [start], and the stop node is among the visited
    exactly when it can be reached. *)
Theorem bfs_dist_stop (doc : Document) (start : string)
    (stop : option string) :
  exists vis dm,
    bfs_dist doc start stop = Done (vis, dm)
    /\ In start vis
    /\ (forall n, In n vis ->
                  exists k, dict_get dm n = Some (Z.of_nat k)
                            /\ shortest doc start n k)
    /\ (forall s, stop = Some s -> (In s vis <-> reach doc start s)).
Proof.
  destruct (bfs_loop_stop doc start stop (S (List.length (flows doc)))
              [start] [start] [(start, 0%Z)] (bfs_inv_init doc start))
    as (q' & vis & dm & E & Hinv & Hst & Hincl & _).
  { unfold bfs_potential, flows. simpl.
    pose proof (List.filter_length_le
                  (fun t => negb (mem t [start])) (map snd (d_flows doc))).
    rewrite length_map in H. simpl in H. lia. }
  exists vis, dm. split; [exact E|].
  split; [apply Hincl; now left|].
  (* let the traversal run on to its end *)
  destruct (bfs_loop_stop doc start None (bfs_potential doc q' vis) q' vis dm
              Hinv (Nat.le_refl _))
    as (q'' & vis' & dm' & _ & Hinv' & Hst' & Hincl' & Hkeep').
  assert (q'' = []) as ->
    by (destruct Hst' as [H|(s & rest & H & _)]; [exact H|discriminate]).
  destruct (bfs_inv_final doc start vis' dm' Hinv') as [Hreach Hdist].
  simpl in Hreach, Hdist.
  split.
  - intros n Hn. rewrite <- (Hkeep' n Hn). apply Hdist, Hincl', Hn.
  - intros s ->. split.
    + intros Hs. apply Hreach, Hincl', Hs.
    + intros Hs. destruct Hst as [->|(s' & rest & [= <-] & ->)].
      * destruct (bfs_inv_final doc start vis dm Hinv) as [Hr _].
        now apply Hr.
      * destruct Hinv as (_ & _ & _ & _ & Hq & _). apply Hq. now left.
Qed.

(** ** [find_join] *)

Section FindJoinParts.
Variable set_iter : list string -> list string.
Hypothesis set_iter_perm : forall l, Permutation (set_iter l) l.
Variable doc : Document.
Variable split_id kind : string.

(** For a split with several successors, the join is the first candidate
    of least score; the candidates are the join candidates and the score
    of each is its rank. *)
Lemma find_join_parts :
  1 < outdeg doc split_id ->
  exists (sc : string -> Z) (cands : list string),
    find_join set_iter doc split_id kind = Done (first_min sc cands)
    /\ (forall n, In n cands <-> join_candidate doc split_id kind n)
    /\ (forall n, In n cands -> rank doc split_id n (sc n)).
Proof.
  unfold outdeg. intros Hmany.
  destruct (mapM_bfs doc (succ doc split_id)) as (results & Eres & HF).
  set (common := set_intersection (map fst results)).
  exists (score (map snd results)),
         (filter (is_candidate doc kind) (set_iter common)).
  split; [now apply find_join_unfold|].
  assert (Hne : succ doc split_id <> [])
    by (intros E; rewrite E in Hmany; simpl in Hmany; lia).
  assert (Hcommon : forall n, In n common
                      <-> forall o, In o (succ doc split_id) -> reach doc o n).
  { intros n. unfold common.
    destruct results as [|r0 results]; [inversion HF; now elim Hne|].
    cbn [map]. rewrite set_intersection_In. split.
    - intros H o Ho.
      destruct (Forall2_In_l _ _ _ HF o Ho) as (r & Hr & Hreach & _).
      apply Hreach, H. now apply (in_map fst) in Hr.
    - intros H x Hx. change (fst r0 :: map fst results)
        with (map fst (r0 :: results)) in Hx.
      apply in_map_iff in Hx. destruct Hx as (r & <- & Hr).
      destruct (Forall2_In_r _ _ _ HF r Hr) as (o & Ho & Hreach & _).
      apply Hreach, H, Ho. }
  assert (Hcands : forall n,
             In n (filter (is_candidate doc kind) (set_iter common))
             <-> join_candidate doc split_id kind n).
  { intros n. unfold join_candidate.
    rewrite filter_In, is_candidate_spec, <- Hcommon. split.
    - intros [Hin Hc]. split; [|assumption].
      eapply Permutation_in; [apply set_iter_perm|exact Hin].
    - intros [Hin Hc]. split; [|assumption].
      eapply Permutation_in; [symmetry; apply set_iter_perm|exact Hin]. }
  split; [exact Hcands|].
  intros n Hn. apply Hcands in Hn. destruct Hn as [Hreach _].
  now apply score_rank.
Qed.

End FindJoinParts.

(** X3. A join candidate whose rank is strictly below the rank of every
    other candidate is the join returned, in whatever order the sets are
    iterated: two branches that meet at once in a gateway of the split's
    kind are joined there and not further downstream. *)
Theorem find_join_least_rank (set_iter : list string -> list string)
    (set_iter_perm : forall l, Permutation (set_iter l) l)
    (doc : Document) (split_id kind j : string) (rj : Z) :
  1 < outdeg doc split_id ->
  join_candidate doc split_id kind j ->
  rank doc split_id j rj ->
  (forall n rn, join_candidate doc split_id kind n ->
                rank doc split_id n rn -> n = j \/ (rj < rn)%Z) ->
  find_join set_iter doc split_id kind = Done (Some j).
Proof.
  intros Hmany Hj Hrj Hleast.
  destruct (find_join_parts set_iter set_iter_perm doc split_id kind Hmany)
    as (sc & cands & -> & Hcands & Hrank).
  f_equal. apply first_min_unique; [now apply Hcands|].
  intros x Hx.
  assert (Ej : sc j = rj).
  { apply (rank_unique doc split_id j); [apply Hrank, Hcands, Hj|exact Hrj]. }
  rewrite Ej. apply (Hleast x (sc x)); [now apply Hcands|now apply Hrank].
Qed.

Lemma find_join_least_rank_witness :
  find_join insertion_order round_trip_doc "G" "XOR" = Done (Some "J").
Proof.
  assert (HB : shortest round_trip_doc "B" "J" 1).
  { split.
    - apply walk_step with (v := "B"); [constructor|].
      unfold edge. simpl. tauto.
    - intros d' Hw. inversion Hw; subst; lia. }
  assert (HC : shortest round_trip_doc "C" "J" 1).
  { split.
    - apply walk_step with (v := "C"); [constructor|].
      unfold edge. simpl. tauto.
    - intros d' Hw. inversion Hw; subst; lia. }
  assert (Hsucc : forall o, In o (succ round_trip_doc "G") ->
                            o = "B" \/ o = "C").
  { intros o Ho. vm_compute in Ho. destruct Ho as [<-|[<-|[]]]; auto. }
  assert (Hcand : forall n, join_candidate round_trip_doc "G" "XOR" n ->
                            n = "J").
  { intros n (_ & (e & He & Hid & _) & Hin). subst n.
    simpl in He.
    repeat (destruct He as [<-|He];
            [try reflexivity; vm_compute in Hin; lia|]).
    destruct He. }
  apply (find_join_least_rank insertion_order
           (fun l => Permutation_refl l) round_trip_doc "G" "XOR" "J" 1%Z).
  - vm_compute. lia.
  - split; [|split].
    + intros o Ho. destruct (Hsucc o Ho) as [-> | ->]; exists 1;
        [apply HB|apply HC].
    + exists (el "exclusiveGateway" "J"). simpl. tauto.
    + vm_compute. lia.
  - split.
    + intros o Ho. destruct (Hsucc o Ho) as [-> | ->]; exists 1; split;
        first [exact HB | exact HC | simpl; lia].
    + exists "B", 1. split; [vm_compute; tauto|]. split; [exact HB|reflexivity].
  - intros n rn Hn _. left. now apply Hcand.
Defined.

(** X4. When no two join candidates have the same rank, the join does not
    depend on the order in which sets are iterated. *)
Theorem find_join_order_independent
    (set_iter set_iter' : list string -> list string)
    (set_iter_perm : forall l, Permutation (set_iter l) l)
    (set_iter_perm' : forall l, Permutation (set_iter' l) l)
    (doc : Document) (split_id kind : string) :
  (forall a b r, join_candidate doc split_id kind a ->
                 join_candidate doc split_id kind b ->
                 rank doc split_id a r -> rank doc split_id b r -> a = b) ->
  find_join set_iter doc split_id kind
  = find_join set_iter' doc split_id kind.
Proof.
  intros Hties.
  destruct (Nat.leb_spec (outdeg doc split_id) 1) as [Hfew|Hmany].
  { unfold outdeg in Hfew. now rewrite !find_join_few. }
  destruct (find_join_parts set_iter set_iter_perm doc split_id kind Hmany)
    as (sc & cands & -> & Hcands & Hrank).
  destruct (find_join_parts set_iter' set_iter_perm' doc split_id kind Hmany)
    as (sc' & cands' & -> & Hcands' & Hrank').
  f_equal.
  destruct (first_min sc cands) as [m|] eqn:E.
  - destruct (first_min_least sc cands m E) as [Hm Hle].
    symmetry. apply first_min_unique; [apply Hcands', Hcands, Hm|].
    intros x Hx.
    assert (Hxc : In x cands) by (apply Hcands, Hcands', Hx).
    assert (Em : sc' m = sc m).
    { apply (rank_unique doc split_id m);
        [apply Hrank', Hcands', Hcands, Hm|apply Hrank, Hm]. }
    assert (Ex : sc' x = sc x).
    { apply (rank_unique doc split_id x); [apply Hrank', Hx|apply Hrank, Hxc]. }
    rewrite Em, Ex. specialize (Hle x Hxc).
    destruct (Z.eq_dec (sc m) (sc x)) as [Heq|Hne]; [left|right; lia].
    apply (Hties x m (sc x)); try (now apply Hcands).
    + now apply Hrank.
    + rewrite <- Heq. now apply Hrank.
  - apply first_min_None in E. subst cands. symmetry. apply first_min_None.
    destruct cands' as [|c cands']; [reflexivity|].
    assert (Hc : In c []) by (apply Hcands, Hcands'; now left). destruct Hc.
Qed.

Lemma find_join_order_independent_witness :
  find_join insertion_order round_trip_doc "G" "XOR"
  = find_join (@rev string) round_trip_doc "G" "XOR".
Proof.
  apply (find_join_order_independent insertion_order (@rev string)
           (fun l => Permutation_refl l)
           (fun l => Permutation_sym (Permutation_rev l))).
  intros a b r (_ & (e & He & Hid & _) & Hin)
         (_ & (e' & He' & Hid' & _) & Hin') _ _. subst a b.
  simpl in He, He'.
  repeat (destruct He as [<-|He];
          [try (vm_compute in Hin; lia)|]); [|destruct He].
  repeat (destruct He' as [<-|He'];
          [try reflexivity; try (vm_compute in Hin'; lia)|]).
  destruct He'.
Defined.

(** X5. Asked for a kind other than XOR and AND, [find_join] finds no
    join, whatever the graph. *)
Theorem find_join_other_kind (set_iter : list string -> list string)
    (set_iter_perm : forall l, Permutation (set_iter l) l)
    (doc : Document) (split_id kind : string) :
  kind <> "XOR" -> kind <> "AND" ->
  find_join set_iter doc split_id kind = Done None.
Proof.
  intros Hx Ha.
  destruct (Nat.leb_spec (outdeg doc split_id) 1) as [Hfew|Hmany].
  { unfold outdeg in Hfew. now apply find_join_few. }
  destruct (find_join_parts set_iter set_iter_perm doc split_id kind Hmany)
    as (sc & cands & -> & Hcands & _).
  f_equal. apply first_min_None.
  destruct cands as [|c cands]; [reflexivity|].
  assert (Hc : join_candidate doc split_id kind c) by (apply Hcands; now left).
  destruct Hc as (_ & (e & _ & _ & [[Hk _]|[Hk _]]) & _); contradiction.
Qed.

Lemma find_join_other_kind_witness :
  find_join insertion_order round_trip_doc "G" "OR" = Done None.
Proof.
  apply (find_join_other_kind insertion_order (fun l => Permutation_refl l));
    discriminate.
Defined.

(** ** [BPMNBuilder.build] *)

Lemma build_unfold (node : Node) (x y : Z) (b : Builder) :
  build node x y b = build_body node x y b.
Proof. destruct node as [nt v cs]. reflexivity. Qed.







(** ** Counting the elements of a rendering *)

Lemma rendered_unfold (t : Node) :
  rendered_nodes t
  = (if ntype t == "SEQ" then sum_nodes (children t)
     else if ntype t == "TASK" then 1
     else if ntype t == "EVENT" then 1
     else if mem (ntype t) ["XOR"; "AND"] then 2 + sum_nodes (children t)
     else if ntype t == "LOOP" then
       match children t with
       | c0 :: c1 :: _ => rendered_nodes c0 + rendered_nodes c1
       | _ => 0
       end
     else 1)
  /\ has_exit t
     = (if ntype t == "SEQ" then last_exit (children t) false
        else if ntype t == "TASK" then true
        else if ntype t == "EVENT" then true
        else if mem (ntype t) ["XOR"; "AND"] then true
        else if ntype t == "LOOP" then
          match children t with
          | c0 :: _ => has_exit c0
          | [] => false
          end
        else true)
  /\ rendered_flows t
     = (if ntype t == "SEQ" then seq_flows (children t) false
        else if ntype t == "TASK" then 0
        else if ntype t == "EVENT" then 0
        else if mem (ntype t) ["XOR"; "AND"] then branch_flows (children t)
        else if ntype t == "LOOP" then
          match children t with
          | c0 :: c1 :: _ => rendered_flows c0 + rendered_flows c1 + 2
          | _ => 0
          end
        else 0).
Proof. destruct t as [nt v cs]. repeat split. Qed.

Lemma filter_add_ref (P : ProcessChild -> bool) (w f : string) :
  (forall tag id name refs refs',
      P (FlowNode tag id name refs) = P (FlowNode tag id name refs')) ->
  forall p i,
    List.length (filter P (add_ref i w f p)) = List.length (filter P p).
Proof.
  intros HP. induction p as [|c p IH]; intros i; [now destruct i|].
  destruct i as [|i].
  - destruct c as [tag id name refs|]; simpl; [|reflexivity].
    rewrite (HP tag id name (refs ++ [(w, f)]) refs).
    now destruct (P (FlowNode tag id name refs)).
  - destruct c; simpl; destruct (P _); simpl; rewrite IH; reflexivity.
Qed.

Lemma count_alloc (P : ProcessChild -> bool) (prefix tag name : string)
    (x y w h : Z) (m : bool) (b : Builder) :
  count P (snd (alloc prefix tag name x y w h m b))
  = count P b
    + (if P (FlowNode tag (fst (alloc prefix tag name x y w h m b)) name [])
       then 1 else 0).
Proof.
  unfold count, alloc, new_id, add_shape, add_element. cbn [fst snd process].
  rewrite filter_app, length_app. simpl. now destruct (P _).
Qed.

Lemma count_add_flow (P : ProcessChild -> bool) (src tgt : option string)
    (b : Builder) :
  (forall tag id name refs refs',
      P (FlowNode tag id name refs) = P (FlowNode tag id name refs')) ->
  count P (snd (add_flow src tgt b))
  = count P b
    + (if P (SequenceFlow (fst (add_flow src tgt b)) src tgt) then 1 else 0).
Proof.
  intros HP. unfold count, add_flow, new_id.
  cbn [fst snd process elements shapes_info next_id plane].
  assert (E : forall p1 : list ProcessChild,
             List.length
               (filter P
                  (match get_opt (elements b) tgt with
                   | Some i => add_ref i "incoming"
                                 ("Flow_" +++ str_of_nat (next_id b)) p1
                   | None => p1
                   end))
             = List.length (filter P p1)).
  { intros p1. destruct (get_opt (elements b) tgt);
      [now apply filter_add_ref|reflexivity]. }
  destruct (get_opt (shapes_info b) src), (get_opt (shapes_info b) tgt);
    cbn [fst snd process]; rewrite E;
    (destruct (get_opt (elements b) src);
     [rewrite filter_add_ref by assumption|]);
    rewrite filter_app, length_app; simpl; now destruct (P _).
Qed.

Lemma alloc_counts (prefix tag name : string) (x y w h : Z) (m : bool)
    (b : Builder) (id : string) (b1 : Builder) :
  alloc prefix tag name x y w h m b = (id, b1) ->
  count is_node b1 = count is_node b + 1
  /\ count is_sequence_flow b1 = count is_sequence_flow b.
Proof.
  intros E. replace b1 with (snd (alloc prefix tag name x y w h m b))
    by now rewrite E.
  rewrite !count_alloc. simpl. lia.
Qed.

Lemma alloc_truthy (prefix tag name : string) (x y w h : Z) (m : bool)
    (b : Builder) :
  truthy prefix = true ->
  truthy (fst (alloc prefix tag name x y w h m b)) = true.
Proof. destruct prefix; [discriminate|reflexivity]. Qed.

Lemma build_leaf_alloc (prefix tag name : string) (x y w h : Z) (b : Builder) :
  build_leaf prefix tag name x y w h b
  = Done ((Some (fst (alloc prefix tag name x y w h false b)),
           Some (fst (alloc prefix tag name x y w h false b)), x, y),
          snd (alloc prefix tag name x y w h false b)).
Proof. reflexivity. Qed.

Lemma is_node_refs tag id name refs refs' :
  is_node (FlowNode tag id name refs) = is_node (FlowNode tag id name refs').
Proof. reflexivity. Qed.

Lemma is_flow_refs tag id name refs refs' :
  is_sequence_flow (FlowNode tag id name refs)
  = is_sequence_flow (FlowNode tag id name refs').
Proof. reflexivity. Qed.

Lemma build_seq_counts (cs : list Node) :
  Forall build_counts_for cs ->
  forall fe pe x y b entry exit x' y' b',
    build_seq build cs fe pe x y b = Done ((entry, exit, x', y'), b') ->
    count is_node b' = count is_node b + sum_nodes cs
    /\ count is_sequence_flow b'
       = count is_sequence_flow b + seq_flows cs (truthy_opt pe)
    /\ truthy_opt exit = last_exit cs (truthy_opt pe).
Proof.
  induction 1 as [|c cs Hc _ IH]; intros fe pe x y b entry exit x' y' b' H.
  - simpl in H. injection H as <- <- <- <- <-. simpl. repeat split; lia.
  - simpl in H.
    destruct (build c x y b) as [[[[[e1 x1] xx] yy] b1]| |] eqn:Ec;
      try discriminate.
    cbn [bind] in H.
    destruct (Hc _ _ _ _ _ _ _ _ Ec) as (Hn & Hf & Hx).
    apply IH in H. destruct H as (Hn' & Hf' & Hx').
    rewrite Hx in Hf', Hx'. cbn [sum_nodes seq_flows last_exit].
    split; [|split; [|exact Hx']].
    + rewrite Hn'. destruct (truthy_opt pe);
        [rewrite count_add_flow by apply is_node_refs; simpl|]; lia.
    + rewrite Hf'. destruct (truthy_opt pe);
        [rewrite count_add_flow by apply is_flow_refs; simpl|]; lia.
Qed.

Lemma build_branches_counts (split_id : string) (x : Z) (cs : list Node) :
  Forall build_counts_for cs ->
  forall by_ exits b exits' b',
    build_branches build split_id x cs by_ exits b = Done (exits', b') ->
    count is_node b' = count is_node b + sum_nodes cs
    /\ count is_sequence_flow b' + List.length cs
       = count is_sequence_flow b + branch_flows cs
    /\ List.length exits' = List.length exits + List.length cs.
Proof.
  induction 1 as [|c cs Hc _ IH]; intros by_ exits b exits' b' H.
  - simpl in H. injection H as <- <-. simpl. repeat split; lia.
  - simpl in H.
    destruct (build c (x + 250)%Z by_ b) as [[[[[e1 x1] xx] yy] b1]| |] eqn:Ec;
      try discriminate.
    cbn [bind] in H.
    destruct (Hc _ _ _ _ _ _ _ _ Ec) as (Hn & Hf & _).
    apply IH in H. destruct H as (Hn' & Hf' & Hl).
    rewrite count_add_flow in Hn' by apply is_node_refs.
    rewrite count_add_flow in Hf' by apply is_flow_refs.
    rewrite length_app in Hl. simpl in *. repeat split; lia.
Qed.

Lemma join_flows_counts (join_id : string) (exits : list (option string)) :
  forall b,
    count is_node (join_flows join_id exits b) = count is_node b
    /\ count is_sequence_flow (join_flows join_id exits b)
       = count is_sequence_flow b + List.length exits.
Proof.
  unfold join_flows. induction exits as [|e exits IH]; intros b; simpl.
  - split; lia.
  - destruct (IH (snd (add_flow e (Some join_id) b))) as [-> ->].
    rewrite count_add_flow by apply is_node_refs.
    rewrite count_add_flow by apply is_flow_refs. simpl. split; lia.
Qed.

Lemma build_counts_all (t : Node) : build_counts_for t.
Proof.
  induction t as [nt v cs IH] using Node_induction.
  intros x y b entry exit x' y' b' H.
  destruct (rendered_unfold (mkNode nt v cs)) as (-> & -> & ->).
  rewrite build_unfold in H. unfold build_body in H.
  cbn [ntype value children] in *.
  destruct (nt == "SEQ").
  { apply (build_seq_counts cs IH) in H. exact H. }
  assert (Hleaf : forall prefix tag name w h,
             truthy prefix = true ->
             build_leaf prefix tag name x y w h b
             = Done ((entry, exit, x', y'), b') ->
             count is_node b' = count is_node b + 1
             /\ count is_sequence_flow b' = count is_sequence_flow b + 0
             /\ truthy_opt exit = true).
  { intros prefix tag name w h Hp Hl. rewrite build_leaf_alloc in Hl.
    assert (Eb : b' = snd (alloc prefix tag name x y w h false b))
      by congruence.
    assert (Ex : exit = Some (fst (alloc prefix tag name x y w h false b)))
      by congruence.
    rewrite Eb, Ex, !count_alloc. cbn [truthy_opt].
    rewrite alloc_truthy by exact Hp.
    simpl. repeat split; lia. }
  destruct (nt == "TASK"); [now apply Hleaf in H|].
  destruct (nt == "EVENT"); [now apply Hleaf in H|].
  destruct (mem nt ["XOR"; "AND"]).
  { destruct (alloc "Split" _ nt x y 50 50 true b) as [split_id b1] eqn:Ea.
    destruct (build_branches build split_id x cs _ [] b1)
      as [[exits b2]| |] eqn:Eb; try discriminate.
    cbn [bind] in H.
    destruct (alloc "Join" _ "Join" (x + 500)%Z y 50 50 true b2)
      as [join_id b3] eqn:Ej.
    injection H as <- <- <- <- <-.
    apply (build_branches_counts split_id x cs IH) in Eb.
    destruct Eb as (Hn & Hf & Hl).
    destruct (join_flows_counts join_id exits b3) as [-> ->].
    destruct (alloc_counts _ _ _ _ _ _ _ _ _ _ _ Ea) as [Hn1 Hf1].
    destruct (alloc_counts _ _ _ _ _ _ _ _ _ _ _ Ej) as [Hn3 Hf3].
    cbn [truthy_opt]. simpl in Hl.
    assert (Ht : truthy join_id = true).
    { replace join_id with (fst (alloc "Join"
                                   (if nt == "XOR" then "exclusiveGateway"
                                    else "parallelGateway") "Join"
                                   (x + 500)%Z y 50 50 true b2))
        by now rewrite Ej.
      reflexivity. }
    repeat split; try lia. exact Ht. }
  destruct (nt == "LOOP").
  { destruct cs as [|c0 [|c1 cs]]; try discriminate.
    - destruct (build c0 x y b) as [[[[[? ?] ?] ?] ?]| |]; discriminate.
    - inversion IH as [|? ? H0 IH']; subst.
      inversion IH' as [|? ? H1 _]; subst.
      destruct (build c0 x y b) as [[[[[e0 x0] xx] yy] b0]| |] eqn:E0;
        try discriminate.
      cbn [bind] in H.
      destruct (build c1 _ _ b0) as [[[[[e1 x1] xx1] yy1] b1]| |] eqn:E1;
        try discriminate.
      cbn [bind] in H. injection H as <- <- <- <- <-.
      destruct (H0 _ _ _ _ _ _ _ _ E0) as (Hn0 & Hf0 & Hx0).
      destruct (H1 _ _ _ _ _ _ _ _ E1) as (Hn1 & Hf1 & _).
      rewrite !count_add_flow by apply is_node_refs.
      rewrite !count_add_flow by apply is_flow_refs.
      simpl. repeat split; try lia. exact Hx0. }
  destruct (nt == "NULL"); now apply Hleaf in H.
Qed.

(** X7. A rendering adds to the process one flow node for every leaf it
    gets to and two for every branch, and one sequence flow between two
    neighbours of a sequence of which the first can be left, two for every
    child of a branch and two for every loop: the counts depend on the tree
    alone, not on the labels or on the state of the builder. *)
Theorem build_counts (t : Node) (x y : Z) (b : Builder) (r : Placed)
    (b' : Builder) :
  build t x y b = Done (r, b') ->
  count is_node b' = count is_node b + rendered_nodes t
  /\ count is_sequence_flow b' = count is_sequence_flow b + rendered_flows t.
Proof.
  destruct r as [[[entry exit] x'] y']. intros H.
  destruct (build_counts_all t _ _ _ _ _ _ _ _ H) as (Hn & Hf & _). auto.
Qed.

Lemma build_counts_witness :
  exists r b',
    build round_trip_tree 100 100 new_builder = Done (r, b')
    /\ count is_node b' = 8
    /\ count is_sequence_flow b' = 8.
Proof.
  destruct (build round_trip_tree 100 100 new_builder) as [[r b']| |] eqn:E;
    [|vm_compute in E; discriminate E..].
  exists r, b'. split; [reflexivity|].
  exact (build_counts round_trip_tree 100 100 new_builder r b' E).
Defined.
(** ** Well-formed renderings *)

(** *** Identifiers *)

Lemma uint_no_underscore (d : Decimal.uint) :
  all_chars not_underscore (NilEmpty.string_of_uint d) = true.
Proof. induction d; simpl; auto. Qed.

Lemma underscore_inside (p d : string) :
  all_chars not_underscore (p +++ String "_" d) = false.
Proof.
  induction p as [|c p IH]; [reflexivity|].
  cbn [String.append all_chars]. rewrite IH. apply andb_false_r.
Qed.

Lemma suffix_inj (d1 d2 : string) :
  all_chars not_underscore d1 = true ->
  all_chars not_underscore d2 = true ->
  forall p p', p +++ "_" +++ d1 = p' +++ "_" +++ d2 -> d1 = d2.
Proof.
  intros H1 H2. induction p as [|c p IH]; intros [|c' p'] E; simpl in E.
  - now injection E.
  - injection E as _ E. rewrite E in H1.
    now rewrite underscore_inside in H1.
  - injection E as _ E. rewrite <- E in H2.
    now rewrite underscore_inside in H2.
  - injection E as _ E. eauto.
Qed.

Lemma str_of_nat_inj (n m : nat) : str_of_nat n = str_of_nat m -> n = m.
Proof.
  unfold str_of_nat. intros E.
  apply DecimalNat.Unsigned.to_uint_inj.
  apply (f_equal NilEmpty.uint_of_string) in E.
  rewrite !NilEmpty.usu in E. now injection E.
Qed.

Lemma id_number_inj (p p' : string) (n m : nat) :
  p +++ "_" +++ str_of_nat n = p' +++ "_" +++ str_of_nat m -> n = m.
Proof.
  intros E. apply str_of_nat_inj.
  apply (suffix_inj _ _ (uint_no_underscore _) (uint_no_underscore _) p p' E).
Qed.

Lemma numbered_below_le (N M : nat) (id : string) :
  N <= M -> numbered_below N id -> numbered_below M id.
Proof. intros H (p & n & -> & Hn). exists p, n. split; [reflexivity|lia]. Qed.

Lemma numbered_fresh (N n : nat) (p : string) (l : list string) :
  Forall (numbered_below N) l -> N <= n ->
  ~ In (p +++ "_" +++ str_of_nat n) l.
Proof.
  intros Hl Hn Hin. rewrite Forall_forall in Hl.
  destruct (Hl _ Hin) as (p' & m & E & Hm).
  apply id_number_inj in E. lia.
Qed.

(** *** [add_ref] *)

Lemma add_ref_ids (P : ProcessChild -> bool) (w f : string) :
  (forall tag id name refs refs',
      P (FlowNode tag id name refs) = P (FlowNode tag id name refs')) ->
  forall p i,
    map pc_id (filter P (add_ref i w f p)) = map pc_id (filter P p).
Proof.
  intros HP. induction p as [|c p IH]; intros i; [now destruct i|].
  destruct i as [|i].
  - destruct c as [tag id name refs|]; simpl; [|reflexivity].
    rewrite (HP tag id name (refs ++ [(w, f)]) refs).
    now destruct (P (FlowNode tag id name refs)).
  - destruct c; simpl; destruct (P _); simpl; rewrite IH; reflexivity.
Qed.

Lemma add_ref_all_ids (w f : string) (p : list ProcessChild) (i : nat) :
  map pc_id (add_ref i w f p) = map pc_id p.
Proof.
  revert i. induction p as [|c p IH]; intros i; [now destruct i|].
  destruct i as [|i]; destruct c; simpl; now rewrite ?IH.
Qed.

Lemma add_ref_flow (w f : string) (c : ProcessChild) :
  is_node c = false ->
  forall p i, In c (add_ref i w f p) <-> In c p.
Proof.
  intros Hc. induction p as [|a p IH]; intros i; [now destruct i|].
  destruct i as [|i].
  - destruct a as [tag id name refs|]; simpl; [|reflexivity].
    split; (intros [<-|H]; [discriminate|auto]).
  - destruct a; simpl; rewrite IH; reflexivity.
Qed.

Lemma add_ref_node (w f : string) (tag k name : string)
    (refs : list (string * string)) :
  forall p i,
    In (FlowNode tag k name refs) p ->
    exists refs', In (FlowNode tag k name refs') (add_ref i w f p)
                  /\ incl refs refs'.
Proof.
  induction p as [|a p IH]; intros i Hin; [destruct Hin|].
  destruct i as [|i].
  - destruct Hin as [->|Hin].
    + exists (refs ++ [(w, f)]). split; [now left|].
      intros r Hr. apply in_or_app. now left.
    + exists refs. split; [|apply incl_refl].
      destruct a; right; exact Hin.
  - destruct Hin as [->|Hin].
    + exists refs. split; [now left|apply incl_refl].
    + destruct (IH i Hin) as (refs' & H1 & H2). exists refs'.
      split; [|exact H2]. destruct a; right; exact H1.
Qed.

Lemma add_ref_nth (w f : string) (tag k name : string) :
  forall p i j refs,
    nth_error p j = Some (FlowNode tag k name refs) ->
    exists refs', nth_error (add_ref i w f p) j
                  = Some (FlowNode tag k name refs')
                  /\ (i = j -> In (w, f) refs').
Proof.
  induction p as [|a p IH]; intros i j refs Hj; [now destruct j|].
  destruct i as [|i], j as [|j]; simpl in Hj.
  - injection Hj as ->. exists (refs ++ [(w, f)]). split; [reflexivity|].
    intros _. apply in_or_app. right. now left.
  - exists refs. split; [|discriminate]. destruct a; exact Hj.
  - injection Hj as ->. exists refs. split; [reflexivity|discriminate].
  - destruct (IH i j refs Hj) as (refs' & H1 & H2). exists refs'.
    split; [destruct a; exact H1|]. intros E. apply H2. now injection E.
Qed.

Lemma has_ref_add_ref (w f : string) (p : list ProcessChild) (i : nat)
    (o : option string) (which fid : string) :
  has_ref p o which fid -> has_ref (add_ref i w f p) o which fid.
Proof.
  destruct o as [k|]; [|trivial]. intros (tag & name & refs & Hin & Hr).
  destruct (add_ref_node w f tag k name refs p i Hin) as (refs' & H1 & H2).
  exists tag, name, refs'. split; [exact H1|apply H2, Hr].
Qed.

Lemma has_ref_app (p q : list ProcessChild) (o : option string)
    (which fid : string) :
  has_ref p o which fid -> has_ref (p ++ q) o which fid.
Proof.
  destruct o as [k|]; [|trivial]. intros (tag & name & refs & Hin & Hr).
  exists tag, name, refs. split; [apply in_or_app; now left|exact Hr].
Qed.

Lemma has_ref_refd (elems : dict nat) (o' : option string) (w f : string)
    (p : list ProcessChild) (o : option string) (which fid : string) :
  has_ref p o which fid -> has_ref (refd elems o' w f p) o which fid.
Proof.
  unfold refd. destruct (get_opt elems o'); [apply has_ref_add_ref|auto].
Qed.

Lemma refd_ids (P : ProcessChild -> bool) (elems : dict nat)
    (o : option string) (w f : string) (p : list ProcessChild) :
  (forall tag id name refs refs',
      P (FlowNode tag id name refs) = P (FlowNode tag id name refs')) ->
  map pc_id (filter P (refd elems o w f p)) = map pc_id (filter P p).
Proof.
  intros HP. unfold refd.
  destruct (get_opt elems o); [now apply add_ref_ids|reflexivity].
Qed.

Lemma refd_all_ids (elems : dict nat) (o : option string) (w f : string)
    (p : list ProcessChild) :
  map pc_id (refd elems o w f p) = map pc_id p.
Proof.
  unfold refd. destruct (get_opt elems o); [apply add_ref_all_ids|reflexivity].
Qed.

Lemma refd_flow (elems : dict nat) (o : option string) (w f : string)
    (p : list ProcessChild) (c : ProcessChild) :
  is_node c = false -> (In c (refd elems o w f p) <-> In c p).
Proof.
  intros Hc. unfold refd.
  destruct (get_opt elems o); [now apply add_ref_flow|reflexivity].
Qed.

Lemma refd_nth (elems : dict nat) (o : option string) (w f : string)
    (p : list ProcessChild) (j : nat) (tag k name : string)
    (refs : list (string * string)) :
  nth_error p j = Some (FlowNode tag k name refs) ->
  exists refs', nth_error (refd elems o w f p) j
                = Some (FlowNode tag k name refs')
                /\ (get_opt elems o = Some j -> In (w, f) refs').
Proof.
  intros Hj. unfold refd. destruct (get_opt elems o) as [i|].
  - destruct (add_ref_nth w f tag k name p i j refs Hj) as (refs' & H1 & H2).
    exists refs'. split; [exact H1|]. intros E. apply H2. now injection E.
  - exists refs. split; [exact Hj|discriminate].
Qed.

(** *** [alloc] and [add_flow] keep a builder well formed *)

Lemma edge_ids_app (a b : list PlaneChild) :
  edge_ids (a ++ b) = edge_ids a ++ edge_ids b.
Proof. induction a as [|[] a IH]; simpl; now rewrite ?IH. Qed.

Lemma edge_refs_app (a b : list PlaneChild) :
  edge_refs (a ++ b) = edge_refs a ++ edge_refs b.
Proof. induction a as [|[] a IH]; simpl; now rewrite ?IH. Qed.

Lemma shape_refs_app (a b : list PlaneChild) :
  shape_refs (a ++ b) = shape_refs a ++ shape_refs b.
Proof. induction a as [|[] a IH]; simpl; now rewrite ?IH. Qed.

Lemma known_elements (b b' : Builder) (o : option string) :
  elements b' = elements b -> known b o -> known b' o.
Proof. intros E. destruct o; simpl; [now rewrite E|trivial]. Qed.

Lemma known_extends (b b' : Builder) (o : option string) :
  extends b b' -> known b o -> known b' o.
Proof. intros E. destruct o; simpl; [apply E|trivial]. Qed.

Lemma extends_elements (b b' : Builder) :
  elements b' = elements b -> extends b b'.
Proof. intros E k. now rewrite E. Qed.

Lemma extends_trans (b1 b2 b3 : Builder) :
  extends b1 b2 -> extends b2 b3 -> extends b1 b3.
Proof. intros H1 H2 k Hk. apply H2, H1, Hk. Qed.

Lemma both_ends_refs tag id name refs refs' :
  both_ends (FlowNode tag id name refs) = both_ends (FlowNode tag id name refs').
Proof. reflexivity. Qed.

Lemma known_get (b : Builder) (k : string) :
  wf_builder b -> dict_mem (elements b) k = true ->
  (exists i tag name refs,
      dict_get (elements b) k = Some i
      /\ nth_error (process b) i = Some (FlowNode tag k name refs))
  /\ exists s, dict_get (shapes_info b) k = Some s.
Proof.
  intros (_ & _ & Hc & Hd & _) Hk. split.
  - unfold dict_mem in Hk.
    destruct (dict_get (elements b) k) as [i|] eqn:E; [|discriminate].
    destruct (Hc k i E) as (tag & name & refs & Hn). eauto 6.
  - rewrite <- Hd in Hk. unfold dict_mem in Hk.
    destruct (dict_get (shapes_info b) k); [eauto|discriminate].
Qed.

Lemma add_flow_fields (src tgt : option string) (b : Builder) :
  elements (snd (add_flow src tgt b)) = elements b
  /\ shapes_info (snd (add_flow src tgt b)) = shapes_info b
  /\ process (snd (add_flow src tgt b))
     = refd (elements b) tgt "incoming" ("Flow" +++ "_" +++ str_of_nat (next_id b))
         (refd (elements b) src "outgoing"
            ("Flow" +++ "_" +++ str_of_nat (next_id b))
            (process b
             ++ [SequenceFlow ("Flow" +++ "_" +++ str_of_nat (next_id b))
                              src tgt]))
  /\ shape_refs (plane (snd (add_flow src tgt b))) = shape_refs (plane b)
  /\ match get_opt (shapes_info b) src, get_opt (shapes_info b) tgt with
     | Some _, Some _ =>
         next_id (snd (add_flow src tgt b)) = S (S (next_id b))
         /\ edge_ids (plane (snd (add_flow src tgt b)))
            = edge_ids (plane b)
              ++ ["Edge" +++ "_" +++ str_of_nat (S (next_id b))]
         /\ edge_refs (plane (snd (add_flow src tgt b)))
            = edge_refs (plane b)
              ++ ["Flow" +++ "_" +++ str_of_nat (next_id b)]
     | _, _ =>
         next_id (snd (add_flow src tgt b)) = S (next_id b)
         /\ plane (snd (add_flow src tgt b)) = plane b
     end.
Proof.
  unfold add_flow, new_id, refd.
  cbn [fst snd process elements shapes_info next_id plane].
  destruct (get_opt (shapes_info b) src), (get_opt (shapes_info b) tgt);
    cbn [fst snd process elements shapes_info next_id plane];
    rewrite ?edge_ids_app, ?edge_refs_app, ?shape_refs_app, ?app_nil_r;
    repeat split; reflexivity.
Qed.

Lemma perm_two (A E : list string) (f e : string) :
  Permutation (e :: f :: A ++ E) ((A ++ [f]) ++ E ++ [e]).
Proof.
  rewrite <- app_assoc. simpl.
  etransitivity; [apply perm_swap|].
  apply Permutation_cons_app. rewrite app_assoc.
  apply Permutation_cons_append.
Qed.

Lemma perm_one (A E : list string) (f : string) :
  Permutation (f :: A ++ E) ((A ++ [f]) ++ E).
Proof.
  rewrite <- app_assoc. simpl. now apply Permutation_cons_app.
Qed.

Lemma add_flow_wf (src tgt : option string) (b : Builder) :
  wf_builder b -> known b src -> known b tgt ->
  wf_builder (snd (add_flow src tgt b))
  /\ elements (snd (add_flow src tgt b)) = elements b.
Proof.
  intros Hwf Hs Ht.
  destruct (add_flow_fields src tgt b) as (Ee & Es & Ep & Esh & Hpl).
  split; [|exact Ee].
  set (b' := snd (add_flow src tgt b)) in *.
  set (fid := "Flow" +++ "_" +++ str_of_nat (next_id b)) in *.
  assert (Hsrc : match src with
                 | Some k => exists s, get_opt (shapes_info b) src = Some s
                 | None => get_opt (shapes_info b) src = None
                 end).
  { destruct src as [k|]; [|reflexivity]. apply (known_get b k Hwf Hs). }
  assert (Htgt : match tgt with
                 | Some k => exists s, get_opt (shapes_info b) tgt = Some s
                 | None => get_opt (shapes_info b) tgt = None
                 end).
  { destruct tgt as [k|]; [|reflexivity]. apply (known_get b k Hwf Ht). }
  pose proof Hwf as (Ha & Hb & Hc & Hd & He & Hf & Hg).
  assert (Hfresh : forall p n, next_id b <= n ->
                     ~ In (p +++ "_" +++ str_of_nat n) (all_ids b)).
  { intros p n Hn. now apply numbered_fresh with (N := next_id b). }
  assert (Hids : Forall (numbered_below (next_id b')) (all_ids b')
                 /\ NoDup (all_ids b')).
  { unfold all_ids in *. rewrite Ep, !refd_all_ids, map_app. simpl.
    destruct (get_opt (shapes_info b) src), (get_opt (shapes_info b) tgt);
      destruct Hpl as (-> & Hpl).
    1: { destruct Hpl as (-> & _).
         split.
         - eapply Permutation_Forall; [apply perm_two|].
           constructor; [exists "Edge", (S (next_id b)); split; [reflexivity|lia]|].
           constructor; [exists "Flow", (next_id b); split; [reflexivity|lia]|].
           eapply Forall_impl; [|exact Ha].
           intros id. apply numbered_below_le. lia.
         - eapply Permutation_NoDup; [apply perm_two|].
           constructor.
           + intros [E|Hin]; [apply id_number_inj in E; lia|].
             revert Hin. apply Hfresh. lia.
           + constructor; [apply Hfresh; lia|exact Hb]. }
    all: rewrite Hpl; split;
      [ eapply Permutation_Forall; [apply perm_one|];
        constructor; [exists "Flow", (next_id b); split; [reflexivity|lia]|];
        eapply Forall_impl; [|exact Ha];
        intros id; apply numbered_below_le; lia
      | eapply Permutation_NoDup; [apply perm_one|];
        constructor; [apply Hfresh; lia|exact Hb] ]. }
  destruct Hids as [Ha' Hb'].
  assert (Hnth : forall i tag k name refs,
             nth_error (process b) i = Some (FlowNode tag k name refs) ->
             exists refs1,
               nth_error (refd (elements b) src "outgoing" fid
                            (process b ++ [SequenceFlow fid src tgt])) i
               = Some (FlowNode tag k name refs1)
               /\ (get_opt (elements b) src = Some i ->
                   In ("outgoing", fid) refs1)).
  { intros i tag k name refs Hi. apply refd_nth with (refs := refs).
    rewrite nth_error_app1; [exact Hi|].
    apply nth_error_Some. now rewrite Hi. }
  split; [exact Ha'|]. split; [exact Hb'|].
  split; [|split; [|split; [|split]]].
  - intros k i Hk. rewrite Ee in Hk.
    destruct (Hc k i Hk) as (tag & name & refs & Hi).
    destruct (Hnth _ _ _ _ _ Hi) as (refs1 & H1 & _).
    destruct (refd_nth (elements b) tgt "incoming" fid _ _ _ _ _ _ H1)
      as (refs2 & H2 & _).
    rewrite Ep. eauto.
  - intros k. now rewrite Es, Ee.
  - intros f s t Hin. rewrite Ep in Hin |- *.
    apply refd_flow in Hin; [|reflexivity].
    apply refd_flow in Hin; [|reflexivity].
    apply in_app_or in Hin. destruct Hin as [Hin|[E|[]]].
    + destruct (He f s t Hin) as (K1 & K2 & R1 & R2).
      split; [now apply (known_elements b)|].
      split; [now apply (known_elements b)|].
      split; apply has_ref_refd, has_ref_refd, has_ref_app; assumption.
    + injection E as <- <- <-.
      split; [now apply (known_elements b)|].
      split; [now apply (known_elements b)|].
      split.
      * apply has_ref_refd. destruct src as [k|]; [|exact I].
        destruct (known_get b k Hwf Hs)
          as ((i & tag & name & refs & Hk & Hi) & _).
        destruct (Hnth _ _ _ _ _ Hi) as (refs1 & H1 & Hr).
        exists tag, name, refs1. split; [|apply Hr, Hk].
        eapply nth_error_In, H1.
      * destruct tgt as [k|]; [|exact I].
        destruct (known_get b k Hwf Ht)
          as ((i & tag & name & refs & Hk & Hi) & _).
        destruct (Hnth _ _ _ _ _ Hi) as (refs1 & H1 & _).
        destruct (refd_nth (elements b) (Some k) "incoming" fid _ _ _ _ _ _ H1)
          as (refs2 & H2 & Hr).
        exists tag, name, refs2. split; [|apply Hr, Hk].
        eapply nth_error_In, H2.
  - rewrite Esh, Hf, Ep.
    rewrite !refd_ids by apply is_node_refs.
    rewrite filter_app. simpl. now rewrite app_nil_r.
  - rewrite Ep. rewrite !refd_ids by apply both_ends_refs.
    rewrite filter_app, map_app, <- Hg.
    destruct src as [ks|], tgt as [kt|];
      try destruct Hsrc as (s0 & Hsrc); try destruct Htgt as (t0 & Htgt);
      rewrite Hsrc, ?Htgt in Hpl.
    + destruct Hpl as (_ & _ & ->). reflexivity.
    + destruct Hpl as (_ & ->). simpl. now rewrite app_nil_r.
    + destruct Hpl as (_ & ->). simpl. now rewrite app_nil_r.
    + destruct Hpl as (_ & ->). simpl. now rewrite app_nil_r.
Qed.

Lemma alloc_wf (prefix tag name : string) (x y w h : Z) (m : bool)
    (b : Builder) :
  wf_builder b ->
  wf_builder (snd (alloc prefix tag name x y w h m b))
  /\ extends b (snd (alloc prefix tag name x y w h m b))
  /\ known (snd (alloc prefix tag name x y w h m b))
           (Some (fst (alloc prefix tag name x y w h m b))).
Proof.
  intros (Ha & Hb & Hc & Hd & He & Hf & Hg).
  unfold alloc, new_id, add_shape, add_element.
  cbn [fst snd process elements shapes_info next_id plane].
  set (id := prefix +++ "_" +++ str_of_nat (next_id b)).
  assert (Hext : forall k, dict_mem (elements b) k = true ->
                   dict_mem (dict_set (elements b) id (List.length (process b)))
                            k = true).
  { intros k Hk. rewrite dict_mem_set, Hk. apply orb_true_r. }
  split; [|split; [exact Hext|]].
  2: { simpl. rewrite dict_mem_set, String.eqb_refl. reflexivity. }
  unfold wf_builder, all_ids, known.
  cbn [fst snd process elements shapes_info next_id plane].
  rewrite map_app, edge_ids_app, edge_refs_app, shape_refs_app, !filter_app,
    !map_app. simpl. rewrite !app_nil_r.
  split; [|split; [|split; [|split; [|split; [|split]]]]].
  - eapply Permutation_Forall; [apply perm_one|].
    constructor; [exists prefix, (next_id b); split; [reflexivity|lia]|].
    eapply Forall_impl; [|exact Ha].
    intros i. apply numbered_below_le. lia.
  - eapply Permutation_NoDup; [apply perm_one|].
    constructor; [|exact Hb].
    apply numbered_fresh with (N := next_id b); [exact Ha|lia].
  - intros k i. rewrite dict_get_set.
    destruct (String.eqb_spec k id) as [->|Hne]; intros Hk.
    + injection Hk as <-. exists tag, name, [].
      rewrite nth_error_app2 by lia. now rewrite Nat.sub_diag.
    + destruct (Hc k i Hk) as (tag' & name' & refs & Hi).
      exists tag', name', refs. rewrite nth_error_app1; [exact Hi|].
      apply nth_error_Some. now rewrite Hi.
  - intros k. now rewrite !dict_mem_set, Hd.
  - intros f s t Hin. apply in_app_or in Hin.
    destruct Hin as [Hin|[E|[]]]; [|discriminate].
    destruct (He f s t Hin) as (K1 & K2 & R1 & R2).
    split; [destruct s; [apply Hext, K1|exact I]|].
    split; [destruct t; [apply Hext, K2|exact I]|].
    split; apply has_ref_app; assumption.
  - now rewrite Hf.
  - exact Hg.
Qed.

(** *** [build] keeps a builder well formed *)

Lemma build_seq_wf (cs : list Node) :
  Forall build_wf_for cs ->
  forall fe pe x y b entry exit x' y' b',
    wf_builder b -> known b fe -> known b pe ->
    build_seq build cs fe pe x y b = Done ((entry, exit, x', y'), b') ->
    wf_builder b' /\ extends b b' /\ known b' entry /\ known b' exit.
Proof.
  induction 1 as [|c cs Hc _ IH];
    intros fe pe x y b entry exit x' y' b' Hwf Hfe Hpe H.
  - simpl in H. injection H as <- <- <- <- <-.
    split; [exact Hwf|]. split; [intros k Hk; exact Hk|].
    split; [|exact Hpe]. unfold or_opt. now destruct (truthy_opt fe).
  - simpl in H.
    destruct (build c x y b) as [[[[[e1 x1] xx] yy] b1]| |] eqn:Ec;
      try discriminate.
    cbn [bind] in H.
    destruct (Hc _ _ _ _ _ _ _ _ Hwf Ec) as (Hwf1 & Hx1 & Ke & Kx).
    set (b2 := if truthy_opt pe then snd (add_flow pe e1 b1) else b1) in H.
    assert (H2 : wf_builder b2 /\ elements b2 = elements b1).
    { subst b2. destruct (truthy_opt pe); [|now split].
      apply add_flow_wf; [exact Hwf1| |exact Ke].
      now apply (known_extends b). }
    destruct H2 as [Hwf2 E2].
    apply IH in H; [|exact Hwf2| |now apply (known_elements b1)].
    + destruct H as (Hwf' & Hx' & Ke' & Kx').
      split; [exact Hwf'|]. split; [|now split].
      apply (extends_trans b b1); [exact Hx1|].
      apply (extends_trans b1 b2); [now apply extends_elements|exact Hx'].
    + destruct fe as [f|]; [|now apply (known_elements b1)].
      apply (known_elements b1); [exact E2|].
      now apply (known_extends b).
Qed.

Lemma build_branches_wf (split_id : string) (x : Z) (cs : list Node) :
  Forall build_wf_for cs ->
  forall by_ exits b exits' b',
    wf_builder b -> known b (Some split_id) -> Forall (known b) exits ->
    build_branches build split_id x cs by_ exits b = Done (exits', b') ->
    wf_builder b' /\ extends b b' /\ Forall (known b') exits'.
Proof.
  induction 1 as [|c cs Hc _ IH];
    intros by_ exits b exits' b' Hwf Hs Hex H.
  - simpl in H. injection H as <- <-.
    split; [exact Hwf|]. split; [intros k Hk; exact Hk|exact Hex].
  - simpl in H.
    destruct (build c (x + 250)%Z by_ b) as [[[[[e1 x1] xx] yy] b1]| |] eqn:Ec;
      try discriminate.
    cbn [bind] in H.
    destruct (Hc _ _ _ _ _ _ _ _ Hwf Ec) as (Hwf1 & Hx1 & Ke & Kx).
    destruct (add_flow_wf (Some split_id) e1 b1 Hwf1) as [Hwf2 E2];
      [now apply (known_extends b)|exact Ke|].
    apply IH in H; [|exact Hwf2|now apply (known_elements b1), (known_extends b)|].
    + destruct H as (Hwf' & Hx' & Hex').
      split; [exact Hwf'|]. split; [|exact Hex'].
      apply (extends_trans b b1); [exact Hx1|].
      apply (extends_trans b1 (snd (add_flow (Some split_id) e1 b1)));
        [now apply extends_elements|exact Hx'].
    + apply Forall_app. split.
      * eapply Forall_impl; [|exact Hex].
        intros o Ho. now apply (known_elements b1), (known_extends b).
      * constructor; [|constructor]. now apply (known_elements b1).
Qed.

Lemma join_flows_wf (join_id : string) (exits : list (option string)) :
  forall b,
    wf_builder b -> known b (Some join_id) -> Forall (known b) exits ->
    wf_builder (join_flows join_id exits b)
    /\ elements (join_flows join_id exits b) = elements b.
Proof.
  unfold join_flows. induction exits as [|e exits IH]; intros b Hwf Hj Hex.
  - now split.
  - inversion Hex as [|? ? He Hex']; subst. simpl.
    destruct (add_flow_wf e (Some join_id) b Hwf He Hj) as [Hwf1 E1].
    destruct (IH (snd (add_flow e (Some join_id) b))) as [Hwf2 E2].
    + exact Hwf1.
    + now apply (known_elements b).
    + eapply Forall_impl; [|exact Hex'].
      intros o. now apply known_elements.
    + split; [exact Hwf2|]. now rewrite E2.
Qed.

Lemma build_wf_all (t : Node) : build_wf_for t.
Proof.
  induction t as [nt v cs IH] using Node_induction.
  intros x y b entry exit x' y' b' Hwf H.
  rewrite build_unfold in H. unfold build_body in H.
  cbn [ntype value children] in *.
  destruct (nt == "SEQ").
  { apply (build_seq_wf cs IH) in H; [exact H|exact Hwf|exact I|exact I]. }
  assert (Hleaf : forall prefix tag name w h,
             build_leaf prefix tag name x y w h b
             = Done ((entry, exit, x', y'), b') ->
             wf_builder b' /\ extends b b' /\ known b' entry /\ known b' exit).
  { intros prefix tag name w h Hl. rewrite build_leaf_alloc in Hl.
    assert (Eb : b' = snd (alloc prefix tag name x y w h false b))
      by congruence.
    assert (Ee : entry = Some (fst (alloc prefix tag name x y w h false b)))
      by congruence.
    assert (Ex : exit = Some (fst (alloc prefix tag name x y w h false b)))
      by congruence.
    rewrite Eb, Ee, Ex.
    destruct (alloc_wf prefix tag name x y w h false b Hwf) as (H1 & H2 & H3).
    auto. }
  destruct (nt == "TASK"); [now apply Hleaf in H|].
  destruct (nt == "EVENT"); [now apply Hleaf in H|].
  destruct (mem nt ["XOR"; "AND"]).
  { pose proof (alloc_wf "Split"
                  (if nt == "XOR" then "exclusiveGateway"
                   else "parallelGateway") nt x y 50 50 true b Hwf)
      as (Hwf1 & Hx1 & Ks).
    destruct (alloc "Split" _ nt x y 50 50 true b) as [split_id b1].
    cbn [fst snd] in *.
    destruct (build_branches build split_id x cs _ [] b1)
      as [[exits b2]| |] eqn:Eb; try discriminate.
    cbn [bind] in H.
    apply (build_branches_wf split_id x cs IH) in Eb;
      [|exact Hwf1|exact Ks|constructor].
    destruct Eb as (Hwf2 & Hx2 & Hex).
    pose proof (alloc_wf "Join"
                  (if nt == "XOR" then "exclusiveGateway"
                   else "parallelGateway") "Join" (x + 500)%Z y 50 50 true
                  b2 Hwf2) as (Hwf3 & Hx3 & Kj).
    destruct (alloc "Join" _ "Join" (x + 500)%Z y 50 50 true b2)
      as [join_id b3].
    cbn [fst snd] in *.
    injection H as <- <- <- <- <-.
    destruct (join_flows_wf join_id exits b3 Hwf3 Kj) as [Hwf4 E4].
    { eapply Forall_impl; [|exact Hex].
      intros o. now apply known_extends. }
    split; [exact Hwf4|].
    assert (Hx : extends b (join_flows join_id exits b3)).
    { apply (extends_trans b b1); [exact Hx1|].
      apply (extends_trans b1 b2); [exact Hx2|].
      apply (extends_trans b2 b3); [exact Hx3|].
      now apply extends_elements. }
    split; [exact Hx|]. split.
    - apply (known_elements b3); [exact E4|].
      apply (known_extends b2); [exact Hx3|].
      now apply (known_extends b1).
    - now apply (known_elements b3). }
  destruct (nt == "LOOP").
  { destruct cs as [|c0 [|c1 cs]]; try discriminate.
    - destruct (build c0 x y b) as [[[[[? ?] ?] ?] ?]| |]; discriminate.
    - inversion IH as [|? ? H0 IH']; subst.
      inversion IH' as [|? ? H1 _]; subst.
      destruct (build c0 x y b) as [[[[[e0 x0] xx] yy] b0]| |] eqn:E0;
        try discriminate.
      cbn [bind] in H.
      destruct (build c1 _ _ b0) as [[[[[e1 x1] xx1] yy1] b1]| |] eqn:E1;
        try discriminate.
      cbn [bind] in H. injection H as <- <- <- <- <-.
      destruct (H0 _ _ _ _ _ _ _ _ Hwf E0) as (Hwf0 & Hx0 & Ke0 & Kx0).
      destruct (H1 _ _ _ _ _ _ _ _ Hwf0 E1) as (Hwf1 & Hx1 & Ke1 & Kx1).
      destruct (add_flow_wf x0 e1 b1 Hwf1) as [Hwf2 E2];
        [now apply (known_extends b0)|exact Ke1|].
      destruct (add_flow_wf x1 e0 (snd (add_flow x0 e1 b1)) Hwf2)
        as [Hwf3 E3].
      { now apply (known_elements b1). }
      { now apply (known_elements b1), (known_extends b0). }
      split; [exact Hwf3|].
      assert (E : elements (snd (add_flow x1 e0 (snd (add_flow x0 e1 b1))))
                  = elements b1) by now rewrite E3.
      split.
      + apply (extends_trans b b0); [exact Hx0|].
        apply (extends_trans b0 b1); [exact Hx1|].
        now apply extends_elements.
      + split; apply (known_elements b1); try exact E;
          now apply (known_extends b0). }
  destruct (nt == "NULL"); now apply Hleaf in H.
Qed.

Lemma wf_new_builder : wf_builder new_builder.
Proof.
  unfold wf_builder, new_builder, all_ids. simpl.
  split; [constructor|]. split; [constructor|].
  split; [discriminate|]. split; [reflexivity|].
  split; [intros ? ? ? []|]. split; reflexivity.
Qed.

(** X8. The identifiers of a rendering are pairwise distinct: no two of
    the flow nodes, sequence flows and diagram edges that [build] creates
    in a new builder share an [id]. *)
Theorem build_ids_unique (t : Node) (x y : Z) (r : Placed) (b' : Builder) :
  build t x y new_builder = Done (r, b') ->
  NoDup (all_ids b').
Proof.
  destruct r as [[[entry exit] x'] y']. intros H.
  destruct (build_wf_all t _ _ _ _ _ _ _ _ wf_new_builder H)
    as ((_ & Hb & _) & _).
  exact Hb.
Qed.

Lemma build_ids_unique_witness :
  exists r b',
    build round_trip_tree 100 100 new_builder = Done (r, b')
    /\ NoDup (all_ids b').
Proof.
  destruct (build round_trip_tree 100 100 new_builder) as [[r b']| |] eqn:E;
    [|vm_compute in E; discriminate E..].
  exists r, b'. split; [reflexivity|].
  exact (build_ids_unique round_trip_tree 100 100 r b' E).
Defined.

(** X9. The sequence flows of a rendering are connected: the source and
    the target of every sequence flow, where it has one, is the [id] of a
    flow node of the process, and that node lists the flow among its
    [outgoing], respectively [incoming], sub-elements. *)
Theorem build_flows_connected (t : Node) (x y : Z) (r : Placed)
    (b' : Builder) (fid : string) (s d : option string) :
  build t x y new_builder = Done (r, b') ->
  In (SequenceFlow fid s d) (process b') ->
  has_ref (process b') s "outgoing" fid
  /\ has_ref (process b') d "incoming" fid.
Proof.
  destruct r as [[[entry exit] x'] y']. intros H Hin.
  destruct (build_wf_all t _ _ _ _ _ _ _ _ wf_new_builder H)
    as ((_ & _ & _ & _ & He & _) & _).
  destruct (He fid s d Hin) as (_ & _ & R1 & R2). now split.
Qed.

Lemma build_flows_connected_witness :
  exists r b',
    build round_trip_tree 100 100 new_builder = Done (r, b')
    /\ has_ref (process b') (Some "Event_1") "outgoing" "Flow_3"
    /\ has_ref (process b') (Some "Task_2") "incoming" "Flow_3".
Proof.
  destruct (build round_trip_tree 100 100 new_builder) as [[r b']| |] eqn:E;
    [|vm_compute in E; discriminate E..].
  exists r, b'. split; [reflexivity|].
  refine (build_flows_connected round_trip_tree 100 100 r b' "Flow_3"
            (Some "Event_1") (Some "Task_2") E _).
  vm_compute in E. injection E as _ <-. simpl. tauto.
Defined.

(** X10. The diagram of a rendering mirrors its process: the shapes
    stand for the flow nodes, one each and in the same order, and the edges
    for the sequence flows that have both a source and a target, one each
    and in the same order. *)
Theorem build_diagram_mirrors_process (t : Node) (x y : Z) (r : Placed)
    (b' : Builder) :
  build t x y new_builder = Done (r, b') ->
  shape_refs (plane b') = map pc_id (filter is_node (process b'))
  /\ edge_refs (plane b') = map pc_id (filter both_ends (process b')).
Proof.
  destruct r as [[[entry exit] x'] y']. intros H.
  destruct (build_wf_all t _ _ _ _ _ _ _ _ wf_new_builder H)
    as ((_ & _ & _ & _ & _ & Hf & Hg) & _).
  now split.
Qed.

Lemma build_diagram_mirrors_process_witness :
  exists r b',
    build round_trip_tree 100 100 new_builder = Done (r, b')
    /\ shape_refs (plane b') = map pc_id (filter is_node (process b'))
    /\ edge_refs (plane b') = map pc_id (filter both_ends (process b')).
Proof.
  destruct (build round_trip_tree 100 100 new_builder) as [[r b']| |] eqn:E;
    [|vm_compute in E; discriminate E..].
  exists r, b'. split; [reflexivity|].
  exact (build_diagram_mirrors_process round_trip_tree 100 100 r b' E).
Defined.

(** *** Renderings without dangling flows *)

Lemma solid_unfold (t : Node) :
  solid t
  = if ntype t == "SEQ" then
      match children t with
      | [] => false
      | _ => forallb solid (children t)
      end
    else if mem (ntype t) ["XOR"; "AND"] then forallb solid (children t)
    else if ntype t == "LOOP" then
      match children t with
      | c0 :: c1 :: _ => solid c0 && solid c1
      | _ => false
      end
    else true.
Proof. destruct t as [nt v [|c cs]]; reflexivity. Qed.

Lemma truthy_Some (o : option string) :
  truthy_opt o = true -> exists k, o = Some k.
Proof. destruct o; [eauto|discriminate]. Qed.

Lemma add_flow_both (s d : option string) (b : Builder) :
  truthy_opt s = true -> truthy_opt d = true -> all_both b ->
  all_both (snd (add_flow s d b)).
Proof.
  intros Hs Hd Hb c Hin Hc.
  destruct (add_flow_fields s d b) as (_ & _ & Ep & _).
  rewrite Ep in Hin.
  apply refd_flow in Hin; [|exact Hc].
  apply refd_flow in Hin; [|exact Hc].
  apply in_app_or in Hin. destruct Hin as [Hin|[<-|[]]]; [now apply Hb|].
  destruct (truthy_Some s Hs) as (ks & ->).
  destruct (truthy_Some d Hd) as (kd & ->). reflexivity.
Qed.

Lemma alloc_both (prefix tag name : string) (x y w h : Z) (m : bool)
    (b : Builder) :
  all_both b -> all_both (snd (alloc prefix tag name x y w h m b)).
Proof.
  intros Hb c Hin Hc. unfold alloc, new_id, add_shape, add_element in Hin.
  cbn [fst snd process] in Hin. apply in_app_or in Hin.
  destruct Hin as [Hin|[<-|[]]]; [now apply Hb|discriminate].
Qed.

Lemma build_seq_solid (cs : list Node) :
  Forall build_solid_for cs ->
  forall fe pe x y b entry exit x' y' b',
    forallb solid cs = true -> all_both b ->
    (fe = None /\ pe = None /\ cs <> [])
    \/ (truthy_opt fe = true /\ truthy_opt pe = true) ->
    build_seq build cs fe pe x y b = Done ((entry, exit, x', y'), b') ->
    truthy_opt entry = true /\ truthy_opt exit = true /\ all_both b'.
Proof.
  induction 1 as [|c cs Hc _ IH];
    intros fe pe x y b entry exit x' y' b' Hs Hb Hinv H.
  - simpl in H. injection H as <- <- <- <- <-.
    destruct Hinv as [(_ & _ & Hne)|[Hfe Hpe]]; [now contradiction Hne|].
    unfold or_opt. rewrite Hfe. auto.
  - simpl in H, Hs. apply andb_true_iff in Hs. destruct Hs as [Hsc Hs].
    destruct (build c x y b) as [[[[[e1 x1] xx] yy] b1]| |] eqn:Ec;
      try discriminate.
    cbn [bind] in H.
    destruct (Hc _ _ _ _ _ _ _ _ Hsc Hb Ec) as (Te & Tx & Hb1).
    apply IH in H; [exact H|exact Hs| |].
    + destruct (truthy_opt pe) eqn:Tp; [|exact Hb1].
      now apply add_flow_both.
    + right. split; [|exact Tx].
      destruct Hinv as [(-> & _)|[Hfe _]]; [exact Te|].
      destruct fe; [exact Hfe|discriminate].
Qed.

Lemma build_branches_solid (split_id : string) (x : Z) (cs : list Node) :
  truthy split_id = true ->
  Forall build_solid_for cs ->
  forall by_ exits b exits' b',
    forallb solid cs = true -> all_both b ->
    Forall (fun o => truthy_opt o = true) exits ->
    build_branches build split_id x cs by_ exits b = Done (exits', b') ->
    all_both b' /\ Forall (fun o => truthy_opt o = true) exits'.
Proof.
  intros Hsp. induction 1 as [|c cs Hc _ IH];
    intros by_ exits b exits' b' Hs Hb Hex H.
  - simpl in H. injection H as <- <-. now split.
  - simpl in H, Hs. apply andb_true_iff in Hs. destruct Hs as [Hsc Hs].
    destruct (build c (x + 250)%Z by_ b) as [[[[[e1 x1] xx] yy] b1]| |] eqn:Ec;
      try discriminate.
    cbn [bind] in H.
    destruct (Hc _ _ _ _ _ _ _ _ Hsc Hb Ec) as (Te & Tx & Hb1).
    apply IH in H; [exact H|exact Hs| |].
    + now apply add_flow_both.
    + apply Forall_app. split; [exact Hex|]. now constructor.
Qed.

Lemma join_flows_both (join_id : string) (exits : list (option string)) :
  truthy join_id = true ->
  forall b,
    all_both b -> Forall (fun o => truthy_opt o = true) exits ->
    all_both (join_flows join_id exits b).
Proof.
  intros Hj. unfold join_flows.
  induction exits as [|e exits IH]; intros b Hb Hex; [exact Hb|].
  inversion Hex as [|? ? He Hex']; subst. simpl.
  apply IH; [|exact Hex']. now apply add_flow_both.
Qed.

Lemma build_solid_all (t : Node) : build_solid_for t.
Proof.
  induction t as [nt v cs IH] using Node_induction.
  intros x y b entry exit x' y' b' Hs Hb H.
  rewrite solid_unfold in Hs.
  rewrite build_unfold in H. unfold build_body in H.
  cbn [ntype value children] in *.
  destruct (nt == "SEQ").
  { apply (build_seq_solid cs IH) in H; [exact H| |exact Hb|].
    - destruct cs; [discriminate|exact Hs].
    - left. repeat split. destruct cs; [discriminate|discriminate]. }
  assert (Hleaf : forall prefix tag name w h,
             truthy prefix = true ->
             build_leaf prefix tag name x y w h b
             = Done ((entry, exit, x', y'), b') ->
             truthy_opt entry = true /\ truthy_opt exit = true /\ all_both b').
  { intros prefix tag name w h Hp Hl. rewrite build_leaf_alloc in Hl.
    assert (Eb : b' = snd (alloc prefix tag name x y w h false b))
      by congruence.
    assert (Ee : entry = Some (fst (alloc prefix tag name x y w h false b)))
      by congruence.
    assert (Ex : exit = Some (fst (alloc prefix tag name x y w h false b)))
      by congruence.
    rewrite Eb, Ee, Ex. cbn [truthy_opt].
    rewrite alloc_truthy by exact Hp. repeat split. now apply alloc_both. }
  destruct (nt == "TASK"); [now apply Hleaf in H|].
  destruct (nt == "EVENT"); [now apply Hleaf in H|].
  destruct (mem nt ["XOR"; "AND"]).
  { pose proof (alloc_truthy "Split"
                  (if nt == "XOR" then "exclusiveGateway"
                   else "parallelGateway") nt x y 50 50 true b eq_refl)
      as Ts.
    pose proof (alloc_both "Split"
                  (if nt == "XOR" then "exclusiveGateway"
                   else "parallelGateway") nt x y 50 50 true b Hb) as Hb1.
    destruct (alloc "Split" _ nt x y 50 50 true b) as [split_id b1].
    cbn [fst snd] in *.
    destruct (build_branches build split_id x cs _ [] b1)
      as [[exits b2]| |] eqn:Eb; try discriminate.
    cbn [bind] in H.
    apply (build_branches_solid split_id x cs Ts IH) in Eb;
      [|exact Hs|exact Hb1|constructor].
    destruct Eb as [Hb2 Hex].
    pose proof (alloc_truthy "Join"
                  (if nt == "XOR" then "exclusiveGateway"
                   else "parallelGateway") "Join" (x + 500)%Z y 50 50 true
                  b2 eq_refl) as Tj.
    pose proof (alloc_both "Join"
                  (if nt == "XOR" then "exclusiveGateway"
                   else "parallelGateway") "Join" (x + 500)%Z y 50 50 true
                  b2 Hb2) as Hb3.
    destruct (alloc "Join" _ "Join" (x + 500)%Z y 50 50 true b2)
      as [join_id b3].
    cbn [fst snd] in *.
    injection H as <- <- <- <- <-. cbn [truthy_opt].
    split; [exact Ts|]. split; [exact Tj|].
    now apply join_flows_both. }
  destruct (nt == "LOOP").
  { destruct cs as [|c0 [|c1 cs]]; try discriminate.
    apply andb_true_iff in Hs. destruct Hs as [Hs0 Hs1].
    inversion IH as [|? ? H0 IH']; subst.
    inversion IH' as [|? ? H1 _]; subst.
    destruct (build c0 x y b) as [[[[[e0 x0] xx] yy] b0]| |] eqn:E0;
      try discriminate.
    cbn [bind] in H.
    destruct (build c1 _ _ b0) as [[[[[e1 x1] xx1] yy1] b1]| |] eqn:E1;
      try discriminate.
    cbn [bind] in H. injection H as <- <- <- <- <-.
    destruct (H0 _ _ _ _ _ _ _ _ Hs0 Hb E0) as (Te0 & Tx0 & Hb0).
    destruct (H1 _ _ _ _ _ _ _ _ Hs1 Hb0 E1) as (Te1 & Tx1 & Hb1).
    split; [exact Te0|]. split; [exact Tx0|].
    apply add_flow_both; [exact Tx1|exact Te0|].
    now apply add_flow_both. }
  destruct (nt == "NULL"); now apply Hleaf in H.
Qed.

(** X11. In the rendering of a tree in which every sequence the renderer
    gets to has a child, no sequence flow dangles: each has a source and a
    target, and the diagram holds one edge for every sequence flow, in the
    same order. *)
Theorem build_flows_complete (t : Node) (x y : Z) (r : Placed)
    (b' : Builder) :
  solid t = true ->
  build t x y new_builder = Done (r, b') ->
  (forall fid s d, In (SequenceFlow fid s d) (process b') ->
                   s <> None /\ d <> None)
  /\ edge_refs (plane b') = map pc_id (filter is_sequence_flow (process b')).
Proof.
  destruct r as [[[entry exit] x'] y']. intros Hs H.
  assert (Hb : all_both new_builder) by (intros c []).
  destruct (build_solid_all t _ _ _ _ _ _ _ _ Hs Hb H) as (_ & _ & Hb').
  destruct (build_wf_all t _ _ _ _ _ _ _ _ wf_new_builder H)
    as ((_ & _ & _ & _ & _ & _ & Hg) & _).
  split.
  - intros fid s d Hin. specialize (Hb' _ Hin eq_refl).
    destruct s, d; try discriminate. split; discriminate.
  - rewrite Hg. f_equal. apply filter_ext_in.
    intros c Hin. destruct c as [tag id name refs|fid s d]; [reflexivity|].
    now rewrite (Hb' _ Hin eq_refl).
Qed.

Lemma build_flows_complete_witness :
  exists r b',
    build round_trip_tree 100 100 new_builder = Done (r, b')
    /\ (forall fid s d, In (SequenceFlow fid s d) (process b') ->
                        s <> None /\ d <> None)
    /\ edge_refs (plane b') = map pc_id (filter is_sequence_flow (process b')).
Proof.
  destruct (build round_trip_tree 100 100 new_builder) as [[r b']| |] eqn:E;
    [|vm_compute in E; discriminate E..].
  exists r, b'. split; [reflexivity|].
  exact (build_flows_complete round_trip_tree 100 100 r b' eq_refl E).
Defined.
(** ** The form of the engine's trees *)

Lemma shaped_unfold (t : Node) :
  shaped t
  = (if mem (ntype t) ["TASK"; "EVENT"; "LOOPBACK"] then
       has_value t && (List.length (children t) =? 0)
     else if ntype t == "NULL" then
       negb (has_value t) && (List.length (children t) =? 0)
     else if ntype t == "SEQ" then
       negb (has_value t) && (1 <=? List.length (children t))
     else if mem (ntype t) ["XOR"; "AND"] then
       has_value t && (2 <=? List.length (children t))
     else if ntype t == "LOOP" then
       negb (has_value t) && (List.length (children t) =? 2)
     else false)
    && forallb shaped (children t).
Proof. destruct t as [nt v cs]. reflexivity. Qed.

Lemma forallb_Forall (cs : list Node) :
  Forall (fun c => shaped c = true) cs -> forallb shaped cs = true.
Proof. intros H. apply forallb_forall. now apply Forall_forall. Qed.

Lemma shaped_SEQ (cs : list Node) :
  cs <> [] -> Forall (fun c => shaped c = true) cs -> shaped (SEQ cs) = true.
Proof.
  intros Hne H. rewrite shaped_unfold. cbn [SEQ ntype value children].
  rewrite (forallb_Forall cs H).
  destruct cs; [contradiction|reflexivity].
Qed.

Lemma shaped_normalise (sc : list Node) :
  Forall (fun c => shaped c = true) sc -> shaped (normalise sc) = true.
Proof.
  intros H. destruct sc as [|c [|c' sc]]; cbn [normalise].
  - reflexivity.
  - now inversion H.
  - now apply shaped_SEQ.
Qed.

Lemma shaped_snoc (sc : list Node) (t : Node) :
  Forall (fun c => shaped c = true) sc -> shaped t = true ->
  Forall (fun c => shaped c = true) (sc ++ [t]).
Proof. intros. apply Forall_app. split; [assumption|now constructor]. Qed.

Lemma shaped_branch (kind l : string) (kids : list Node) :
  kind = "XOR" \/ kind = "AND" ->
  1 < List.length kids -> Forall (fun c => shaped c = true) kids ->
  shaped (mkNode kind (Some l) kids) = true.
Proof.
  intros Hk Hlen H. rewrite shaped_unfold. cbn [ntype value children].
  rewrite (forallb_Forall kids H).
  assert (E : (2 <=? List.length kids) = true) by now apply Nat.leb_le.
  destruct Hk as [-> | ->]; rewrite E; reflexivity.
Qed.

Lemma shaped_LOOP (c0 c1 : Node) :
  shaped c0 = true -> shaped c1 = true -> shaped (LOOP [c0; c1]) = true.
Proof.
  intros H0 H1. rewrite shaped_unfold. cbn [LOOP ntype value children forallb].
  now rewrite H0, H1.
Qed.

Lemma kind_of_cases (doc : Document) (cur : string) :
  kind_of doc cur = "XOR" \/ kind_of doc cur = "AND".
Proof. unfold kind_of. destruct (is_xor doc cur), (is_and doc cur); auto. Qed.

Lemma mapM_length {A B} (f : A -> outcome B) (l : list A) (ys : list B) :
  mapM f l = Done ys -> List.length ys = List.length l.
Proof.
  revert ys. induction l as [|a l IH]; intros ys H; simpl in H.
  - now injection H as <-.
  - destruct (f a) as [y| |]; try discriminate. simpl in H.
    destruct (mapM f l) as [ys'| |]; try discriminate. simpl in H.
    injection H as <-. simpl. now rewrite (IH ys' eq_refl).
Qed.

Section Shaped.
Variable set_iter : list string -> list string.
Variable doc : Document.

Lemma build_path_until_loop_shaped (fuel : nat) :
  forall nid stop stk cur seen sc t,
    Forall (fun c => shaped c = true) sc ->
    build_path_until_loop set_iter doc fuel nid stop stk cur seen sc = Done t ->
    shaped t = true.
Proof.
  induction fuel as [|fuel IH]; intros nid stop stk cur seen sc t Hsc H.
  - simpl in H. destruct cur as [cur|].
    + destruct (_ || _); [|discriminate].
      injection H as <-. now apply shaped_normalise.
    + injection H as <-. now apply shaped_normalise.
  - simpl in H. destruct cur as [cur|];
      [|injection H as <-; now apply shaped_normalise].
    destruct (_ || _); [injection H as <-; now apply shaped_normalise|].
    destruct (truthy_hit _) as [hit|].
    { injection H as <-. apply shaped_LOOP.
      - destruct (1 <? List.length sc) eqn:E.
        + apply shaped_SEQ; [|assumption]. apply Nat.ltb_lt in E.
          destruct sc; [simpl in E; lia|discriminate].
        + destruct sc as [|c sc]; [reflexivity|now inversion Hsc].
      - destruct (nid == hit); reflexivity. }
    destruct (dict_mem (tasks doc) cur).
    { eapply IH; [|exact H]. apply shaped_snoc; [assumption|reflexivity]. }
    destruct (dict_mem (events doc) cur).
    { eapply IH; [|exact H]. apply shaped_snoc; [assumption|reflexivity]. }
    destruct (dict_mem (gateways doc) cur);
      [|injection H as <-; now apply shaped_normalise].
    destruct (1 <? outdeg doc cur) eqn:Eout;
      [|eapply IH; [|exact H]; assumption].
    destruct (find_join _ _ _ _) as [join| |]; try discriminate.
    simpl in H.
    destruct (match join with Some j => j == cur | None => false end);
      [injection H as <-; now apply shaped_normalise|].
    destruct (mapM _ _) as [kids| |] eqn:Ek; try discriminate.
    simpl in H. eapply IH; [|exact H].
    apply shaped_snoc; [assumption|].
    apply shaped_branch; [apply kind_of_cases| |].
    + rewrite (mapM_length _ _ _ Ek). now apply Nat.ltb_lt in Eout.
    + eapply mapM_Forall; [|exact Ek].
      intros o y _ Hy. cbv beta in Hy.
      destruct (o == cur); [injection Hy as <-; reflexivity|].
      eapply IH; [|exact Hy]. constructor.
Qed.

Lemma branches_shaped (fuel : nat) (g : string -> bool) (join : option string)
    (stk outs : list string) (kids : list Node) :
  mapM (fun o => if g o then Done NULL
                 else build_path_until set_iter doc fuel o join stk) outs
  = Done kids ->
  Forall (fun c => shaped c = true) kids.
Proof.
  apply mapM_Forall. intros o y _ Hy. cbv beta in Hy.
  destruct (g o); [injection Hy as <-; reflexivity|].
  eapply build_path_until_loop_shaped; [|exact Hy]. constructor.
Qed.

Lemma build_pst_main_loop_shaped (fuel : nat) :
  forall q seen stk sc t,
    Forall (fun c => shaped c = true) sc ->
    build_pst_main_loop set_iter doc fuel q seen stk sc = Done t ->
    shaped t = true.
Proof.
  induction fuel as [|fuel IH]; intros q seen stk sc t Hsc H.
  - simpl in H. destruct q as [|current q];
      [injection H as <-; now apply shaped_normalise|].
    destruct (mem current seen); [|discriminate].
    injection H as <-. apply shaped_normalise.
    apply shaped_snoc; [assumption|reflexivity].
  - simpl in H. destruct q as [|current q];
      [injection H as <-; now apply shaped_normalise|].
    destruct (mem current seen).
    { injection H as <-. apply shaped_normalise.
      apply shaped_snoc; [assumption|reflexivity]. }
    assert (Ht : Forall (fun c => shaped c = true)
                   (sc ++ [TASK (elem_label (tasks doc) current)]))
      by (apply shaped_snoc; [assumption|reflexivity]).
    destruct (dict_mem (tasks doc) current).
    { destruct (_ =? 1); [eapply IH; [|exact H]; assumption|].
      destruct (1 <? _) eqn:Eout; [|eapply IH; [|exact H]; assumption].
      destruct (find_join _ _ _ _) as [join| |]; try discriminate.
      simpl in H.
      destruct (mapM _ _) as [kids| |] eqn:Ek; try discriminate.
      simpl in H. eapply IH; [|exact H].
      apply shaped_snoc; [assumption|].
      apply shaped_branch; [now left| |].
      - rewrite (mapM_length _ _ _ Ek). now apply Nat.ltb_lt in Eout.
      - exact (branches_shaped fuel
                 (fun o => truthy_opt join && is_join join o)
                 join _ _ kids Ek). }
    destruct (dict_mem (events doc) current).
    { eapply IH; [|exact H]. apply shaped_snoc; [assumption|reflexivity]. }
    destruct (dict_mem (gateways doc) current);
      [|injection H as <-; now apply shaped_normalise].
    destruct (1 <? outdeg doc current) eqn:Eout;
      [|eapply IH; [|exact H]; assumption].
    destruct (find_join _ _ _ _) as [[j|]| |]; try discriminate; simpl in H.
    + destruct (mapM _ _) as [kids| |] eqn:Ek; try discriminate.
      simpl in H. eapply IH; [|exact H].
      apply shaped_snoc; [assumption|].
      apply shaped_branch; [apply kind_of_cases| |].
      * rewrite (mapM_length _ _ _ Ek). now apply Nat.ltb_lt in Eout.
      * exact (branches_shaped fuel (fun o => o == j) (Some j) _ _ kids Ek).
    + destruct (mapM _ _) as [kids| |] eqn:Ek; try discriminate.
      simpl in H. injection H as <-. apply shaped_normalise.
      apply shaped_snoc; [assumption|].
      apply shaped_branch; [apply kind_of_cases| |].
      * rewrite (mapM_length _ _ _ Ek). now apply Nat.ltb_lt in Eout.
      * exact (branches_shaped fuel (fun _ => false) None _ _ kids Ek).
Qed.

End Shaped.

(** X12. Every tree the structuring engine returns, for any graph, has
    the engine's form throughout: Task, Event and Loopback leaves carry a
    label and Null leaves none, a Sequence has at least one child and no
    label, a Branch is of kind XOR or AND with a label and at least two
    children, a Loop has exactly two children, and no other kind of node
    occurs. *)
Theorem engine_tree_shaped (set_iter : list string -> list string)
    (doc : Document) (fuel : nat) (node_id : string)
    (stop_id : option string) (active_split_stack : list string) (t : Node) :
  build_pst_main set_iter doc fuel node_id = Done t
  \/ build_path_until set_iter doc fuel node_id stop_id active_split_stack
     = Done t ->
  shaped t = true.
Proof.
  intros [H|H].
  - eapply build_pst_main_loop_shaped; [|exact H]. constructor.
  - eapply build_path_until_loop_shaped; [|exact H]. constructor.
Qed.

Lemma engine_tree_shaped_witness :
  build_path_until insertion_order loop_exit_doc 5 "B" None ["G"]
  = Done (LOOP [TASK "B"; SEQ [TASK "Body_of_G"]])
  /\ shaped (LOOP [TASK "B"; SEQ [TASK "Body_of_G"]]) = true.
Proof.
  split; [reflexivity|].
  apply (engine_tree_shaped insertion_order loop_exit_doc 5 "B" None ["G"]).
  right. reflexivity.
Defined.

(** *** The engine's trees and the renderer *)





(** ** Graphs without splits *)

Lemma dict_mem_keys {V} (d : dict V) (k : string) :
  dict_mem d k = true -> In k (keys d).
Proof.
  unfold dict_mem. induction d as [|[k' v] d IH]; simpl; [discriminate|].
  destruct (String.eqb_spec k k') as [->|_]; [now left|].
  intros H. right. now apply IH.
Qed.

Lemma seen_more (L seen : list string) (cur : string) :
  List.length (filter (fun n => negb (mem n (seen ++ [cur]))) L)
  <= List.length (filter (fun n => negb (mem n seen)) L).
Proof.
  induction L as [|a L IH]; [reflexivity|]. simpl.
  rewrite mem_app. destruct (mem a seen); simpl; [exact IH|].
  destruct (_ || _); simpl; lia.
Qed.

Lemma seen_one_more (L seen : list string) (cur : string) :
  In cur L -> mem cur seen = false ->
  List.length (filter (fun n => negb (mem n (seen ++ [cur]))) L)
  < List.length (filter (fun n => negb (mem n seen)) L).
Proof.
  intros Hin Hc. induction L as [|a L IH]; [destruct Hin|]. simpl.
  rewrite mem_app. destruct Hin as [->|Hin].
  - rewrite Hc. simpl. rewrite String.eqb_refl. simpl.
    pose proof (seen_more L seen cur). lia.
  - specialize (IH Hin). destruct (mem a seen); simpl; [exact IH|].
    destruct (_ || _); simpl; lia.
Qed.

Section SplitFree.
Variable set_iter : list string -> list string.
Variable doc : Document.
Hypothesis no_split : split_free doc = true.

Lemma split_free_task (n : string) :
  dict_mem (tasks doc) n = true -> List.length (succ doc n) <= 1.
Proof.
  intros H. unfold split_free in no_split.
  rewrite forallb_forall in no_split. apply Nat.leb_le, no_split.
  apply in_or_app. left. now apply dict_mem_keys.
Qed.

Lemma split_free_gateway (n : string) :
  dict_mem (gateways doc) n = true -> (1 <? outdeg doc n) = false.
Proof.
  intros H. unfold split_free in no_split.
  rewrite forallb_forall in no_split. apply Nat.ltb_ge, Nat.leb_le.
  apply no_split. apply in_or_app. right. now apply dict_mem_keys.
Qed.

Lemma append_first_one (l : list string) :
  List.length (append_first [] l) <= 1.
Proof. destruct l; simpl; lia. Qed.

Lemma potential_seen (seen : list string) (cur : string) :
  In cur (all_nodes doc) -> mem cur seen = false ->
  backbone_potential doc (seen ++ [cur]) < backbone_potential doc seen.
Proof. apply seen_one_more. Qed.

Lemma backbone_flat (fuel1 : nat) :
  forall fuel2 q seen stk sc,
    List.length q <= 1 -> Forall is_leaf sc ->
    backbone_potential doc seen < fuel1 ->
    backbone_potential doc seen < fuel2 ->
    exists sc',
      Forall is_leaf sc'
      /\ build_pst_main_loop set_iter doc fuel1 q seen stk sc
         = Done (normalise sc')
      /\ build_pst_main_loop set_iter doc fuel2 q seen stk sc
         = Done (normalise sc').
Proof.
  induction fuel1 as [|fuel1 IH]; intros fuel2 q seen stk sc Hq Hsc H1 H2;
    [lia|].
  destruct fuel2 as [|fuel2]; [lia|].
  destruct q as [|current q]; [exists sc; now split|].
  destruct q as [|? ?]; [|simpl in Hq; lia].
  simpl.
  destruct (mem current seen) eqn:Eseen.
  { exists (sc ++ [LOOPBACK (label_by_id doc current)]).
    split; [|now split].
    apply Forall_app. split; [exact Hsc|].
    constructor; [|constructor]. eexists. right. right. reflexivity. }
  assert (Hstep : In current (all_nodes doc) ->
            forall q' sc',
              List.length q' <= 1 -> Forall is_leaf sc' ->
              exists sc'',
                Forall is_leaf sc''
                /\ build_pst_main_loop set_iter doc fuel1 q'
                     (seen ++ [current]) stk sc' = Done (normalise sc'')
                /\ build_pst_main_loop set_iter doc fuel2 q'
                     (seen ++ [current]) stk sc' = Done (normalise sc'')).
  { intros Hin q' sc' Hq' Hsc'.
    pose proof (potential_seen seen current Hin Eseen).
    apply IH; [exact Hq'|exact Hsc'|lia|lia]. }
  assert (Hsnoc : forall c, is_leaf c -> Forall is_leaf (sc ++ [c])).
  { intros c Hc. apply Forall_app. split; [exact Hsc|now constructor]. }
  destruct (dict_mem (tasks doc) current) eqn:Et.
  { assert (Hin : In current (all_nodes doc)).
    { apply in_or_app. left. now apply dict_mem_keys. }
    pose proof (split_free_task current Et) as Hout.
    destruct (List.length (succ doc current) =? 1) eqn:E1.
    - apply Hstep; [exact Hin|apply append_first_one|].
      apply Hsnoc. eexists. left. reflexivity.
    - apply Nat.eqb_neq in E1.
      assert (E : (1 <? List.length (succ doc current)) = false)
        by (apply Nat.ltb_ge; lia).
      rewrite E. apply Hstep; [exact Hin|simpl; lia|].
      apply Hsnoc. eexists. left. reflexivity. }
  destruct (dict_mem (events doc) current) eqn:Ee.
  { apply Hstep; [|apply append_first_one|].
    - apply in_or_app. right. apply in_or_app. left. now apply dict_mem_keys.
    - apply Hsnoc. eexists. right. left. reflexivity. }
  destruct (dict_mem (gateways doc) current) eqn:Eg;
    [|exists sc; now split].
  rewrite (split_free_gateway current Eg).
  apply Hstep; [|apply append_first_one|exact Hsc].
  apply in_or_app. right. apply in_or_app. right. now apply dict_mem_keys.
Qed.

End SplitFree.

(** X14. On a graph in which no task and no gateway has more than one
    outgoing flow, the backbone builder returns, from any start node, and
    its result is flat: a single Task, Event or Loopback leaf, a sequence of
    such leaves, or Null.  One unit of fuel more than there are nodes is
    enough, and more fuel does not change the result. *)
Theorem backbone_split_free (set_iter : list string -> list string)
    (doc : Document) (start : string) :
  split_free doc = true ->
  exists sc,
    Forall is_leaf sc
    /\ forall fuel, List.length (all_nodes doc) < fuel ->
                    build_pst_main set_iter doc fuel start
                    = Done (normalise sc).
Proof.
  intros Hsf.
  assert (Hp : backbone_potential doc [] <= List.length (all_nodes doc))
    by apply List.filter_length_le.
  destruct (backbone_flat set_iter doc Hsf (S (List.length (all_nodes doc)))
              (S (List.length (all_nodes doc))) [start] [] [] [])
    as (sc & Hsc & E & _); [simpl; lia|constructor|lia|lia|].
  exists sc. split; [exact Hsc|]. intros fuel Hfuel.
  destruct (backbone_flat set_iter doc Hsf (S (List.length (all_nodes doc)))
              fuel [start] [] [] [])
    as (sc' & _ & E1 & E2); [simpl; lia|constructor|lia|lia|].
  unfold build_pst_main. rewrite E2, <- E1. exact E.
Qed.

Lemma backbone_split_free_witness :
  exists sc,
    Forall is_leaf sc
    /\ forall fuel, List.length (all_nodes loop_doc) < fuel ->
                    build_pst_main insertion_order loop_doc fuel "Start"
                    = Done (normalise sc).
Proof.
  apply (backbone_split_free insertion_order loop_doc "Start"). reflexivity.
Defined.
(** ** The form of the parser's trees *)

Lemma parsed_unfold (t : Node) :
  parsed t
  = truthy (ntype t) && all_chars isword (ntype t)
    && (if mem (ntype t) ["TASK"; "EVENT"; "NULL"]
        then parsed_label (value t) && (List.length (children t) =? 0)
        else negb (has_value t))
    && forallb parsed (children t).
Proof. destruct t as [nt v cs]. reflexivity. Qed.

Lemma span_word_parts (s w r : string) :
  span_word s = (w, r) -> s = w +++ r /\ all_chars isword w = true.
Proof.
  revert w r. induction s as [|c s IH]; intros w r H; simpl in H.
  - injection H as <- <-. now split.
  - destruct (isword c) eqn:Ec.
    + destruct (span_word s) as [w' r'] eqn:E. injection H as <- <-.
      destruct (IH w' r' eq_refl) as [-> Hw]. simpl. now rewrite Ec.
    + injection H as <- <-. now split.
Qed.

Lemma re_match_word (s w inside : string) :
  re_match s = Some (w, inside) ->
  truthy w = true /\ all_chars isword w = true.
Proof.
  unfold re_match. destruct (span_word s) as [w' r] eqn:E.
  apply span_word_parts in E. destruct E as [_ Hw].
  destruct w' as [|c w']; [discriminate|].
  destruct r as [|c' r]; [discriminate|].
  destruct (Ascii.eqb c' "("); [|discriminate].
  destruct (upto_last_rparen r); [|discriminate].
  intros [= <- <-]. now split.
Qed.

Lemma lstrip_first (s : string) (c : ascii) (r : string) :
  lstrip s = String c r -> isspace c = false.
Proof.
  induction s as [|a s IH]; simpl; [discriminate|].
  destruct (isspace a) eqn:Ea; [exact IH|].
  intros [= <- <-]. exact Ea.
Qed.

Lemma rstrip_by_first (p : ascii -> bool) (s : string) (c : ascii)
    (r : string) :
  rstrip_by p s = String c r -> exists r', s = String c r'.
Proof.
  destruct s as [|a s]; simpl; [discriminate|].
  destruct (rstrip_by p s); [destruct (p a)|]; intros [= <- <-]; eauto.
Qed.

Lemma rstrip_by_idem (p : ascii -> bool) (s : string) :
  rstrip_by p (rstrip_by p s) = rstrip_by p s.
Proof.
  induction s as [|a s IH]; [reflexivity|]. simpl.
  destruct (rstrip_by p s) as [|b r] eqn:E.
  - destruct (p a) eqn:Ea; [reflexivity|]. simpl. now rewrite Ea.
  - simpl in IH |- *. now rewrite IH.
Qed.

Lemma leaf_value_parsed (inside : string) :
  parsed_label
    (if truthy (rstrip_by (Ascii.eqb ",") (strip inside))
     then Some (rstrip_by (Ascii.eqb ",") (strip inside)) else None) = true.
Proof.
  destruct (truthy _) eqn:Et; [|reflexivity].
  unfold parsed_label. rewrite Et, rstrip_by_idem, String.eqb_refl.
  rewrite andb_true_r. cbn [andb]. apply String.eqb_eq.
  destruct (rstrip_by (Ascii.eqb ",") (strip inside)) as [|c r] eqn:E;
    [reflexivity|].
  destruct (rstrip_by_first _ _ _ _ E) as (r1 & E1).
  unfold strip in E1.
  destruct (rstrip_by_first _ _ _ _ E1) as (r2 & E2).
  apply lstrip_first in E2. simpl. now rewrite E2.
Qed.

Section ScanKeeps.
Variable pb : string -> outcome (option Node).
Variable P : Node -> Prop.
Hypothesis pb_keeps : forall s t, pb s = Done (Some t) -> P t.

Lemma flush_keeps (buff : string) (ch ch' : list (option Node)) :
  Forall (if_some P) ch -> flush pb buff ch = Done ch' ->
  Forall (if_some P) ch'.
Proof.
  intros Hch. unfold flush. destruct (truthy (strip buff)).
  - destruct (pb (strip buff)) as [o| |] eqn:E; try discriminate.
    simpl. intros [= <-]. apply Forall_app. split; [exact Hch|].
    constructor; [|constructor]. destruct o as [t|]; [|exact I].
    simpl. now apply (pb_keeps (strip buff)).
  - now intros [= <-].
Qed.

Lemma scan_keeps (l : list ascii) :
  forall d b ch d' b' ch',
    Forall (if_some P) ch ->
    foldM (scan_char pb) l (d, b, ch) = Done (d', b', ch') ->
    Forall (if_some P) ch'.
Proof.
  induction l as [|c l IH]; intros d b ch d' b' ch' Hch H; simpl in H.
  - now injection H as <- <- <-.
  - destruct (Ascii.eqb c "("); [simpl in H; eapply IH; eassumption|].
    destruct (Ascii.eqb c ")"); [simpl in H; eapply IH; eassumption|].
    destruct (Ascii.eqb c "," && (d =? 0)%Z);
      [|simpl in H; eapply IH; eassumption].
    destruct (flush pb b ch) as [ch1| |] eqn:E; try discriminate.
    simpl in H. eapply IH; [|exact H]. eapply flush_keeps; eassumption.
Qed.

Lemma drop_none_keeps (ch : list (option Node)) :
  Forall (if_some P) ch -> Forall P (drop_none ch).
Proof.
  induction 1 as [|[t|] ch Ht _ IH]; simpl; [constructor| |exact IH].
  now constructor.
Qed.

Lemma parse_children_keeps (inside : string) (cs : list Node) :
  parse_children pb inside = Done cs -> Forall P cs.
Proof.
  unfold parse_children.
  destruct (foldM _ _ _) as [[[d b] ch]| |] eqn:E; try discriminate.
  simpl. destruct (flush pb b ch) as [ch'| |] eqn:Ef; try discriminate.
  simpl. intros [= <-]. apply drop_none_keeps.
  eapply flush_keeps; [|exact Ef].
  eapply scan_keeps; [|exact E]. constructor.
Qed.
End ScanKeeps.

Lemma parse_block_parsed (fuel : nat) :
  forall s t, parse_block fuel s = Done (Some t) -> parsed t = true.
Proof.
  induction fuel as [|fuel IH]; intros s t H; [discriminate|].
  cbn [parse_block] in H.
  destruct (re_match s) as [[nt inside]|] eqn:E; [|discriminate].
  apply re_match_word in E. destruct E as [Ht Hw].
  destruct (mem nt ["TASK"; "EVENT"; "NULL"]) eqn:Em.
  - injection H as <-. rewrite parsed_unfold. cbn [ntype value children].
    rewrite Ht, Hw, Em, leaf_value_parsed. reflexivity.
  - destruct (parse_children _ _) as [cs| |] eqn:Ec; try discriminate.
    simpl in H. injection H as <-.
    rewrite parsed_unfold. cbn [ntype value children].
    rewrite Ht, Hw, Em. cbn [has_value value negb andb].
    apply forallb_forall. apply Forall_forall.
    exact (parse_children_keeps (parse_block fuel)
             (fun t => parsed t = true) IH _ cs Ec).
Qed.

(** X16. Every tree [parse_pst_text] returns, whatever the text, has the
    parser's form throughout: the kind of a node is a word; a node of kind
    TASK, EVENT or NULL has no children, and its label, when it has one, is
    not empty, does not start with white space and does not end with a
    comma; a node of any other kind has no label. *)
Theorem parse_pst_text_parsed (text : string) (t : Node) :
  parse_pst_text text = Done (Some t) -> parsed t = true.
Proof. apply parse_block_parsed. Qed.

Lemma parse_pst_text_parsed_witness :
  parse_pst_text "SEQ( TASK( a,), junk, LOOPBACK(x), EVENT() )"
  = Done (Some (SEQ [mkNode "TASK" (Some "a") [];
                     mkNode "LOOPBACK" None [];
                     mkNode "EVENT" None []]))
  /\ parsed (SEQ [mkNode "TASK" (Some "a") [];
                  mkNode "LOOPBACK" None [];
                  mkNode "EVENT" None []]) = true.
Proof.
  split; [reflexivity|].
  apply (parse_pst_text_parsed
           "SEQ( TASK( a,), junk, LOOPBACK(x), EVENT() )").
  reflexivity.
Defined.

(** ** Leaves of a kind the parser does not know *)

Lemma no_paren_app (a b : string) :
  no_paren (a +++ b) = no_paren a && no_paren b.
Proof.
  induction a as [|c a IH]; [reflexivity|]. simpl. rewrite IH.
  now rewrite !andb_assoc.
Qed.

Lemma no_paren_lstrip (s : string) :
  no_paren s = true -> no_paren (lstrip s) = true.
Proof.
  induction s as [|c s IH]; [reflexivity|]. intros H. simpl.
  destruct (isspace c); [|exact H].
  simpl in H. apply andb_true_iff in H. now apply IH.
Qed.

Lemma no_paren_rstrip_by (p : ascii -> bool) (s : string) :
  no_paren s = true -> no_paren (rstrip_by p s) = true.
Proof.
  induction s as [|c s IH]; [reflexivity|]. intros H. simpl in H |- *.
  apply andb_true_iff in H. destruct H as [Hc Hs]. specialize (IH Hs).
  destruct (rstrip_by p s) as [|b r].
  - destruct (p c); [reflexivity|]. simpl. now rewrite Hc.
  - change (no_paren (String c (String b r)))
      with (negb (Ascii.eqb c "(") && negb (Ascii.eqb c ")")
            && no_paren (String b r)).
    now rewrite Hc, IH.
Qed.

Lemma no_paren_strip (s : string) :
  no_paren s = true -> no_paren (strip s) = true.
Proof. intros H. now apply no_paren_rstrip_by, no_paren_lstrip. Qed.

Lemma re_match_no_paren (s : string) : no_paren s = true -> re_match s = None.
Proof.
  intros H. unfold re_match. destruct (span_word s) as [w r] eqn:E.
  apply span_word_parts in E. destruct E as [-> _].
  destruct w as [|a w]; [reflexivity|].
  destruct r as [|c r]; [reflexivity|].
  destruct (Ascii.eqb_spec c "(") as [->|_]; [|reflexivity].
  rewrite no_paren_app in H. apply andb_true_iff in H.
  destruct H as [_ H]. discriminate H.
Qed.

Lemma word_not_space (a : ascii) : isword a = true -> isspace a = false.
Proof.
  destruct a as [[] [] [] [] [] [] [] []]; intros H;
    try reflexivity; discriminate H.
Qed.

Section ScanFlat.
Variable pb : string -> outcome (option Node).
Hypothesis pb_none : forall s, no_paren s = true -> pb s = Done None.

Lemma flush_flat (buff : string) (ch : list (option Node)) :
  no_paren buff = true -> drop_none ch = [] ->
  exists ch', flush pb buff ch = Done ch' /\ drop_none ch' = [].
Proof.
  intros Hb Hch. unfold flush. destruct (truthy (strip buff)); [|eauto].
  rewrite (pb_none (strip buff) (no_paren_strip buff Hb)). simpl.
  exists (ch ++ [None]). split; [reflexivity|].
  clear Hb. induction ch as [|[t|] ch IH]; simpl in *;
    [reflexivity|discriminate|auto].
Qed.

Lemma scan_flat (l : string) :
  forall b ch,
    no_paren l = true -> no_paren b = true -> drop_none ch = [] ->
    exists b' ch',
      foldM (scan_char pb) (list_ascii_of_string l) (0%Z, b, ch)
      = Done (0%Z, b', ch')
      /\ no_paren b' = true /\ drop_none ch' = [].
Proof.
  induction l as [|c l IH]; intros b ch Hl Hb Hch.
  - exists b, ch. now split.
  - simpl in Hl. apply andb_true_iff in Hl. destruct Hl as [Hc Hl].
    apply andb_true_iff in Hc. destruct Hc as [Ho Hcl].
    cbn [list_ascii_of_string foldM scan_char].
    apply negb_true_iff in Ho, Hcl. rewrite Ho, Hcl.
    destruct (Ascii.eqb c ","); cbn [andb Z.eqb].
    + destruct (flush_flat b ch Hb Hch) as (ch1 & -> & Hch1). cbn [bind].
      now apply IH.
    + cbn [bind]. apply IH; [exact Hl| |exact Hch].
      unfold add_char. rewrite no_paren_app, Hb. simpl. now rewrite Ho, Hcl.
Qed.

Lemma parse_children_flat (inside : string) :
  no_paren inside = true -> parse_children pb inside = Done [].
Proof.
  intros H. unfold parse_children.
  destruct (scan_flat inside "" [] H eq_refl eq_refl)
    as (b & ch & -> & Hb & Hch).
  cbn [bind]. destruct (flush_flat b ch Hb Hch) as (ch' & -> & Hch').
  cbn [bind]. now rewrite Hch'.
Qed.
End ScanFlat.

(** X17. A leaf of a kind other than TASK, EVENT and NULL loses its label
    on the way through the parser: the text of such a leaf, for any label
    without parentheses, is read as an interior node without label and
    without children.  The Loopback leaves the engine writes are of this
    sort. *)
Theorem unknown_leaf_label_lost (kind l : string) :
  truthy kind = true -> all_chars isword kind = true ->
  mem kind ["TASK"; "EVENT"; "NULL"] = false ->
  no_paren l = true ->
  parse_pst_text (kind +++ "(" +++ l +++ ")")
  = Done (Some (mkNode kind None [])).
Proof.
  intros Ht Hw Hk Hl. unfold parse_pst_text. cbn zeta.
  destruct kind as [|a kind']; [discriminate|].
  set (kind := String a kind') in *.
  assert (Es : strip (kind +++ "(" +++ l +++ ")") = kind +++ "(" +++ l +++ ")").
  { rewrite <- (sapp_nil_r (kind +++ "(" +++ l +++ ")")) at 1.
    apply (strip_padded "" _ "" a ")"%char (kind' +++ "(" +++ l +++ ")"));
      try reflexivity.
    - apply word_not_space. pose proof Hw as Hw'. unfold kind in Hw'.
      cbn [all_chars] in Hw'. apply andb_true_iff in Hw'. exact (proj1 Hw').
    - replace (kind +++ "(" +++ l +++ ")")
        with ((kind +++ "(" +++ l) +++ String ")"%char "")
        by (now rewrite !sapp_assoc).
      apply last_char_app. }
  rewrite Es. cbn [parse_block].
  rewrite (re_match_node kind l a kind' Hw eq_refl), Hk.
  rewrite (parse_children_flat _); [reflexivity| |now apply no_paren_strip].
  intros s Hs. subst kind. cbn [String.append String.length parse_block].
  now rewrite (re_match_no_paren s Hs).
Qed.

Lemma unknown_leaf_label_lost_witness :
  parse_pst_text (repr 0 (LOOPBACK "A|Review, again"))
  = Done (Some (mkNode "LOOPBACK" None [])).
Proof.
  apply (unknown_leaf_label_lost "LOOPBACK" "A|Review, again");
    reflexivity.
Defined.

(** ** The parser and the text the engine writes *)

Lemma strip_node_text (a : ascii) (kind' x : string) :
  isword a = true ->
  strip (String a kind' +++ "(" +++ x +++ ")")
  = String a kind' +++ "(" +++ x +++ ")".
Proof.
  intros Ha.
  rewrite <- (sapp_nil_r (String a kind' +++ "(" +++ x +++ ")")) at 1.
  apply (strip_padded "" _ "" a ")"%char (kind' +++ "(" +++ x +++ ")"));
    try reflexivity.
  - now apply word_not_space.
  - replace (String a kind' +++ "(" +++ x +++ ")")
      with ((String a kind' +++ "(" +++ x) +++ String ")"%char "")
      by (now rewrite !sapp_assoc).
    apply last_char_app.
Qed.

Lemma body_node_text (t : Node) :
  exists x, body 0 t = ntype t +++ "(" +++ x +++ ")".
Proof.
  unfold body. destruct (mem (ntype t) _).
  - now exists (fmt (value t)).
  - exists (nl +++ concat_s (map (fun c => repr 1 c +++ "," +++ nl)
                                 (children t)) +++ indent_of 0).
    now rewrite !sapp_assoc.
Qed.

(** X19. The parser accepts whatever [Node.__repr__] writes for a tree
    whose root has a word for its kind, and keeps that kind: it returns a
    node of the kind of the root, whatever the labels and the children
    are. *)
Theorem repr_accepted (t : Node) :
  truthy (ntype t) = true -> all_chars isword (ntype t) = true ->
  exists v cs, parse_pst_text (repr 0 t) = Done (Some (mkNode (ntype t) v cs)).
Proof.
  intros Ht Hw.
  destruct (parse_pst_text_total (repr 0 t)) as [r Hr].
  unfold parse_pst_text in *. cbn zeta in *.
  rewrite repr_body in *.
  change (indent_of 0 +++ body 0 t) with (body 0 t) in *.
  destruct (body_node_text t) as [x Ex]. rewrite Ex in *.
  destruct (ntype t) as [|a kind'] eqn:Ek; [discriminate|].
  assert (Ha : isword a = true).
  { cbn [all_chars] in Hw. now apply andb_true_iff in Hw. }
  rewrite (strip_node_text a kind' x Ha) in *.
  cbn [parse_block] in *.
  rewrite (re_match_node (String a kind') x a kind' Hw eq_refl) in *.
  match goal with |- context [if ?c then _ else _] => destruct c end;
    [eauto|].
  destruct (parse_children _ _) as [cs| |]; try discriminate. simpl. eauto.
Qed.

Lemma repr_accepted_witness :
  exists v cs,
    parse_pst_text (repr 0 (LOOP [TASK "a, (b"; NULL]))
    = Done (Some (mkNode "LOOP" v cs)).
Proof.
  apply (repr_accepted (LOOP [TASK "a, (b"; NULL])); reflexivity.
Defined.
(** ** Labels *)



Section Sound.
Variable doc : Document.








End Sound.

(** ** Invariants of a rendering *)

Section Preserve.
Variable J : Builder -> Prop.
Hypothesis J_alloc :
  forall prefix tag name x y w h m b,
    wf_builder b -> J b -> J (snd (alloc prefix tag name x y w h m b)).
Hypothesis J_flow :
  forall s t b,
    wf_builder b -> known b s -> known b t -> J b ->
    J (snd (add_flow s t b)).




End Preserve.

(** *** Edges and the shapes they join *)


Lemma add_flow_plane (src tgt : option string) (b : Builder) :
  plane (snd (add_flow src tgt b))
  = match get_opt (shapes_info b) src, get_opt (shapes_info b) tgt with
    | Some s, Some t =>
        plane b
        ++ [BPMNEdge ("Edge" +++ "_" +++ str_of_nat (S (next_id b)))
                     ("Flow" +++ "_" +++ str_of_nat (next_id b))
                     (fst (waypoints s t)) (snd (waypoints s t))]
    | _, _ => plane b
    end.
Proof.
  unfold add_flow, new_id.
  cbn [fst snd process elements shapes_info next_id plane].
  destruct (get_opt (shapes_info b) src), (get_opt (shapes_info b) tgt);
    reflexivity.
Qed.






(** *** Where the shapes are put *)

Lemma shapes_from_le (x x2 : Z) (pl : list PlaneChild) :
  (x <= x2)%Z -> shapes_from x2 pl -> shapes_from x pl.
Proof.
  intros Hx H. eapply Forall_impl; [|exact H].
  intros [e m sx sy w h|]; [lia|trivial].
Qed.

Lemma add_flow_added (s t : option string) (b : Builder) :
  exists added,
    plane (snd (add_flow s t b)) = plane b ++ added
    /\ forall x, shapes_from x added.
Proof.
  rewrite add_flow_plane.
  destruct (get_opt (shapes_info b) s), (get_opt (shapes_info b) t);
    try (exists []; split; [now rewrite app_nil_r|constructor]).
  eexists. split; [reflexivity|]. intros x. constructor; [exact I|constructor].
Qed.

Lemma alloc_added (prefix tag name : string) (x y w h : Z) (m : bool)
    (b : Builder) :
  exists added,
    plane (snd (alloc prefix tag name x y w h m b)) = plane b ++ added
    /\ shapes_from x added.
Proof.
  eexists. split; [reflexivity|]. constructor; [cbn; lia|constructor].
Qed.

Lemma build_seq_layout (cs : list Node) :
  Forall build_layout_for cs ->
  forall fe pe x y b entry exit x' y' b',
    build_seq build cs fe pe x y b = Done ((entry, exit, x', y'), b') ->
    (x <= x')%Z /\ (y <= y')%Z
    /\ exists added, plane b' = plane b ++ added /\ shapes_from x added.
Proof.
  induction 1 as [|c cs Hc _ IH];
    intros fe pe x y b entry exit x' y' b' H.
  - simpl in H. injection H as <- <- <- <- <-.
    split; [lia|]. split; [lia|].
    exists []. split; [now rewrite app_nil_r|constructor].
  - simpl in H.
    destruct (build c x y b) as [[[[[e1 x1] xx] yy] b1]| |] eqn:Ec;
      try discriminate.
    cbn [bind] in H.
    destruct (Hc _ _ _ _ _ _ _ _ Ec) as (Hx & Hy & a1 & E1 & S1).
    apply IH in H. destruct H as (Hx' & Hy' & a3 & E3 & S3).
    split; [lia|]. split; [lia|].
    assert (E2 : exists a2,
               plane (if truthy_opt pe then snd (add_flow pe e1 b1) else b1)
               = plane b1 ++ a2 /\ forall x, shapes_from x a2).
    { destruct (truthy_opt pe); [apply add_flow_added|].
      exists []. split; [now rewrite app_nil_r|constructor]. }
    destruct E2 as (a2 & E2 & S2).
    exists (a1 ++ a2 ++ a3). split.
    + now rewrite E3, E2, E1, !app_assoc.
    + apply Forall_app. split; [exact S1|].
      apply Forall_app. split; [apply S2|].
      apply (shapes_from_le x (xx + 200)%Z); [lia|exact S3].
Qed.

Lemma build_branches_layout (split_id : string) (x : Z) (cs : list Node) :
  Forall build_layout_for cs ->
  forall by_ exits b exits' b',
    build_branches build split_id x cs by_ exits b = Done (exits', b') ->
    exists added, plane b' = plane b ++ added /\ shapes_from x added.
Proof.
  induction 1 as [|c cs Hc _ IH]; intros by_ exits b exits' b' H.
  - simpl in H. injection H as <- <-.
    exists []. split; [now rewrite app_nil_r|constructor].
  - simpl in H.
    destruct (build c (x + 250)%Z by_ b) as [[[[[e1 x1] xx] yy] b1]| |] eqn:Ec;
      try discriminate.
    cbn [bind] in H.
    destruct (Hc _ _ _ _ _ _ _ _ Ec) as (_ & _ & a1 & E1 & S1).
    apply IH in H. destruct H as (a3 & E3 & S3).
    destruct (add_flow_added (Some split_id) e1 b1) as (a2 & E2 & S2).
    exists (a1 ++ a2 ++ a3). split.
    + now rewrite E3, E2, E1, !app_assoc.
    + apply Forall_app. split;
        [apply (shapes_from_le x (x + 250)%Z); [lia|exact S1]|].
      apply Forall_app. split; [apply S2|exact S3].
Qed.

Lemma join_flows_added (join_id : string) (exits : list (option string)) :
  forall b,
    exists added,
      plane (join_flows join_id exits b) = plane b ++ added
      /\ forall x, shapes_from x added.
Proof.
  unfold join_flows. induction exits as [|e exits IH]; intros b; simpl.
  - exists []. split; [now rewrite app_nil_r|constructor].
  - destruct (add_flow_added e (Some join_id) b) as (a1 & E1 & S1).
    destruct (IH (snd (add_flow e (Some join_id) b))) as (a2 & E2 & S2).
    exists (a1 ++ a2). split; [now rewrite E2, E1, app_assoc|].
    intros x. apply Forall_app. split; [apply S1|apply S2].
Qed.

Lemma build_layout_all (t : Node) : build_layout_for t.
Proof.
  induction t as [nt v cs IH] using Node_induction.
  intros x y b entry exit x' y' b' H.
  rewrite build_unfold in H. unfold build_body in H.
  cbn [ntype value children] in *.
  destruct (nt == "SEQ").
  { now apply (build_seq_layout cs IH) in H. }
  assert (Hleaf : forall prefix tag name w h,
             build_leaf prefix tag name x y w h b
             = Done ((entry, exit, x', y'), b') ->
             (x <= x')%Z /\ (y <= y')%Z
             /\ exists added, plane b' = plane b ++ added
                              /\ shapes_from x added).
  { intros prefix tag name w h Hl. rewrite build_leaf_alloc in Hl.
    injection Hl as _ _ <- <- <-. split; [lia|]. split; [lia|].
    apply alloc_added. }
  destruct (nt == "TASK"); [now apply Hleaf in H|].
  destruct (nt == "EVENT"); [now apply Hleaf in H|].
  destruct (mem nt ["XOR"; "AND"]).
  { destruct (alloc_added "Split"
                (if nt == "XOR" then "exclusiveGateway"
                 else "parallelGateway") nt x y 50 50 true b)
      as (a1 & E1 & S1).
    destruct (alloc "Split" _ nt x y 50 50 true b) as [split_id b1].
    cbn [fst snd] in *.
    destruct (build_branches build split_id x cs _ [] b1)
      as [[exits b2]| |] eqn:Eb; try discriminate.
    cbn [bind] in H.
    apply (build_branches_layout split_id x cs IH) in Eb.
    destruct Eb as (a2 & E2 & S2).
    destruct (alloc_added "Join"
                (if nt == "XOR" then "exclusiveGateway"
                 else "parallelGateway") "Join" (x + 500)%Z y 50 50 true b2)
      as (a3 & E3 & S3).
    destruct (alloc "Join" _ "Join" (x + 500)%Z y 50 50 true b2)
      as [join_id b3].
    cbn [fst snd] in *.
    injection H as <- <- <- <- <-.
    destruct (join_flows_added join_id exits b3) as (a4 & E4 & S4).
    split; [lia|]. split; [lia|].
    exists (a1 ++ a2 ++ a3 ++ a4). split.
    - now rewrite E4, E3, E2, E1, !app_assoc.
    - apply Forall_app. split; [exact S1|].
      apply Forall_app. split; [exact S2|].
      apply Forall_app. split; [|apply S4].
      apply (shapes_from_le x (x + 500)%Z); [lia|exact S3]. }
  destruct (nt == "LOOP").
  { destruct cs as [|c0 [|c1 cs]]; try discriminate.
    - destruct (build c0 x y b) as [[[[[? ?] ?] ?] ?]| |]; discriminate.
    - inversion IH as [|? ? H0 IH']; subst.
      inversion IH' as [|? ? H1 _]; subst.
      destruct (build c0 x y b) as [[[[[e0 x0] xx] yy] b0]| |] eqn:E0;
        try discriminate.
      cbn [bind] in H.
      destruct (build c1 _ _ b0) as [[[[[e1 x1] xx1] yy1] b1]| |] eqn:E1;
        try discriminate.
      cbn [bind] in H. injection H as <- <- <- <- <-.
      destruct (H0 _ _ _ _ _ _ _ _ E0) as (_ & _ & a0 & P0 & S0).
      destruct (H1 _ _ _ _ _ _ _ _ E1) as (_ & _ & a1 & P1 & S1).
      destruct (add_flow_added x0 e1 b1) as (a2 & P2 & S2).
      destruct (add_flow_added x1 e0 (snd (add_flow x0 e1 b1)))
        as (a3 & P3 & S3).
      split; [lia|]. split; [lia|].
      exists (a0 ++ a1 ++ a2 ++ a3). split.
      + now rewrite P3, P2, P1, P0, !app_assoc.
      + apply Forall_app. split; [exact S0|].
        apply Forall_app. split;
          [apply (shapes_from_le x (x + 200)%Z); [lia|exact S1]|].
        apply Forall_app. split; [apply S2|apply S3]. }
  destruct (nt == "NULL"); now apply Hleaf in H.
Qed.

(** X21. A rendering only adds to the diagram, puts no shape left of the
    [x] it was given, and hands back a cursor that has not moved left or
    up. *)
Theorem build_layout (t : Node) (x y : Z) (b : Builder)
    (entry exit : option string) (x' y' : Z) (b' : Builder) :
  build t x y b = Done ((entry, exit, x', y'), b') ->
  (x <= x')%Z /\ (y <= y')%Z
  /\ exists added, plane b' = plane b ++ added /\ shapes_from x added.
Proof. apply build_layout_all. Qed.

Lemma build_layout_witness :
  exists entry exit x' y' b',
    build round_trip_tree 100 100 new_builder
    = Done ((entry, exit, x', y'), b')
    /\ (100 <= x')%Z /\ (100 <= y')%Z
    /\ exists added, plane b' = [] ++ added /\ shapes_from 100 added.
Proof.
  destruct (build round_trip_tree 100 100 new_builder)
    as [[[[[entry exit] x'] y'] b']| |] eqn:E;
    [|vm_compute in E; discriminate E..].
  exists entry, exit, x', y', b'. split; [reflexivity|].
  exact (build_layout round_trip_tree 100 100 new_builder
           entry exit x' y' b' E).
Defined.
